(** * gohst/internal/ratelimit: token-bucket rate limiter

    A shallow embedding of the rate-limit package (bucket.go, policy.go,
    store_memory.go, store_redis.go, clientip.go, keys.go, middleware.go)
    and the properties of its admission control.

    Conventions of the embedding.
    - Go [int] and [int64] values are integers in [Z]; policies are small
      configuration constants and no 64-bit wrap-around is modelled for
      [Limit + Burst].
    - Go [float64] values (tokens, rates, elapsed seconds) are exact
      rationals in [Q]: the model is the exact-arithmetic reading of the
      token-bucket equations, without IEEE rounding.
    - [time.Time] is a number of nanoseconds since the epoch, and
      [time.Duration] a number of nanoseconds, both in [Z].  Every call of
      [time.Now()] in the source is an explicit argument here.
    - Go strings are byte strings: [string] with [length] the byte length.
      [strings.TrimSpace] and [strings.ToLower] read them as UTF-8, as in
      Go; the case tables of [unicode] are an interface, like the
      functions of [net].
    - Pointers to mutable records ([*Bucket], [*memEntry]) are modelled by
      explicit state passing: a method returns the updated record. *)

From Stdlib Require Import ZArith QArith Qround Qminmax Lqa Lia.
From Stdlib Require Import String Ascii List DecimalString.
From stdpp Require Import base option gmap strings list finite.

Local Open Scope Z_scope.

(** ** Numeric helpers *)

Module Num.

(** [float64(n)] for an integer [n]. *)
Definition float64 (n : Z) : Q := inject_Z n.

(** [int(x)] for a float [x]: Go truncates toward zero. *)
Definition int_of_float (x : Q) : Z :=
  if Qle_bool 0 x then Qfloor x else Qceiling x.

(** [time.Second], in nanoseconds. *)
Definition Second : Z := 1000000000.

(** [Duration.Seconds()]. *)
Definition Seconds (d : Z) : Q := (float64 d / float64 Second)%Q.

(** [Time.Unix()]: whole seconds since the epoch. *)
Definition Unix (t : Z) : Z := t / Second.

(** [Time.UnixMilli()]. *)
Definition UnixMilli (t : Z) : Z := t / 1000000.

(** [a / b] on Go integers: the quotient truncated toward zero. *)
Definition int_div (a b : Z) : Z := Z.quot a b.

End Num.

(** ** policy.go *)

Record Policy : Type := mkPolicy {
  Limit : Z;             (* requests allowed per window *)
  Window : Z;            (* time.Duration, nanoseconds *)
  Burst : Z;             (* extra capacity *)
  Scope : string;
  Enabled : bool;
  Cost : Z;
  ConcurrencyLimit : Z   (* 0 means unlimited *)
}.

(** The policies the package is specified for: a positive limit, a
    positive window and a non-negative burst. *)
Record valid_policy (p : Policy) : Prop := mkValid {
  valid_limit : 0 < Limit p;
  valid_window : 0 < Window p;
  valid_burst : 0 <= Burst p
}.

Definition AuthSensitivePolicy : Policy :=
  {| Limit := 10; Window := 60 * Num.Second; Burst := 0;
     Scope := "auth_sensitive"; Enabled := true; Cost := 1;
     ConcurrencyLimit := 0 |}.

Definition ExportsPolicy : Policy :=
  {| Limit := 10; Window := 60 * Num.Second; Burst := 0;
     Scope := "exports"; Enabled := true; Cost := 1;
     ConcurrencyLimit := 1 |}.

(** [limit + burst], the capacity of a bucket. *)
Definition max_tokens (p : Policy) : Z := Limit p + Burst p.

(** [limit / window_seconds], tokens per second. *)
Definition refill_rate (p : Policy) : Q :=
  (Num.float64 (Limit p) / Num.Seconds (Window p))%Q.

(** ** bucket.go: the token bucket *)

Record Bucket : Type := mkBucket {
  Tokens : Q;
  MaxTokens : Q;
  RefillRate : Q;
  LastRefill : Z
}.

(** [NewBucket(p)]; [t] is the reading of [time.Now()]. *)
Definition NewBucket (p : Policy) (t : Z) : Bucket :=
  let max := Num.float64 (Limit p + Burst p) in
  {| Tokens := max;
     MaxTokens := max;
     RefillRate := (Num.float64 (Limit p) / Num.Seconds (Window p))%Q;
     LastRefill := t |}.

(** [b.refill(now)]. *)
Definition Bucket_refill (b : Bucket) (now : Z) : Bucket :=
  let elapsed := Num.Seconds (now - LastRefill b) in
  if Qle_bool elapsed 0 then b
  else {| Tokens := Qmin (MaxTokens b) (Tokens b + elapsed * RefillRate b)%Q;
          MaxTokens := MaxTokens b;
          RefillRate := RefillRate b;
          LastRefill := now |}.

(** [b.Allow(cost, now)]: the pair [(remaining, allowed)] and the bucket
    after the call. *)
Definition Bucket_Allow (b : Bucket) (cost : Z) (now : Z) : (Z * bool) * Bucket :=
  let b1 := Bucket_refill b now in
  let c := Num.float64 cost in
  if Qle_bool c (Tokens b1) then
    let b2 := {| Tokens := (Tokens b1 - c)%Q;
                 MaxTokens := MaxTokens b1;
                 RefillRate := RefillRate b1;
                 LastRefill := LastRefill b1 |} in
    ((Num.int_of_float (Tokens b2), true), b2)
  else ((0, false), b1).

(** [b.RetryAfter(cost)]. *)
Definition Bucket_RetryAfter (b : Bucket) (cost : Z) : Q :=
  let deficit := (Num.float64 cost - Tokens b)%Q in
  if Qle_bool deficit 0 then 0%Q
  else if Qle_bool (RefillRate b) 0 then 0%Q
  else inject_Z (Qceiling (deficit / RefillRate b)).

(** [b.ResetUnix()]; [t] is the reading of [time.Now()]. *)
Definition Bucket_ResetUnix (b : Bucket) (t : Z) : Z :=
  let deficit := (MaxTokens b - Tokens b)%Q in
  if Qle_bool deficit 0 then Num.Unix t
  else
    let seconds := (deficit / RefillRate b)%Q in
    Num.Unix (t + Num.int_of_float (seconds * Num.float64 Num.Second)).

Record Result : Type := mkResult {
  Allowed : bool;
  RLimit : Z;          (* Result.Limit *)
  Remaining : Z;
  RetryAfter : Z;      (* seconds, 0 when allowed *)
  ResetAt : Z
}.

(** ** store_memory.go: the in-process store *)

Record memEntry : Type := mkEntry {
  bucket : Bucket;
  expiresAt : Z
}.

(** [MemoryStore.entries]; the mutex makes every method atomic, so a
    method is a function on the map. *)
Abbreviation MemoryStore := (gmap string memEntry).

(** The readings of [time.Now()] taken during one [MemoryStore.Allow]:
    at its start, inside [NewBucket] (only read for a new key) and inside
    [ResetUnix]. *)
Record Clock : Type := mkClock {
  at_call : Z;
  at_new : Z;
  at_reset : Z
}.

(** A clock that does not advance. *)
Definition frozen (t : Z) : Clock :=
  {| at_call := t; at_new := t; at_reset := t |}.

(** [s.Allow(key, policy, cost)]. *)
Definition MemoryStore_Allow (s : MemoryStore) (key : string)
    (policy : Policy) (cost : Z) (clk : Clock) : Result * MemoryStore :=
  let now := at_call clk in
  let e :=
    match s !! key with
    | Some e => e
    | None => {| bucket := NewBucket policy (at_new clk);
                 expiresAt := now + Window policy * 2 |}
    end in
  let '((remaining, allowed), b) := Bucket_Allow (bucket e) cost now in
  let e' := {| bucket := b; expiresAt := now + Window policy * 2 |} in
  let retry :=
    if allowed then 0
    else
      let r := Num.int_of_float (Bucket_RetryAfter b cost) in
      if r <? 1 then 1 else r in
  ({| Allowed := allowed;
      RLimit := Limit policy + Burst policy;
      Remaining := remaining;
      RetryAfter := retry;
      ResetAt := Bucket_ResetUnix b (at_reset clk) |},
   <[key := e']> s).

(** [s.Reset(key)]. *)
Definition MemoryStore_Reset (s : MemoryStore) (key : string) : MemoryStore :=
  delete key s.

(** One tick of [s.cleanup]: entries whose expiry lies before [now] go. *)
Definition MemoryStore_sweep (s : MemoryStore) (now : Z) : MemoryStore :=
  filter (fun kv => negb (expiresAt (snd kv) <? now) = true) s.

(** A run of bucket operations, as a caller can issue them. *)
Inductive BucketOp : Type :=
| OpRefill (now : Z)
| OpAllow (cost : Z) (now : Z).

Definition bucket_step (b : Bucket) (op : BucketOp) : Bucket :=
  match op with
  | OpRefill now => Bucket_refill b now
  | OpAllow cost now => snd (Bucket_Allow b cost now)
  end.

Definition bucket_run (b : Bucket) (ops : list BucketOp) : Bucket :=
  fold_left bucket_step ops b.

Definition op_cost (op : BucketOp) : Z :=
  match op with
  | OpRefill _ => 0
  | OpAllow cost _ => cost
  end.

(** The verdicts of [n] successive [b.Allow(1, now)] calls. *)
Fixpoint allow_n (b : Bucket) (now : Z) (n : nat) : list bool :=
  match n with
  | O => []
  | S n' =>
      let '((_, allowed), b') := Bucket_Allow b 1 now in
      allowed :: allow_n b' now n'
  end.

(** The results of [n] successive [s.Allow(key, policy, 1)] calls on a
    clock that stands still at [t]. *)
Fixpoint store_allow_n (s : MemoryStore) (key : string) (policy : Policy)
    (t : Z) (n : nat) : list Result :=
  match n with
  | O => []
  | S n' =>
      let '(r, s') := MemoryStore_Allow s key policy 1 (frozen t) in
      r :: store_allow_n s' key policy t n'
  end.

(** Operations on a memory store, all issued under one policy. *)
Inductive StoreOp : Type :=
| SAllow (key : string) (cost : Z) (clk : Clock)
| SReset (key : string)
| SSweep (now : Z).

Definition store_step (p : Policy) (s : MemoryStore) (op : StoreOp) : MemoryStore :=
  match op with
  | SAllow key cost clk => snd (MemoryStore_Allow s key p cost clk)
  | SReset key => MemoryStore_Reset s key
  | SSweep now => MemoryStore_sweep s now
  end.

Definition store_run (p : Policy) (s : MemoryStore) (ops : list StoreOp) : MemoryStore :=
  fold_left (store_step p) ops s.

(** ** store_redis.go: the Redis store *)

(** The hash kept under one bucket key: the fields [tokens] and [last_ms]
    written by [HMSET], and the time to live set by [EXPIRE]. *)
Record RedisHash : Type := mkHash {
  h_tokens : Q;
  h_last_ms : Z;
  h_ttl : Z
}.

(** The server as the store's client sees it: the keyspace, and the error
    every command fails with while the server cannot be reached. *)
Record RedisServer : Type := mkServer {
  keyspace : gmap string RedisHash;
  fault : option string
}.

(** Nearest integer, ties to the even neighbour. *)
Definition round_half_even (x : Q) : Z :=
  let f := Qfloor x in
  match ((x - inject_Z f) ?= (1 # 2))%Q with
  | Lt => f
  | Gt => f + 1
  | Eq => if Z.even f then f else f + 1
  end.

(** The number Lua reads back from [fmt.Sprintf("%.4f", x)]: [x] rounded
    to four decimals. *)
Definition fmt4 (x : Q) : Q :=
  (inject_Z (round_half_even (x * 10000)) / 10000)%Q.

(** The script [luaTokenBucket].  [stored] is what [HMGET] finds under the
    key; the result is the reply [{allowed, remaining, retry_ms, reset_at}]
    and the hash left under the key. *)
Definition luaTokenBucket (stored : option RedisHash)
    (max rate : Q) (cost now_ms ttl : Z) : (Z * Z * Z * Z) * RedisHash :=
  let '(tokens, last_ms) :=
    match stored with
    | Some h => (h_tokens h, h_last_ms h)
    | None => (max, now_ms)
    end in
  (* refill *)
  let elapsed_s := (inject_Z (now_ms - last_ms) / 1000)%Q in
  let '(tokens, last_ms) :=
    if Qle_bool elapsed_s 0 then (tokens, last_ms)
    else (Qmin max (tokens + elapsed_s * rate)%Q, now_ms) in
  let '(allowed, remaining, retry_ms, tokens) :=
    if Qle_bool (inject_Z cost) tokens then
      let tokens' := (tokens - inject_Z cost)%Q in
      (1, Qfloor tokens', 0, tokens')
    else
      let deficit := (inject_Z cost - tokens)%Q in
      (0, Qfloor tokens, Qceiling ((deficit / rate) * 1000), tokens) in
  (* time until the bucket is full again *)
  let deficit_full := (max - tokens)%Q in
  let reset_s :=
    if negb (Qle_bool deficit_full 0) && negb (Qle_bool rate 0)
    then (deficit_full / rate)%Q else 0%Q in
  let reset_at := Qfloor (inject_Z now_ms / 1000) + Qceiling reset_s in
  ((allowed, remaining, retry_ms, reset_at),
   {| h_tokens := tokens; h_last_ms := last_ms; h_ttl := ttl |}).

(** [luaTokenBucket.Run(...).Int64Slice()]: an error while the server is
    at fault, else the script runs atomically on the keyspace. *)
Definition run_luaTokenBucket (srv : RedisServer) (fullKey : string)
    (max rate : Q) (cost now_ms ttl : Z)
    : (string + Z * Z * Z * Z) * RedisServer :=
  match fault srv with
  | Some err => (inl err, srv)
  | None =>
      let '(vals, h) :=
        luaTokenBucket (keyspace srv !! fullKey) max rate cost now_ms ttl in
      (inr vals, {| keyspace := <[fullKey := h]> (keyspace srv);
                    fault := None |})
  end.

(** [s.Allow(key, policy, cost)] for a [RedisStore] with prefix [prefix];
    [now] is the reading of [time.Now()]. *)
Definition RedisStore_Allow (prefix : string) (srv : RedisServer)
    (key : string) (policy : Policy) (cost : Z) (now : Z)
    : Result * RedisServer :=
  let fullKey := (prefix ++ key)%string in
  let maxTokens := Num.float64 (Limit policy + Burst policy) in
  let refillRate := (Num.float64 (Limit policy) / Num.Seconds (Window policy))%Q in
  let nowMs := Num.UnixMilli now in
  let ttl := Num.int_of_float (Num.Seconds (Window policy)) * 2 in
  match run_luaTokenBucket srv fullKey (fmt4 maxTokens) (fmt4 refillRate)
          cost nowMs ttl with
  | (inl _, srv') =>
      (* fail open *)
      ({| Allowed := true;
          RLimit := Limit policy + Burst policy;
          Remaining := Limit policy + Burst policy;
          RetryAfter := 0;
          ResetAt := 0 |}, srv')
  | (inr (v0, v1, v2, v3), srv') =>
      let allowed := v0 =? 1 in
      let retryAfter := Num.int_div v2 1000 in
      let retryAfter :=
        if negb allowed && (retryAfter <? 1) then 1 else retryAfter in
      ({| Allowed := allowed;
          RLimit := Limit policy + Burst policy;
          Remaining := v1;
          RetryAfter := retryAfter;
          ResetAt := v3 |}, srv')
  end.

(** [s.Reset(key)]: [DEL]; nothing changes while the server is at fault. *)
Definition RedisStore_Reset (prefix : string) (srv : RedisServer)
    (key : string) : RedisServer :=
  match fault srv with
  | Some _ => srv
  | None => {| keyspace := delete (prefix ++ key)%string (keyspace srv);
               fault := None |}
  end.

(** Successive [s.Allow(key, policy, cost)] calls at the given instants. *)
Fixpoint redis_allow_seq (prefix : string) (srv : RedisServer) (key : string)
    (policy : Policy) (cost : Z) (nows : list Z) : list Result :=
  match nows with
  | [] => []
  | now :: rest =>
      let '(r, srv') := RedisStore_Allow prefix srv key policy cost now in
      r :: redis_allow_seq prefix srv' key policy cost rest
  end.

(** An empty server that answers. *)
Definition redis_empty : RedisServer := {| keyspace := ∅; fault := None |}.

(** ** Go's [unicode] tables

    The case mapping of code points, as an interface: the properties
    below hold whatever the tables map. *)

Class Unicode : Type := mkUnicode {
  (** [unicode.ToLower]. *)
  unicode_ToLower : Z -> Z
}.

(** ** Go's [unicode/utf8] package *)

Module utf8.

Definition RuneError : Z := 65533.

Definition byte (c : ascii) : Z := Z.of_N (N_of_ascii c).

Definition char (b : Z) : ascii := ascii_of_N (Z.to_N b).

(** The table [first], for the bytes that begin a sequence of several
    bytes: the size and the range accepted for the second byte. *)
Definition lead (b0 : Z) : option (Z * Z * Z) :=
  if (194 <=? b0) && (b0 <=? 223) then Some (2, 128, 191)
  else if b0 =? 224 then Some (3, 160, 191)
  else if (225 <=? b0) && (b0 <=? 236) then Some (3, 128, 191)
  else if b0 =? 237 then Some (3, 128, 159)
  else if (238 <=? b0) && (b0 <=? 239) then Some (3, 128, 191)
  else if b0 =? 240 then Some (4, 144, 191)
  else if (241 <=? b0) && (b0 <=? 243) then Some (4, 128, 191)
  else if b0 =? 244 then Some (4, 128, 143)
  else None.

(** A continuation byte. *)
Definition cont (b : Z) : bool := (128 <=? b) && (b <=? 191).

Definition low6 (b : Z) : Z := Z.land b 63.

(** The code points of [for _, c := range s]: [DecodeRuneInString] at
    every position reached; a byte that begins no valid sequence gives
    [RuneError] and is passed over alone. *)
Fixpoint runes (l : list Z) : list Z :=
  match l with
  | [] => []
  | b0 :: l1 =>
      let bad := RuneError :: runes l1 in
      if b0 <? 128 then b0 :: runes l1
      else
        match lead b0 with
        | None => bad
        | Some (sz, lo, hi) =>
            match l1 with
            | [] => bad
            | b1 :: l2 =>
                if (b1 <? lo) || (hi <? b1) then bad
                else if sz <=? 2 then
                  Z.lor (Z.shiftl (Z.land b0 31) 6) (low6 b1) :: runes l2
                else
                  match l2 with
                  | [] => bad
                  | b2 :: l3 =>
                      if negb (cont b2) then bad
                      else if sz <=? 3 then
                        Z.lor (Z.shiftl (Z.land b0 15) 12)
                          (Z.lor (Z.shiftl (low6 b1) 6) (low6 b2))
                        :: runes l3
                      else
                        match l3 with
                        | [] => bad
                        | b3 :: l4 =>
                            if negb (cont b3) then bad
                            else
                              Z.lor (Z.shiftl (Z.land b0 7) 18)
                                (Z.lor (Z.shiftl (low6 b1) 12)
                                   (Z.lor (Z.shiftl (low6 b2) 6) (low6 b3)))
                              :: runes l4
                        end
                  end
            end
        end
  end.

Definition three (r : Z) : list Z :=
  [Z.lor 224 (Z.shiftr r 12); Z.lor 128 (low6 (Z.shiftr r 6));
   Z.lor 128 (low6 r)].

(** [utf8.AppendRune(nil, r)]. *)
Definition AppendRune (r : Z) : list Z :=
  if (0 <=? r) && (r <=? 127) then [r]
  else if (0 <=? r) && (r <=? 2047) then
    [Z.lor 192 (Z.shiftr r 6); Z.lor 128 (low6 r)]
  else if (r <? 0) || (1114111 <? r) || ((55296 <=? r) && (r <=? 57343))
  then three RuneError
  else if r <=? 65535 then three r
  else
    [Z.lor 240 (Z.shiftr r 18); Z.lor 128 (low6 (Z.shiftr r 12));
     Z.lor 128 (low6 (Z.shiftr r 6)); Z.lor 128 (low6 r)].

End utf8.

(** ** Go's [strings] package, on byte strings

    Strings are sequences of bytes, read as UTF-8 where the functions
    do. *)

Module strings.

(** [asciiSpace]: the six ASCII space characters. *)
Definition is_space (c : ascii) : bool :=
  let n := nat_of_ascii c in
  (n =? 32)%nat || ((9 <=? n)%nat && (n <=? 13)%nat).

Definition byte_is (n : nat) (c : ascii) : bool := (nat_of_ascii c =? n)%nat.

(** The code points of [unicode.IsSpace] that take two bytes: U+0085 and
    U+00A0. *)
Definition space2 (c1 c2 : ascii) : bool :=
  byte_is 194 c1 && (byte_is 133 c2 || byte_is 160 c2).

(** Those that take three: U+1680, U+2000 to U+200A, U+2028, U+2029,
    U+202F, U+205F and U+3000. *)
Definition space3 (c1 c2 c3 : ascii) : bool :=
  let n3 := nat_of_ascii c3 in
  (byte_is 225 c1 && byte_is 154 c2 && byte_is 128 c3)
  || (byte_is 226 c1 && byte_is 128 c2
      && (((128 <=? n3)%nat && (n3 <=? 138)%nat)
          || byte_is 168 c3 || byte_is 169 c3 || byte_is 175 c3))
  || (byte_is 226 c1 && byte_is 129 c2 && byte_is 159 c3)
  || (byte_is 227 c1 && byte_is 128 c2 && byte_is 128 c3).

Section trimming.
(** White space of one, two and three bytes, read from the end that is
    trimmed. *)
Variable p1 : ascii -> bool.
Variable p2 : ascii -> ascii -> bool.
Variable p3 : ascii -> ascii -> ascii -> bool.

(** The characters begin with white space. *)
Definition leads (l : list ascii) : bool :=
  match l with
  | c1 :: l1 =>
      p1 c1
      || match l1 with
         | c2 :: l2 =>
             p2 c1 c2
             || match l2 with
                | c3 :: _ => p3 c1 c2 c3
                | [] => false
                end
         | [] => false
         end
  | [] => false
  end.

Fixpoint trim_with (l : list ascii) : list ascii :=
  match l with
  | c1 :: l1 =>
      if p1 c1 then trim_with l1
      else
        match l1 with
        | c2 :: l2 =>
            if p2 c1 c2 then trim_with l2
            else
              match l2 with
              | c3 :: l3 => if p3 c1 c2 c3 then trim_with l3 else l
              | [] => l
              end
        | [] => l
        end
  | [] => []
  end.

End trimming.

(** [TrimLeftFunc(s, unicode.IsSpace)]. *)
Definition trim_left (l : list ascii) : list ascii :=
  trim_with is_space space2 space3 l.

(** [TrimRightFunc(s, unicode.IsSpace)]: the same from the last byte
    backwards. *)
Definition trim_right (l : list ascii) : list ascii :=
  rev (trim_with is_space (fun a b => space2 b a)
         (fun a b c => space3 c b a) (rev l)).

Definition trim (l : list ascii) : list ascii := trim_right (trim_left l).

(** [strings.TrimSpace(s)]: white space, as Unicode has it, removed at
    both ends. *)
Definition TrimSpace (s : string) : string :=
  string_of_list_ascii (trim (list_ascii_of_string s)).

Definition lower (c : ascii) : ascii :=
  let n := nat_of_ascii c in
  if (65 <=? n)%nat && (n <=? 90)%nat then ascii_of_nat (n + 32) else c.

Definition upper (c : ascii) : ascii :=
  let n := nat_of_ascii c in
  if (97 <=? n)%nat && (n <=? 122)%nat then ascii_of_nat (n - 32) else c.

(** [strings.Map(mapping, s)]: a code point mapped below zero is
    dropped. *)
Definition Map (mapping : Z -> Z) (s : string) : string :=
  string_of_list_ascii
    (map utf8.char
       (flat_map (fun c => let r := mapping c in
                           if 0 <=? r then utf8.AppendRune r else [])
          (utf8.runes (map utf8.byte (list_ascii_of_string s))))).

(** [strings.ToLower(s)]: byte by byte when all of [s] is ASCII, and
    else the map of [unicode.ToLower]. *)
Definition ToLower {uni : Unicode} (s : string) : string :=
  let l := list_ascii_of_string s in
  if forallb (fun c => (nat_of_ascii c <? 128)%nat) l
  then string_of_list_ascii (map lower l)
  else Map unicode_ToLower s.

(** [strings.EqualFold(s, t)] for a [t] of ASCII bytes without the
    letters k and s, the two that fold with a code point outside ASCII:
    equality up to the case of the letters [A-Z]. *)
Definition EqualFoldASCII (s t : string) : bool :=
  String.eqb (string_of_list_ascii (map lower (list_ascii_of_string s)))
             (string_of_list_ascii (map lower (list_ascii_of_string t))).

(** [strings.Split(s, sep)] for a one-byte separator: never empty. *)
Fixpoint Split (s : string) (sep : ascii) : list string :=
  match s with
  | EmptyString => [EmptyString]
  | String c s' =>
      if Ascii.eqb c sep then EmptyString :: Split s' sep
      else match Split s' sep with
           | x :: xs => String c x :: xs
           | [] => [String c EmptyString]
           end
  end.

(** [strings.Contains(s, sep)] for a one-byte [sep]. *)
Definition ContainsByte (s : string) (sep : ascii) : bool :=
  existsb (Ascii.eqb sep) (list_ascii_of_string s).

Definition HasPrefix (s p : string) : bool := String.prefix p s.

End strings.

(** ** net/http requests, as far as the package reads them *)

(** [textproto.CanonicalMIMEHeaderKey]: the first letter and every letter
    after a hyphen in upper case, the others in lower case. *)
Fixpoint canonical_from (up : bool) (s : string) : string :=
  match s with
  | EmptyString => EmptyString
  | String c s' =>
      String (if up then strings.upper c else strings.lower c)
             (canonical_from (Ascii.eqb c "-") s')
  end.

Definition CanonicalHeaderKey (s : string) : string := canonical_from true s.

(** The first value bound to [k], or the empty string. *)
Fixpoint first_value (k : string) (kvs : list (string * string)) : string :=
  match kvs with
  | [] => EmptyString
  | (k', v) :: rest => if String.eqb k k' then v else first_value k rest
  end.

Record Request : Type := mkRequest {
  Method : string;
  URL_Path : string;
  RemoteAddr : string;
  Header : list (string * string);   (* canonical name, value *)
  URL_Query : list (string * string);(* the parsed query string *)
  PostForm : list (string * string)  (* the parameters ParseForm reads
                                        from a url-encoded body *)
}.

(** [r.Header.Get(name)]. *)
Definition Header_Get (r : Request) (name : string) : string :=
  first_value (CanonicalHeaderKey name) (Header r).

(** [r.FormValue(field)] after [r.ParseForm()]: body parameters come
    before query parameters in [r.Form]. *)
Definition FormValue (r : Request) (field : string) : string :=
  first_value field (PostForm r ++ URL_Query r).

(** [r.URL.Query().Get(field)]. *)
Definition Query_Get (r : Request) (field : string) : string :=
  first_value field (URL_Query r).

(** [config.RateLimitConfig]: of its fields, the three this package reads
    at request time. *)
Record RateLimitConfig : Type := mkConfig {
  CfgEnabled : bool;                 (* config.RateLimit.Enabled *)
  TrustedProxies : list string;
  DefaultResponseFormat : string
}.

(** ** Go's [net] package

    The address functions the package calls, as an interface: the
    properties below hold whatever the parser accepts. *)

Class Net : Type := mkNet {
  IP : Type;
  IPNet : Type;
  (** [net.SplitHostPort]: host and port, or nothing on an error. *)
  SplitHostPort : string -> option (string * string);
  (** [net.ParseIP]: nothing for [nil]. *)
  ParseIP : string -> option IP;
  IP_String : IP -> string;
  IP_Equal : IP -> IP -> bool;
  IP_IsLoopback : IP -> bool;
  (** [net.ParseCIDR]: the network, or nothing on an error. *)
  ParseCIDR : string -> option IPNet;
  IPNet_Contains : IPNet -> IP -> bool
}.

(** ** clientip.go *)

Section clientip.
Context {net : Net}.

(** [extractIP(addr)]. *)
Definition extractIP (addr : string) : string :=
  match SplitHostPort addr with
  | None => addr
  | Some (host, _) => host
  end.

(** [normalizeIP(raw)]. *)
Definition normalizeIP (raw : string) : string :=
  let raw := strings.TrimSpace raw in
  match ParseIP raw with
  | None => raw
  | Some ip => IP_String ip
  end.

(** One entry of the trusted list against a parsed address. *)
Definition entry_matches (parsedIP : IP) (entry : string) : bool :=
  if strings.ContainsByte entry "/" then
    match ParseCIDR entry with
    | None => false
    | Some cidr => IPNet_Contains cidr parsedIP
    end
  else
    match ParseIP entry with
    | Some e => IP_Equal e parsedIP
    | None => false
    end.

(** [isTrusted(ip, trusted)]. *)
Definition isTrusted (ip : string) (trusted : list string) : bool :=
  match ParseIP ip with
  | None => false
  | Some parsedIP => existsb (entry_matches parsedIP) trusted
  end.

(** The loop over [X-Forwarded-For], entries taken right to left: the
    first entry that is not empty and not trusted. *)
Fixpoint rightmost_untrusted (rev_parts : list string)
    (trusted : list string) : option string :=
  match rev_parts with
  | [] => None
  | part :: rest =>
      let ip := strings.TrimSpace part in
      if String.eqb ip EmptyString then rightmost_untrusted rest trusted
      else if negb (isTrusted ip trusted) then Some ip
      else rightmost_untrusted rest trusted
  end.

(** [ClientIP(r)]; [cfg] is [config.RateLimit], which may be nil. *)
Definition ClientIP (cfg : option RateLimitConfig) (r : Request) : string :=
  let peerIP := extractIP (RemoteAddr r) in
  let trusted :=
    match cfg with
    | Some c => TrustedProxies c
    | None => []
    end in
  if (length trusted =? 0)%nat || negb (isTrusted peerIP trusted) then
    normalizeIP peerIP
  else
    let realIP := Header_Get r "X-Real-IP" in
    if negb (String.eqb realIP EmptyString) then
      normalizeIP (strings.TrimSpace realIP)
    else
      let xff := Header_Get r "X-Forwarded-For" in
      if negb (String.eqb xff EmptyString) then
        let parts := strings.Split xff "," in
        match rightmost_untrusted (rev parts) trusted with
        | Some ip => normalizeIP ip
        | None =>
            let first := strings.TrimSpace (hd EmptyString parts) in
            if negb (String.eqb first EmptyString) then normalizeIP first
            else normalizeIP peerIP
        end
      else normalizeIP peerIP.

End clientip.

(** ** crypto/sha256 and encoding/hex *)

Module sha256.

(** The primes below [n]. *)
Definition primes_below (n : nat) : list Z :=
  filter (fun q => forallb (fun d => negb (q mod d =? 0))
                     (map Z.of_nat (seq 2 (Z.to_nat q - 2))))
         (map Z.of_nat (seq 2 (n - 2))).

(** The integer cube root of a number below [2^108], bit by bit. *)
Definition cube_root (x : Z) : Z :=
  fold_left (fun r i =>
               let r' := r + 2 ^ Z.of_nat i in
               if r' * r' * r' <=? x then r' else r)
            (rev (seq 0 36)) 0.

(** The round constants: the first 32 bits of the fractional parts of
    the cube roots of the first 64 primes. *)
Definition K : list Z :=
  Eval vm_compute in
    map (fun q => cube_root (q * 2 ^ 96) mod 2 ^ 32) (primes_below 312).

(** The initial state: the first 32 bits of the fractional parts of the
    square roots of the first 8 primes. *)
Definition H0 : list Z :=
  Eval vm_compute in
    map (fun q => Z.sqrt (q * 2 ^ 64) mod 2 ^ 32) (primes_below 20).

Definition add32 (x y : Z) : Z := (x + y) mod 2^32.

Definition rotr (x n : Z) : Z :=
  Z.lor (Z.shiftr x n) ((Z.shiftl x (32 - n)) mod 2^32).

Definition not32 (x : Z) : Z := Z.lxor x 0xffffffff.

(** The eight 32-bit words of the hash state. *)
Record digest : Type := mkDigest {
  h0 : Z; h1 : Z; h2 : Z; h3 : Z; h4 : Z; h5 : Z; h6 : Z; h7 : Z
}.

Definition init : digest :=
  mkDigest (nth 0 H0 0) (nth 1 H0 0) (nth 2 H0 0) (nth 3 H0 0)
           (nth 4 H0 0) (nth 5 H0 0) (nth 6 H0 0) (nth 7 H0 0).

(** Big-endian words of a block of bytes. *)
Fixpoint words (bs : list Z) : list Z :=
  match bs with
  | b0 :: b1 :: b2 :: b3 :: rest =>
      (b0 * 2^24 + b1 * 2^16 + b2 * 2^8 + b3) :: words rest
  | _ => []
  end.

(** The message schedule, latest word first: [n] more words. *)
Fixpoint extend (n : nat) (w : list Z) : list Z :=
  match n with
  | O => w
  | S n' =>
      let w15 := nth 14 w 0 in
      let w2 := nth 1 w 0 in
      let s0 := Z.lxor (Z.lxor (rotr w15 7) (rotr w15 18)) (Z.shiftr w15 3) in
      let s1 := Z.lxor (Z.lxor (rotr w2 17) (rotr w2 19)) (Z.shiftr w2 10) in
      extend n' (add32 (add32 (add32 (nth 15 w 0) s0) (nth 6 w 0)) s1 :: w)
  end.

Definition round (st : digest) (kw : Z * Z) : digest :=
  let '(k, w) := kw in
  let '(mkDigest a b c d e f g h) := st in
  let S1 := Z.lxor (Z.lxor (rotr e 6) (rotr e 11)) (rotr e 25) in
  let ch := Z.lxor (Z.land e f) (Z.land (not32 e) g) in
  let t1 := add32 (add32 (add32 (add32 h S1) ch) k) w in
  let S0 := Z.lxor (Z.lxor (rotr a 2) (rotr a 13)) (rotr a 22) in
  let maj := Z.lxor (Z.lxor (Z.land a b) (Z.land a c)) (Z.land b c) in
  let t2 := add32 S0 maj in
  mkDigest (add32 t1 t2) a b c (add32 d t1) e f g.

(** One 64-byte block. *)
Definition block (st : digest) (bs : list Z) : digest :=
  let w := rev (extend 48 (rev (words bs))) in
  let r := fold_left round (combine K w) st in
  mkDigest (add32 (h0 st) (h0 r)) (add32 (h1 st) (h1 r))
           (add32 (h2 st) (h2 r)) (add32 (h3 st) (h3 r))
           (add32 (h4 st) (h4 r)) (add32 (h5 st) (h5 r))
           (add32 (h6 st) (h6 r)) (add32 (h7 st) (h7 r)).

(** The padded message: a one bit, zeros up to 56 modulo 64, and the bit
    length as a big-endian 64-bit number. *)
Definition pad (msg : list Z) : list Z :=
  let len := Z.of_nat (length msg) in
  let zeros := Z.to_nat ((55 - len) mod 64) in
  let bits := len * 8 in
  msg ++ [128] ++ repeat 0 zeros
      ++ map (fun i => Z.shiftr bits (8 * i) mod 256) [7; 6; 5; 4; 3; 2; 1; 0].

(** Consume the padded message block by block; [n] bounds the number of
    blocks. *)
Fixpoint blocks (n : nat) (st : digest) (bs : list Z) : digest :=
  match n, bs with
  | S n', _ :: _ => blocks n' (block st (firstn 64 bs)) (skipn 64 bs)
  | _, _ => st
  end.

(** The hash state after the whole message. *)
Definition state (msg : list Z) : digest :=
  let p := pad msg in blocks (length p) init p.

Definition word_bytes (w : Z) : list Z :=
  [Z.shiftr w 24 mod 256; Z.shiftr w 16 mod 256; Z.shiftr w 8 mod 256;
   w mod 256].

Definition digest_bytes (d : digest) : list Z :=
  word_bytes (h0 d) ++ word_bytes (h1 d) ++ word_bytes (h2 d)
  ++ word_bytes (h3 d) ++ word_bytes (h4 d) ++ word_bytes (h5 d)
  ++ word_bytes (h6 d) ++ word_bytes (h7 d).

(** [sha256.Sum256(msg)]: 32 bytes. *)
Definition Sum256 (msg : list Z) : list Z := digest_bytes (state msg).

End sha256.

Module hex.

Definition digit (n : Z) : ascii :=
  nth (Z.to_nat n) (list_ascii_of_string "0123456789abcdef") "0"%char.

Definition byte_chars (b : Z) : list ascii :=
  [digit (Z.shiftr b 4); digit (Z.land b 15)].

(** [hex.EncodeToString(bs)], as a list of characters. *)
Definition Encode (bs : list Z) : list ascii := flat_map byte_chars bs.

End hex.

(** [[]byte(s)]. *)
Definition bytes_of_string (s : string) : list Z :=
  map (fun c => Z.of_N (N_of_ascii c)) (list_ascii_of_string s).

(** ** keys.go *)

Definition KeyTypeIP : string := "ip".
Definition KeyTypeIPUA : string := "ipua".
Definition KeyTypeIPRoute : string := "iproute".
Definition KeyTypeIPIdent : string := "ipident".

(** [hashValue(v)]: the first 16 characters of the SHA-256 hex digest. *)
Definition hashValue (v : string) : string :=
  string_of_list_ascii
    (firstn 16 (hex.Encode (sha256.Sum256 (bytes_of_string v)))).

(** [extractIdentifier(r, field)]. *)
Definition extractIdentifier {uni : Unicode} (r : Request) (field : string)
    : string :=
  let from_query :=
    let v := Query_Get r field in
    if negb (String.eqb v EmptyString)
    then strings.ToLower (strings.TrimSpace v)
    else EmptyString in
  if String.eqb (Method r) "POST" || String.eqb (Method r) "PUT" then
    let v := FormValue r field in
    if negb (String.eqb v EmptyString)
    then strings.ToLower (strings.TrimSpace v)
    else from_query
  else from_query.

Section keys.
Context {net : Net} {uni : Unicode}.
(** The global [config.RateLimit]. *)
Variable cfg : option RateLimitConfig.

(** [KeyByIP()]. *)
Definition KeyByIP (r : Request) : string * string :=
  let ip := ClientIP cfg r in
  (("ip:" ++ ip)%string, KeyTypeIP).

(** [KeyByIPAndIdentifier(field)]. *)
Definition KeyByIPAndIdentifier (field : string) (r : Request)
    : string * string :=
  let ip := ClientIP cfg r in
  let identifier := extractIdentifier r field in
  (("ipident:" ++ ip ++ ":" ++ hashValue identifier)%string, KeyTypeIPIdent).

(** [KeyByIPAndRoute()]. *)
Definition KeyByIPAndRoute (r : Request) : string * string :=
  let ip := ClientIP cfg r in
  let route := URL_Path r in
  (("iproute:" ++ ip ++ ":" ++ route)%string, KeyTypeIPRoute).

(** [KeyByIPAndUA()]. *)
Definition KeyByIPAndUA (r : Request) : string * string :=
  let ip := ClientIP cfg r in
  let ua := Header_Get r "User-Agent" in
  (("ipua:" ++ ip ++ ":" ++ hashValue ua)%string, KeyTypeIPUA).

End keys.

(** ** allowlist.go *)

Inductive AllowRule : Type :=
| BypassLocalDev
| BypassPaths (Prefixes : list string)
| BypassIPs (Allowed : list string)
| BypassHeader (Header Value : string).

Section allowlist.
Context {net : Net}.
Variable cfg : option RateLimitConfig.

(** [rule.Matches(r)]. *)
Definition Matches (rule : AllowRule) (r : Request) : bool :=
  match rule with
  | BypassLocalDev =>
      match ParseIP (ClientIP cfg r) with
      | Some parsed => IP_IsLoopback parsed
      | None => false
      end
  | BypassPaths prefixes =>
      existsb (fun p => strings.HasPrefix (URL_Path r) p) prefixes
  | BypassIPs allowed => isTrusted (ClientIP cfg r) allowed
  | BypassHeader h v => String.eqb (Header_Get r h) v
  end.

End allowlist.

(** ** bucket.go: the concurrency stores *)

(** [ConcurrencyStore], over a state [CS]: [Acquire] returns [(ok, err)]
    and [Release] returns [err]. *)
Record ConcurrencyStore (CS : Type) : Type := mkConcurrencyStore {
  Acquire : CS -> string -> Z -> (bool * option string) * CS;
  Release : CS -> string -> option string * CS
}.
Arguments Acquire {CS}.
Arguments Release {CS}.

(** [m.inflight[key]]: zero for a missing key. *)
Definition inflight_get (m : gmap string Z) (key : string) : Z :=
  default 0 (m !! key).

(** [MemoryConcurrencyStore.Acquire]. *)
Definition MemoryConcurrencyStore_Acquire (m : gmap string Z) (key : string)
    (limit : Z) : (bool * option string) * gmap string Z :=
  if limit <=? inflight_get m key then ((false, None), m)
  else ((true, None), <[key := inflight_get m key + 1]> m).

(** [MemoryConcurrencyStore.Release]. *)
Definition MemoryConcurrencyStore_Release (m : gmap string Z) (key : string)
    : option string * gmap string Z :=
  let m1 :=
    if 0 <? inflight_get m key
    then <[key := inflight_get m key - 1]> m else m in
  let m2 := if inflight_get m1 key =? 0 then delete key m1 else m1 in
  (None, m2).

Definition MemoryConcurrencyStore : ConcurrencyStore (gmap string Z) :=
  {| Acquire := MemoryConcurrencyStore_Acquire;
     Release := MemoryConcurrencyStore_Release |}.

(** ** store_redis.go: the Redis concurrency store *)

(** The integer keys of the server, each with the time to live last set,
    and the error every command fails with while the server is down. *)
Record RedisCounters : Type := mkCounters {
  counters : gmap string (Z * Z);
  cfault : option string
}.

(** The script [luaConcAcquire] on the value under the key. *)
Definition luaConcAcquire (stored : option (Z * Z)) (limit ttl : Z)
    : Z * option (Z * Z) :=
  let cur := match stored with Some (n, _) => n | None => 0 end in
  if limit <=? cur then (0, stored)
  else (1, Some (cur + 1, ttl)).

(** [r.Acquire(key, limit)] for a store with prefix [prefix] and safety
    time to live [ttl] (a duration). *)
Definition RedisConcurrencyStore_Acquire (prefix : string) (ttl : Z)
    (srv : RedisCounters) (key : string) (limit : Z)
    : (bool * option string) * RedisCounters :=
  match cfault srv with
  | Some _ => ((true, None), srv)   (* fail open *)
  | None =>
      let fullKey := (prefix ++ key)%string in
      let '(res, v) :=
        luaConcAcquire (counters srv !! fullKey) limit
          (Num.int_of_float (Num.Seconds ttl)) in
      ((res =? 1, None),
       {| counters :=
            match v with
            | Some x => <[fullKey := x]> (counters srv)
            | None => counters srv
            end;
          cfault := None |})
  end.

(** [r.Release(key)]: [DECR], then [DEL] once the count is not positive. *)
Definition RedisConcurrencyStore_Release (prefix : string)
    (srv : RedisCounters) (key : string) : option string * RedisCounters :=
  match cfault srv with
  | Some err => (Some err, srv)
  | None =>
      let fullKey := (prefix ++ key)%string in
      let '(cur, ttl) := default (0, -1) (counters srv !! fullKey) in
      let res := cur - 1 in
      (None,
       {| counters :=
            if res <=? 0 then delete fullKey (counters srv)
            else <[fullKey := (res, ttl)]> (counters srv);
          cfault := None |})
  end.


(** ** bucket.go: the store interface *)

(** [Store], over a state [S]; the clock gives the readings of
    [time.Now()] during the call. *)
Record Store (S : Type) : Type := mkStore {
  Store_Allow : S -> string -> Policy -> Z -> Clock -> Result * S
}.
Arguments Store_Allow {S}.

Definition MemoryStore_Store : Store MemoryStore :=
  {| Store_Allow := MemoryStore_Allow |}.

Definition RedisStore (prefix : string) : Store RedisServer :=
  {| Store_Allow := fun srv key policy cost clk =>
       RedisStore_Allow prefix srv key policy cost (at_call clk) |}.

(** ** log.go *)

Module LogEntry.
Record t : Type := mk {
  Method : string;
  Path : string;
  KeyType : string;
  KeyHash : string;
  Scope : string;
  RetryAfter : Z;
  ClientIP : string
}.
End LogEntry.

(** ** middleware.go *)

(** [strconv.Itoa]. *)
Definition Itoa (n : Z) : string := NilZero.string_of_int (Z.to_int n).

(** [truncateKey(key)]. *)
Definition truncateKey (key : string) : string :=
  if (40 <? String.length key)%nat
  then (substring 0 40 key ++ "...")%string
  else key.

(** [searchString(s, sub)]: the loop over the start positions
    [0 .. len(s) - len(sub)]. *)
Definition searchString (s sub : string) : bool :=
  if (String.length s <? String.length sub)%nat then false
  else
    existsb (fun i => String.eqb (substring i (String.length sub) s) sub)
            (seq 0 (String.length s - String.length sub + 1)).

(** [contains(s, substr)]. *)
Definition contains (s substr : string) : bool :=
  (String.length substr <=? String.length s)%nat && searchString s substr.

(** [containsJSON(accept)]. *)
Definition containsJSON (accept : string) : bool :=
  (0 <? String.length accept)%nat
  && (contains accept "application/json" || contains accept "text/json").

(** What the response writer has received when the middleware returns. *)
Inductive Sent : Type :=
| Downstream                                  (* next.ServeHTTP(w, r) ran *)
| TooManyRequests (contentType body : string) (* the limiter's own 429 *)
| Custom.                                     (* onLimit took over *)

Record Outcome : Type := mkOutcome {
  sent : Sent;
  headers : gmap string string;      (* headers set by the limiter *)
  logged : list string;              (* log.Printf messages, in order *)
  entries : list LogEntry.t          (* entries handed to the log store *)
}.

(** [setRateLimitHeaders(w, r)]. *)
Definition setRateLimitHeaders (h : gmap string string) (r : Result)
    : gmap string string :=
  <["X-RateLimit-Reset" := Itoa (ResetAt r)]>
    (<["X-RateLimit-Remaining" := Itoa (Remaining r)]>
       (<["X-RateLimit-Limit" := Itoa (RLimit r)]> h)).

(** The message of the denial log line. *)
Definition denied_line (method path keyType scope key : string)
    (retryAfter : Z) (reason : string) : string :=
  ("[ratelimit] DENIED " ++ method ++ " " ++ path
   ++ " | type=" ++ keyType ++ " scope=" ++ scope
   ++ " key=" ++ key
   ++ " retryAfter=" ++ Itoa retryAfter ++ "s reason=" ++ reason)%string.

(** The double quote character. *)
Definition dq : string := String (ascii_of_nat 34) EmptyString.

(** A line feed. *)
Definition nl : string := String (ascii_of_nat 10) EmptyString.

(** The JSON encoding of the response map (keys in sorted order), with
    the line feed the encoder appends. *)
Definition json_body (retryAfter : Z) : string :=
  ("{" ++ dq ++ "error" ++ dq ++ ":" ++ dq ++ "Too Many Requests" ++ dq
   ++ "," ++ dq ++ "message" ++ dq ++ ":" ++ dq
   ++ "Rate limit exceeded. Please slow down and try again later." ++ dq
   ++ "," ++ dq ++ "retry_after" ++ dq ++ ":" ++ Itoa retryAfter ++ "}"
   ++ nl)%string.

Definition html_body (retryAfter : Z) : string :=
  ("<!DOCTYPE html>" ++ nl
   ++ "<html><head><title>429 Too Many Requests</title></head>" ++ nl
   ++ "<body>" ++ nl
   ++ "<h1>Too Many Requests</h1>" ++ nl
   ++ "<p>You have exceeded the rate limit. Please try again in "
   ++ Itoa retryAfter ++ " seconds.</p>" ++ nl
   ++ "</body></html>")%string.

Section middleware.
Context {net : Net}.
(** The state of the store and of the concurrency store. *)
Context {S CS : Type}.

Record Limiter : Type := mkLimiter {
  store : Store S;
  concurrencyStore : option (ConcurrencyStore CS);
  policy : Policy;
  keyFunc : Request -> string * string;
  (** The callback reports whether it handled the response. *)
  onLimit : option (Request -> Result -> bool);
  allowlist : list AllowRule;
  (** [logStore.Log(entry)] returns an error or nil. *)
  logStore : option (LogEntry.t -> option string)
}.

(** The global [config.RateLimit], not nil. *)
Variable cfg : RateLimitConfig.

(** [l.denyResponse(w, r, result, key, keyType, reason)], starting from
    the headers [h] and the messages [lg] already written. *)
Definition denyResponse (l : Limiter) (r : Request) (result : Result)
    (key keyType reason : string) (h : gmap string string)
    (lg : list string) : Outcome :=
  let lg := lg ++ [denied_line (Method r) (URL_Path r) keyType
                     (Scope (policy l)) (truncateKey key)
                     (RetryAfter result) reason] in
  let entry :=
    {| LogEntry.Method := Method r;
       LogEntry.Path := URL_Path r;
       LogEntry.KeyType := keyType;
       LogEntry.KeyHash := truncateKey key;
       LogEntry.Scope := Scope (policy l);
       LogEntry.RetryAfter := RetryAfter result;
       LogEntry.ClientIP := ClientIP (Some cfg) r |} in
  let '(lg, es) :=
    match logStore l with
    | Some log_entry =>
        match log_entry entry with
        | Some err =>
            (lg ++ ["[ratelimit] failed to write log entry: " ++ err]%string,
             [entry])
        | None => (lg, [entry])
        end
    | None => (lg, [])
    end in
  let handled :=
    match onLimit l with
    | Some f => f r result
    | None => false
    end in
  if handled then
    {| sent := Custom; headers := h; logged := lg; entries := es |}
  else
    let h := setRateLimitHeaders h result in
    let format :=
      if containsJSON (Header_Get r "Accept") then "json"%string
      else DefaultResponseFormat cfg in
    let h := <["Retry-After" := Itoa (RetryAfter result)]> h in
    if String.eqb format "json" then
      {| sent := TooManyRequests "application/json; charset=utf-8"
                   (json_body (RetryAfter result));
         headers := <["Content-Type" := "application/json; charset=utf-8"]> h;
         logged := lg; entries := es |}
    else
      {| sent := TooManyRequests "text/html; charset=utf-8"
                   (html_body (RetryAfter result));
         headers := <["Content-Type" := "text/html; charset=utf-8"]> h;
         logged := lg; entries := es |}.

(** The rate-limit check of the middleware and what follows it. *)
Definition rate_check (l : Limiter) (r : Request) (clk : Clock)
    (key keyType : string) (cost : Z) (lg : list string) (s : S)
    : Outcome * S :=
  let '(result, s') := Store_Allow (store l) s key (policy l) cost clk in
  let h := setRateLimitHeaders ∅ result in
  if negb (Allowed result) then
    (denyResponse l r result key keyType "rate" h lg, s')
  else
    ({| sent := Downstream; headers := h; logged := lg; entries := [] |}, s').

(** The handler [l.Middleware(next)] on one request.  The downstream
    handler leaves the limiter's stores alone. *)
Definition Middleware (l : Limiter) (r : Request) (clk : Clock)
    (st : S * CS) : Outcome * (S * CS) :=
  let '(s, cs) := st in
  let pass :=
    {| sent := Downstream; headers := ∅; logged := []; entries := [] |} in
  if negb (CfgEnabled cfg) || negb (Enabled (policy l)) then (pass, st)
  else if existsb (fun rule => Matches (Some cfg) rule r) (allowlist l)
  then (pass, st)
  else
    let '(key, keyType) := keyFunc l r in
    let cost := if Cost (policy l) <? 1 then 1 else Cost (policy l) in
    match concurrencyStore l with
    | Some c =>
        if 0 <? ConcurrencyLimit (policy l) then
          let '((ok, err), cs1) :=
            Acquire c cs key (ConcurrencyLimit (policy l)) in
          let lg :=
            match err with
            | Some e =>
                ["[ratelimit] concurrency store error key="
                 ++ truncateKey key ++ ": " ++ e]%string
            | None => []
            end in
          if negb ok then
            (denyResponse l r
               {| Allowed := false;
                  RLimit := ConcurrencyLimit (policy l);
                  Remaining := 0;
                  RetryAfter := 1;
                  ResetAt := 0 |}
               key keyType "concurrency" ∅ lg, (s, cs1))
          else
            let '(out, s') := rate_check l r clk key keyType cost lg s in
            (* the deferred release *)
            let '(rerr, cs2) := Release c cs1 key in
            let out :=
              match rerr with
              | Some e =>
                  {| sent := sent out; headers := headers out;
                     logged := logged out
                       ++ ["[ratelimit] concurrency release error key="
                           ++ truncateKey key ++ ": " ++ e]%string;
                     entries := entries out |}
              | None => out
              end in
            (out, (s', cs2))
        else
          let '(out, s') := rate_check l r clk key keyType cost [] s in
          (out, (s', cs))
    | None =>
        let '(out, s') := rate_check l r clk key keyType cost [] s in
        (out, (s', cs))
    end.

End middleware.

(** ** An implementation of the [net] interface for IPv4

    Dotted-quad addresses and their CIDR blocks; it runs the package on
    concrete requests. *)

Module IPv4.

Definition digit_val (c : ascii) : option Z :=
  let n := nat_of_ascii c in
  if (48 <=? n)%nat && (n <=? 57)%nat then Some (Z.of_nat (n - 48)) else None.

Fixpoint decimal (acc : Z) (l : list ascii) : option Z :=
  match l with
  | [] => Some acc
  | c :: l' =>
      match digit_val c with
      | Some d => decimal (acc * 10 + d) l'
      | None => None
      end
  end.

(** A decimal number of at most three digits without a leading zero,
    at most [bound]. *)
Definition number (bound : Z) (s : string) : option Z :=
  match list_ascii_of_string s with
  | [] => None
  | c :: rest =>
      if (3 <? length (c :: rest))%nat then None
      else if Ascii.eqb c "0" && negb (length rest =? 0)%nat then None
      else
        match decimal 0 (c :: rest) with
        | Some n => if n <=? bound then Some n else None
        | None => None
        end
  end.

Definition addr : Type := Z * Z * Z * Z.

Definition ParseIP (s : string) : option addr :=
  match strings.Split s "." with
  | [a; b; c; d] =>
      match number 255 a, number 255 b, number 255 c, number 255 d with
      | Some a, Some b, Some c, Some d => Some (a, b, c, d)
      | _, _, _, _ => None
      end
  | _ => None
  end.

Definition String (ip : addr) : string :=
  let '(a, b, c, d) := ip in
  (Itoa a ++ "." ++ Itoa b ++ "." ++ Itoa c ++ "." ++ Itoa d)%string.

Definition to_Z (ip : addr) : Z :=
  let '(a, b, c, d) := ip in ((a * 256 + b) * 256 + c) * 256 + d.

Definition Equal (x y : addr) : bool := to_Z x =? to_Z y.

Definition IsLoopback (ip : addr) : bool :=
  let '(a, _, _, _) := ip in a =? 127.

(** A network: an address and the length of its prefix. *)
Definition network : Type := addr * Z.

Definition ParseCIDR (s : string) : option network :=
  match strings.Split s "/" with
  | [ip; n] =>
      match ParseIP ip, number 32 n with
      | Some ip, Some n => Some (ip, n)
      | _, _ => None
      end
  | _ => None
  end.

Definition Contains (n : network) (ip : addr) : bool :=
  let '(base, len) := n in
  Z.shiftr (to_Z ip) (32 - len) =? Z.shiftr (to_Z base) (32 - len).

Fixpoint index_from (i : nat) (c : ascii) (l : list ascii) : option nat :=
  match l with
  | [] => None
  | x :: l' => if Ascii.eqb x c then Some i else index_from (Datatypes.S i) c l'
  end.

Fixpoint last_index_from (i : nat) (c : ascii) (l : list ascii) : option nat :=
  match l with
  | [] => None
  | x :: l' =>
      match last_index_from (Datatypes.S i) c l' with
      | Some j => Some j
      | None => if Ascii.eqb x c then Some i else None
      end
  end.

Definition has (c : ascii) (l : list ascii) : bool := existsb (Ascii.eqb c) l.

(** [net.SplitHostPort]: [host:port] and [[host]:port]. *)
Definition SplitHostPort (hostport : string) : option (string * string) :=
  let l := list_ascii_of_string hostport in
  match last_index_from 0 ":" l with
  | None => None
  | Some i =>
      let port := string_of_list_ascii (skipn (i + 1) l) in
      match l with
      | "["%char :: _ =>
          match index_from 0 "]" l with
          | None => None
          | Some e =>
              if (e + 1 =? i)%nat then
                if has "[" (skipn 1 l) || has "]" (skipn (e + 1) l) then None
                else Some (string_of_list_ascii (firstn (e - 1) (skipn 1 l)),
                           port)
              else None
          end
      | _ =>
          let host := firstn i l in
          if has ":" host || has "[" l || has "]" l then None
          else Some (string_of_list_ascii host, port)
      end
  end.

Definition net : Net :=
  mkNet addr network SplitHostPort ParseIP String Equal IsLoopback
    ParseCIDR Contains.

End IPv4.

(** A request with the given method, peer address, headers and form. *)
Definition request (method remote : string) (hdr form : list (string * string))
    : Request :=
  {| Method := method; URL_Path := "/login"; RemoteAddr := remote;
     Header := hdr; URL_Query := []; PostForm := form |}.

(** A configuration with the given trusted proxies. *)
Definition config_with (trusted : list string) : RateLimitConfig :=
  {| CfgEnabled := true; TrustedProxies := trusted;
     DefaultResponseFormat := "json" |}.

(** ** config/ratelimit.go: reading the trusted proxies *)

Module config.

(** The loop of [splitBy]: [cur] is [s[start:i]], [rest] is [s[i:]]. *)
Fixpoint splitBy_from (cur rest : string) (sep : ascii) : list string :=
  match rest with
  | EmptyString => [cur]
  | String c rest' =>
      if Ascii.eqb c sep then cur :: splitBy_from EmptyString rest' sep
      else splitBy_from (cur ++ String c EmptyString) rest' sep
  end.

(** [splitBy(s, sep)]. *)
Definition splitBy (s : string) (sep : ascii) : list string :=
  splitBy_from EmptyString s sep.

(** A space or a tab: what [trimSpace] removes. *)
Definition is_blank (c : ascii) : bool :=
  Ascii.eqb c " " || Ascii.eqb c (ascii_of_nat 9).

Fixpoint drop_blank (l : list ascii) : list ascii :=
  match l with
  | c :: l' => if is_blank c then drop_blank l' else l
  | [] => []
  end.

(** [trimSpace(s)]: [start] moves right over blanks, then [end] moves
    left over blanks. *)
Definition trimSpace (s : string) : string :=
  string_of_list_ascii
    (rev (drop_blank (rev (drop_blank (list_ascii_of_string s))))).

(** The loop of [splitCSV] over the parts. *)
Fixpoint keep_trimmed (parts : list string) : list string :=
  match parts with
  | [] => []
  | part :: rest =>
      let trimmed := trimSpace part in
      if negb (String.eqb trimmed EmptyString)
      then trimmed :: keep_trimmed rest
      else keep_trimmed rest
  end.

(** [splitCSV(s)]. *)
Definition splitCSV (s : string) : list string :=
  keep_trimmed (splitBy s ",").

(** [initRateLimit()], as far as the record above goes; the arguments are
    the values [GetEnv] returns for [RATE_LIMIT_ENABLED],
    [RATE_LIMIT_RESPONSE_FORMAT] and [RATE_LIMIT_TRUSTED_PROXIES]. *)
Definition initRateLimit (enabled : bool) (format proxyStr : string)
    : RateLimitConfig :=
  let proxies :=
    if negb (String.eqb proxyStr EmptyString) then splitCSV proxyStr
    else [] in
  {| CfgEnabled := enabled;
     TrustedProxies := proxies;
     DefaultResponseFormat := format |}.

End config.

(** [sep] occurs in no part. *)
Definition sep_free (sep : ascii) (parts : list string) : Prop :=
  Forall (fun part => strings.ContainsByte part sep = false) parts.

(** The characters neither begin nor end with a blank. *)
Definition blank_trimmed (s : string) : Prop :=
  let l := list_ascii_of_string s in
  match l with c :: _ => config.is_blank c = false | [] => True end
  /\ match rev l with c :: _ => config.is_blank c = false | [] => True end.

(** ** keys.go: the bearer token *)

(** [strings.EqualFold] at its one call, against [Bearer _]. *)
Definition EqualFold (a b : string) : bool := strings.EqualFoldASCII a b.

(** [extractBearerToken(r)]. *)
Definition extractBearerToken (r : Request) : string :=
  let h := Header_Get r "Authorization" in
  if String.eqb h EmptyString then EmptyString
  else if (7 <? String.length h)%nat && EqualFold (substring 0 7 h) "Bearer "
  then strings.TrimSpace (substring 7 (String.length h - 7) h)
  else EmptyString.

Definition KeyTypeToken : string := "token".
Definition KeyTypeUser : string := "user".

Section session_keys.
Context {net : Net}.
Variable cfg : option RateLimitConfig.

(** [KeyByUserElseIP()].  Packages [session] and [auth] are not among the
    sources: [user] is [Some] of the text of [uid] under [%v] when the
    context of the request holds an authenticated session with a non-nil
    [user_id], and [None] otherwise. *)
Definition KeyByUserElseIP (user : option string) (r : Request)
    : string * string :=
  match user with
  | Some uid => (("user:" ++ uid)%string, KeyTypeUser)
  | None =>
      let ip := ClientIP cfg r in
      (("ip:" ++ ip)%string, KeyTypeIP)
  end.

(** [KeyByTokenElseUserElseIP()], with [user] as above. *)
Definition KeyByTokenElseUserElseIP (user : option string) (r : Request)
    : string * string :=
  let token := extractBearerToken r in
  if negb (String.eqb token EmptyString)
  then (("token:" ++ hashValue token)%string, KeyTypeToken)
  else
    match user with
    | Some uid => (("user:" ++ uid)%string, KeyTypeUser)
    | None =>
        let ip := ClientIP cfg r in
        (("ip:" ++ ip)%string, KeyTypeIP)
    end.

End session_keys.

(** ** middleware.go: the options *)

Section options.
Context {S CS : Type}.

(** [WithOnLimit(fn)]. *)
Definition WithOnLimit (fn : Request -> Result -> bool)
    (l : Limiter (S := S) (CS := CS)) : Limiter :=
  {| store := store l; concurrencyStore := concurrencyStore l;
     policy := policy l; keyFunc := keyFunc l; onLimit := Some fn;
     allowlist := allowlist l; logStore := logStore l |}.

(** [WithConcurrency(cs)]. *)
Definition WithConcurrency (c : ConcurrencyStore CS)
    (l : Limiter (S := S) (CS := CS)) : Limiter :=
  {| store := store l; concurrencyStore := Some c;
     policy := policy l; keyFunc := keyFunc l; onLimit := onLimit l;
     allowlist := allowlist l; logStore := logStore l |}.

(** [WithAllowlist(rules...)]. *)
Definition WithAllowlist (rules : list AllowRule)
    (l : Limiter (S := S) (CS := CS)) : Limiter :=
  {| store := store l; concurrencyStore := concurrencyStore l;
     policy := policy l; keyFunc := keyFunc l; onLimit := onLimit l;
     allowlist := rules; logStore := logStore l |}.

(** [WithLogStore(ls)]. *)
Definition WithLogStore (ls : LogEntry.t -> option string)
    (l : Limiter (S := S) (CS := CS)) : Limiter :=
  {| store := store l; concurrencyStore := concurrencyStore l;
     policy := policy l; keyFunc := keyFunc l; onLimit := onLimit l;
     allowlist := allowlist l; logStore := Some ls |}.

(** [NewLimiter(store, policy, keyFunc, opts...)]. *)
Definition NewLimiter (st : Store S) (p : Policy)
    (kf : Request -> string * string)
    (opts : list (Limiter (S := S) (CS := CS) -> Limiter)) : Limiter :=
  fold_left (fun l o => o l) opts
    {| store := st; concurrencyStore := None; policy := p; keyFunc := kf;
       onLimit := None; allowlist := []; logStore := None |}.

(** The options the package offers. *)
Inductive is_option : (Limiter (S := S) (CS := CS) -> Limiter) -> Prop :=
| opt_on_limit fn : is_option (WithOnLimit fn)
| opt_concurrency c : is_option (WithConcurrency c)
| opt_allowlist rules : is_option (WithAllowlist rules)
| opt_log_store ls : is_option (WithLogStore ls).

End options.

(** ** log.go: the log stores *)

(** [DBLogStore.Log(entry)]: [db] tells whether the store has a database;
    [exec] is the result of the insert. *)
Definition DBLogStore_Log (db : option (LogEntry.t -> option string))
    (entry : LogEntry.t) : option string :=
  match db with
  | None => Some "database not available"%string
  | Some exec => exec entry
  end.

(** [NopLogStore.Log(entry)]. *)
Definition NopLogStore_Log (entry : LogEntry.t) : option string := None.

(** ** Runs of the stores *)



(** Operations on a concurrency store, all with one limit. *)
Inductive ConcOp : Type :=
| CAcquire (key : string)
| CRelease (key : string).

Definition conc_step (limit : Z) (m : gmap string Z) (op : ConcOp)
    : gmap string Z :=
  match op with
  | CAcquire key => snd (MemoryConcurrencyStore_Acquire m key limit)
  | CRelease key => snd (MemoryConcurrencyStore_Release m key)
  end.

Definition conc_run (limit : Z) (m : gmap string Z) (ops : list ConcOp)
    : gmap string Z :=
  fold_left (conc_step limit) ops m.

(** Every stored count is positive. *)
Definition counts_positive (m : gmap string Z) : Prop :=
  forall key n, m !! key = Some n -> 0 < n.

(** Every stored count lies between 1 and [limit]. *)
Definition counts_within (limit : Z) (m : gmap string Z) : Prop :=
  forall key n, m !! key = Some n -> 1 <= n <= limit.

(** Operations on the Redis concurrency store; the server may go down
    and come back between them. *)
Inductive RedisConcOp : Type :=
| RAcquire (key : string)
| RRelease (key : string)
| RFault (err : option string).

Definition redis_conc_step (prefix : string) (ttl limit : Z)
    (srv : RedisCounters) (op : RedisConcOp) : RedisCounters :=
  match op with
  | RAcquire key =>
      snd (RedisConcurrencyStore_Acquire prefix ttl srv key limit)
  | RRelease key => snd (RedisConcurrencyStore_Release prefix srv key)
  | RFault err => {| counters := counters srv; cfault := err |}
  end.

(** Every stored Redis counter lies between 1 and [limit]. *)
Definition redis_counts_within (limit : Z) (srv : RedisCounters) : Prop :=
  forall key n ttl, counters srv !! key = Some (n, ttl) -> 1 <= n <= limit.

(** Operations on the Redis store, all under one policy. *)
Inductive RedisOp : Type :=
| RdAllow (key : string) (cost now : Z)
| RdReset (key : string)
| RdFault (err : option string).

Definition redis_step (prefix : string) (p : Policy) (srv : RedisServer)
    (op : RedisOp) : RedisServer :=
  match op with
  | RdAllow key cost now => snd (RedisStore_Allow prefix srv key p cost now)
  | RdReset key => RedisStore_Reset prefix srv key
  | RdFault err => {| keyspace := keyspace srv; fault := err |}
  end.

(** Every stored hash holds between zero and [limit + burst] tokens. *)
Definition redis_ok (p : Policy) (srv : RedisServer) : Prop :=
  forall key h, keyspace srv !! key = Some h ->
    (0 <= h_tokens h)%Q /\ (h_tokens h <= inject_Z (max_tokens p))%Q.

(** An entry the walk over [X-Forwarded-For] passes over: empty, or a
    trusted address. *)
Definition skipped {net : Net} (trusted : list string) (part : string)
    : Prop :=
  strings.TrimSpace part = EmptyString
  \/ isTrusted (strings.TrimSpace part) trusted = true.

(** A lower-case hexadecimal digit. *)
Definition is_hex (c : ascii) : Prop :=
  In c (list_ascii_of_string "0123456789abcdef").

(** [sub] occurs in [s]. *)
Definition occurs (sub s : string) : Prop :=
  exists pre post : string, s = (pre ++ sub ++ post)%string.

(** ** middleware/notfound.go: the 404 page *)

(** What a response writer is asked to do. *)
Inductive WriterOp : Type :=
| WSetHeader (name value : string)
| WWriteHeader (status : Z)
| WWrite (body : string)
| WRender (template : string).

(** [responseWriter404]: the calls passed on to the wrapped writer, in
    order, and the recorded status. *)
Record responseWriter404 : Type := mkWriter404 {
  passed : list WriterOp;
  status : Z
}.

(** [w.WriteHeader(status)]. *)
Definition rw_WriteHeader (w : responseWriter404) (st : Z)
    : responseWriter404 :=
  {| passed := if negb (st =? 404) then passed w ++ [WWriteHeader st]
               else passed w;
     status := st |}.

(** [w.Write(b)]. *)
Definition rw_Write (w : responseWriter404) (b : string)
    : responseWriter404 :=
  if status w =? 404 then w
  else {| passed := passed w ++ [WWrite b]; status := status w |}.

(** One call of the downstream handler on the wrapper; calls other than
    the two overridden methods go to the embedded writer. *)
Definition rw_call (w : responseWriter404) (op : WriterOp)
    : responseWriter404 :=
  match op with
  | WWriteHeader st => rw_WriteHeader w st
  | WWrite b => rw_Write w b
  | other => {| passed := passed w ++ [other]; status := status w |}
  end.

(** The handler [NotFound(templateName)(next)]: what the writer [w]
    receives when [next] makes the calls [calls]. *)
Definition NotFound (templateName : string) (calls : list WriterOp)
    : list WriterOp :=
  let rw := fold_left rw_call calls {| passed := []; status := 0 |} in
  if status rw =? 404 then
    passed rw ++ [WSetHeader "Content-Type" "text/html; charset=utf-8";
                  WWriteHeader 404; WRender templateName]
  else passed rw.

(** The call sets the status to 404. *)
Definition sets_404 (op : WriterOp) : bool :=
  match op with
  | WWriteHeader st => st =? 404
  | _ => false
  end.

(** The call writes a body. *)
Definition is_write (op : WriterOp) : bool :=
  match op with
  | WWrite _ => true
  | _ => false
  end.

(** ** Invariants *)

(** A bucket governed by policy [p]: its capacity and rate are the
    policy's and its tokens lie between zero and the capacity. *)
Definition bucket_ok (p : Policy) (b : Bucket) : Prop :=
  (0 <= Tokens b)%Q /\ (Tokens b <= MaxTokens b)%Q
  /\ (MaxTokens b == inject_Z (max_tokens p))%Q
  /\ (RefillRate b == refill_rate p)%Q.

(** A memory store all of whose buckets are governed by [p]. *)
Definition store_ok (p : Policy) (s : MemoryStore) : Prop :=
  forall key e, s !! key = Some e -> bucket_ok p (bucket e).

(** The denial bound of the specification: [ceil(cost / refill_rate)]. *)
Definition retry_bound (p : Policy) (cost : Z) : Z :=
  Qceiling (inject_Z cost / refill_rate p).

(** The string of [n] letters [a]. *)
Fixpoint letters (n : nat) : string :=
  match n with
  | O => EmptyString
  | Datatypes.S n' => String.String "a" (letters n')
  end.

(** A policy of ten requests a day. *)
Definition ten_a_day : Policy :=
  {| Limit := 10; Window := 86400 * Num.Second; Burst := 0;
     Scope := "password_reset"; Enabled := true; Cost := 1;
     ConcurrencyLimit := 0 |}.

(** A policy of eight tokens a minute for requests that cost five. *)
Definition eight_a_minute : Policy :=
  {| Limit := 8; Window := 60 * Num.Second; Burst := 0;
     Scope := "exports"; Enabled := true; Cost := 5;
     ConcurrencyLimit := 0 |}.

(** Some instant: 1700000000 seconds after the epoch. *)
Definition some_instant : Z := 1700000000 * Num.Second.

(** The result of the last of the given calls. *)
Definition last_result (rs : list Result) : Result :=
  List.last rs {| Allowed := true; RLimit := 0; Remaining := 0;
                  RetryAfter := 0; ResetAt := 0 |}.

(** The request is subject to the limiter: the limiter is switched on,
    globally and in the policy, and no allowlist rule matches. *)
Definition limited {net : Net} {S CS : Type} (cfg : RateLimitConfig)
    (l : Limiter (S := S) (CS := CS)) (r : Request) : bool :=
  CfgEnabled cfg && Enabled (policy l)
  && negb (existsb (fun rule => Matches (Some cfg) rule r) (allowlist l)).

(** The cost the middleware charges: [policy.Cost], at least 1. *)
Definition charged (p : Policy) : Z := if Cost p <? 1 then 1 else Cost p.

(** The result the Redis store makes up when the server fails. *)
Definition fail_open (p : Policy) : Result :=
  {| Allowed := true;
     RLimit := Limit p + Burst p;
     Remaining := Limit p + Burst p;
     RetryAfter := 0;
     ResetAt := 0 |}.

(** The result the middleware makes up for a refused concurrency slot. *)
Definition concurrency_denial (p : Policy) : Result :=
  {| Allowed := false;
     RLimit := ConcurrencyLimit p;
     Remaining := 0;
     RetryAfter := 1;
     ResetAt := 0 |}.

(** A Redis server that cannot be reached. *)
Definition redis_down : RedisServer :=
  {| keyspace := ∅; fault := Some "dial tcp 127.0.0.1:6379: connection refused"%string |}.


(** A limiter keyed by client IP over the given stores, with the log
    store that accepts everything. *)
Definition limiter_by_ip {S CS : Type} (st : Store S)
    (c : option (ConcurrencyStore CS)) (p : Policy) (cfg : RateLimitConfig)
    : Limiter (S := S) (CS := CS) :=
  {| store := st; concurrencyStore := c; policy := p;
     keyFunc := KeyByIP (net := IPv4.net) (Some cfg);
     onLimit := None; allowlist := [];
     logStore := Some (fun _ => None) |}.

(** No white space at the head of the characters, read with the given
    tests. *)
Definition no_lead (p1 : ascii -> bool) (p2 : ascii -> ascii -> bool)
    (p3 : ascii -> ascii -> ascii -> bool) (l : list ascii) : Prop :=
  strings.leads p1 p2 p3 l = false.

(** A key of more than 40 bytes. *)
Definition long_key : string := "iproute:203.0.113.9:/api/v1/reports/export".

(** The 16 hex characters of two 32-bit words. *)
Definition fingerprint (a b : Z) : string :=
  string_of_list_ascii
    (hex.Encode (sha256.word_bytes a ++ sha256.word_bytes b)).

(** A 32-bit word. *)
Definition word32 (w : Z) : Prop := 0 <= w < 2^32.

(** A POST from peer 10.0.0.5 whose form carries the given email. *)
Definition login_post (email : string) : Request :=
  request "POST" "10.0.0.5:52044" [] [("email"%string, email)].

(** The policy of the package's own tests: [limit] a minute, no burst. *)
Definition per_minute (limit : Z) : Policy :=
  {| Limit := limit; Window := 60 * Num.Second; Burst := 0;
     Scope := "test"; Enabled := true; Cost := 1; ConcurrencyLimit := 0 |}.

(** [unicode.ToLower] on the Basic Latin and Latin-1 Supplement blocks,
    to run the examples; the other code points are left as they are. *)
Module Latin1.

Definition ToLower (r : Z) : Z :=
  if ((65 <=? r) && (r <=? 90))
     || ((192 <=? r) && (r <=? 222) && negb (r =? 215))
  then r + 32 else r.

Definition unicode : Unicode := mkUnicode ToLower.

End Latin1.

(** The IPv4 implementation of the [net] interface with the IPv4-mapped
    literals [::ffff:a.b.c.d] added: [net.ParseIP] reads them as the
    address a.b.c.d, which prints in dotted form. *)
Module Mapped.

Definition ParseIP (s : string) : option IPv4.addr :=
  if String.prefix "::ffff:" s
  then IPv4.ParseIP (substring 7 (String.length s - 7) s)
  else IPv4.ParseIP s.

Definition net : Net :=
  mkNet IPv4.addr IPv4.network IPv4.SplitHostPort ParseIP IPv4.String
    IPv4.Equal IPv4.IsLoopback IPv4.ParseCIDR IPv4.Contains.

End Mapped.



(** The default 429 of [denyResponse]: JSON when the [Accept] header
    asks for it or the configured format is [json], HTML otherwise. *)
Definition default_429 (cfg : RateLimitConfig) (r : Request)
    (retryAfter : Z) : Sent :=
  if containsJSON (Header_Get r "Accept")
     || String.eqb (DefaultResponseFormat cfg) "json"
  then TooManyRequests "application/json; charset=utf-8"
         (json_body retryAfter)
  else TooManyRequests "text/html; charset=utf-8" (html_body retryAfter).

(** The message logged when the deferred [Release] fails. *)
Definition release_error_line (key err : string) : string :=
  ("[ratelimit] concurrency release error key="
   ++ truncateKey key ++ ": " ++ err)%string.

(** * Properties *)

(** ** The package's tests and the scenarios of the specification *)

(** Scenario 1: three requests a minute; five requests in a row. *)
Example basic_admit_then_deny :
  let rs := store_allow_n ∅ "ip:1.2.3.4" (per_minute 3) some_instant 5 in
  map Allowed rs = [true; true; true; false; false]
  /\ map Remaining rs = [2; 1; 0; 0; 0]
  /\ map RetryAfter rs = [0; 0; 0; 20; 20].
Proof. vm_compute. repeat split; reflexivity. Qed.

(** [TestBucket_RefillAfterTime]: ten a second; after ten admissions and
    a denial, one second later the bucket admits again. *)
Example refill_after_a_second :
  let p := {| Limit := 10; Window := Num.Second; Burst := 0;
              Scope := "test"; Enabled := true; Cost := 1;
              ConcurrencyLimit := 0 |} in
  let b := bucket_run (NewBucket p 0) (repeat (OpAllow 1 0) 10) in
  snd (fst (Bucket_Allow b 1 0)) = false
  /\ snd (fst (Bucket_Allow b 1 Num.Second)) = true.
Proof. vm_compute. split; reflexivity. Qed.

(** [TestBucket_RetryAfter]: ten in ten seconds, exhausted: one second. *)
Example retry_after_exhausted :
  let p := {| Limit := 10; Window := 10 * Num.Second; Burst := 0;
              Scope := "test"; Enabled := true; Cost := 1;
              ConcurrencyLimit := 0 |} in
  let b := bucket_run (NewBucket p 0) (repeat (OpAllow 1 0) 10) in
  (Bucket_RetryAfter b 1 == 1)%Q.
Proof. vm_compute. reflexivity. Qed.

(** [TestMemoryStore_Headers]: limit 10, burst 5. *)
Example memory_store_headers :
  let p := {| Limit := 10; Window := 60 * Num.Second; Burst := 5;
              Scope := "test"; Enabled := true; Cost := 1;
              ConcurrencyLimit := 0 |} in
  let r := fst (MemoryStore_Allow ∅ "header-key" p 1 (frozen some_instant)) in
  Allowed r = true /\ RLimit r = 15 /\ Remaining r = 14 /\ 0 < ResetAt r.
Proof. vm_compute. repeat split; reflexivity. Qed.

(** [TestMemoryConcurrencyStore]: two slots. *)
Example memory_concurrency_store :
  let '(a1, m1) := MemoryConcurrencyStore_Acquire ∅ "k1" 2 in
  let '(a2, m2) := MemoryConcurrencyStore_Acquire m1 "k1" 2 in
  let '(a3, m3) := MemoryConcurrencyStore_Acquire m2 "k1" 2 in
  let '(_, m4) := MemoryConcurrencyStore_Release m3 "k1" in
  let '(a5, _) := MemoryConcurrencyStore_Acquire m4 "k1" 2 in
  (fst a1, fst a2, fst a3, fst a5) = (true, true, false, true).
Proof. vm_compute. reflexivity. Qed.

(** Scenario 7: one slot, taken; the next request for the key gets the
    429 with [Retry-After: 1] while the bucket is full. *)
Example concurrency_cap :
  let cfg := config_with [] in
  let l := limiter_by_ip MemoryStore_Store (Some MemoryConcurrencyStore)
             ExportsPolicy cfg in
  let r := request "GET" "203.0.113.9:4711" [] [] in
  let out := fst (Middleware (net := IPv4.net) cfg l r (frozen some_instant)
                    (∅, {[ "ip:203.0.113.9"%string := 1 ]})) in
  sent out = TooManyRequests "application/json; charset=utf-8" (json_body 1)
  /\ headers out !! "Retry-After"%string = Some "1"%string.
Proof. vm_compute. split; reflexivity. Qed.

(** [TestMiddleware_DeniesAfterLimit]: the fourth request of a minute. *)
Example middleware_denies_after_limit :
  let cfg := config_with [] in
  let l := limiter_by_ip (CS := unit) MemoryStore_Store None
             (per_minute 3) cfg in
  let r := request "GET" "1.2.3.4:1234" [] [] in
  let step st := snd (Middleware (net := IPv4.net) cfg l r
                        (frozen some_instant) st) in
  let out := fst (Middleware (net := IPv4.net) cfg l r (frozen some_instant)
                    (step (step (step (∅, tt))))) in
  sent out = TooManyRequests "application/json; charset=utf-8" (json_body 20)
  /\ headers out !! "Retry-After"%string = Some "20"%string
  /\ headers out !! "X-RateLimit-Remaining"%string = Some "0"%string.
Proof. vm_compute. repeat split; reflexivity. Qed.


Example ClientIP_direct :
  ClientIP (net := IPv4.net) None
    (request "GET" "192.168.1.100:12345" [] []) = "192.168.1.100"%string.
Proof. vm_compute. reflexivity. Qed.

Example ClientIP_trusted_proxy :
  ClientIP (net := IPv4.net) (Some (config_with ["10.0.0.0/8"%string]))
    (request "GET" "10.0.0.7:4711"
       [("X-Forwarded-For", "203.0.113.9, 10.0.0.2")%string] [])
  = "203.0.113.9"%string.
Proof. vm_compute. reflexivity. Qed.

Example ClientIP_no_proxy_configured :
  ClientIP (net := IPv4.net) (Some (config_with []))
    (request "GET" "10.0.0.7:4711"
       [("X-Forwarded-For", "203.0.113.9, 10.0.0.2")%string] [])
  = "10.0.0.7"%string.
Proof. vm_compute. reflexivity. Qed.

Example hashValue_abc : hashValue "abc" = "ba7816bf8f01cfea"%string.
Proof. vm_compute. reflexivity. Qed.

(** ** Arithmetic of the numeric helpers *)

Lemma Qle_bool_false (x y : Q) : Qle_bool x y = false <-> (y < x)%Q.
Proof.
  split; intros H.
  - apply Qnot_le_lt. intros Hle. apply Qle_bool_iff in Hle. congruence.
  - destruct (Qle_bool x y) eqn:E; [|reflexivity].
    apply Qle_bool_iff in E. exfalso. apply (Qlt_not_le _ _ H E).
Qed.

(** Case analysis on the comparison a branch of the code tests. *)
Ltac qcases x y H :=
  destruct (Qle_bool x y) eqn:H;
  [apply Qle_bool_iff in H | apply Qle_bool_false in H].

Lemma Seconds_pos (d : Z) : 0 < d -> (0 < Num.Seconds d)%Q.
Proof.
  intros H. unfold Num.Seconds, Num.float64, Num.Second.
  apply Qlt_shift_div_l; [reflexivity|].
  rewrite Qmult_0_l. rewrite Zlt_Qlt in H. exact H.
Qed.

Lemma Seconds_nonpos (d : Z) : d <= 0 -> (Num.Seconds d <= 0)%Q.
Proof.
  intros H. unfold Num.Seconds, Num.float64, Num.Second.
  apply Qle_shift_div_r; [reflexivity|].
  rewrite Qmult_0_l. rewrite Zle_Qle in H. exact H.
Qed.

Lemma Seconds_pos_inv (d : Z) : (0 < Num.Seconds d)%Q -> 0 < d.
Proof.
  intros H. destruct (Z_lt_le_dec 0 d) as [Hd|Hd]; [exact Hd|].
  apply Seconds_nonpos in Hd. exfalso. apply (Qlt_not_le _ _ H Hd).
Qed.

Lemma int_of_float_nonneg (x : Q) :
  (0 <= x)%Q -> Num.int_of_float x = Qfloor x.
Proof.
  intros H. unfold Num.int_of_float.
  apply Qle_bool_iff in H. now rewrite H.
Qed.

Lemma refill_rate_pos (p : Policy) : valid_policy p -> (0 < refill_rate p)%Q.
Proof.
  intros [Hl Hw _]. unfold refill_rate.
  apply Qlt_shift_div_l; [now apply Seconds_pos|].
  rewrite Qmult_0_l. unfold Num.float64. rewrite Zlt_Qlt in Hl. exact Hl.
Qed.

Lemma max_tokens_pos (p : Policy) : valid_policy p -> 0 < max_tokens p.
Proof. intros [Hl _ Hb]. unfold max_tokens. lia. Qed.

(** ** The bucket *)

Section bucket_facts.

Lemma refill_noop (b : Bucket) (now : Z) :
  now <= LastRefill b -> Bucket_refill b now = b.
Proof.
  intros H. unfold Bucket_refill.
  assert (Hs : (Num.Seconds (now - LastRefill b) <= 0)%Q)
    by (apply Seconds_nonpos; lia).
  apply Qle_bool_iff in Hs. now rewrite Hs.
Qed.

Lemma refill_LastRefill (b : Bucket) (now : Z) :
  LastRefill b <= LastRefill (Bucket_refill b now).
Proof.
  unfold Bucket_refill.
  qcases (Num.Seconds (now - LastRefill b)) 0%Q H; simpl; [lia|].
  apply Seconds_pos_inv in H. lia.
Qed.

Lemma refill_ok (p : Policy) (b : Bucket) (now : Z) :
  valid_policy p -> bucket_ok p b -> bucket_ok p (Bucket_refill b now).
Proof.
  intros Hp (H0 & Hmax & HM & HR). unfold Bucket_refill.
  qcases (Num.Seconds (now - LastRefill b)) 0%Q H;
    [repeat split; assumption|].
  pose proof (refill_rate_pos p Hp) as Hr. rewrite <- HR in Hr.
  repeat split; simpl; try assumption.
  - apply Q.min_glb; [lra|]. nra.
  - apply Q.le_min_l.
Qed.

Lemma Allow_LastRefill (b : Bucket) (cost now : Z) :
  LastRefill b <= LastRefill (snd (Bucket_Allow b cost now)).
Proof.
  unfold Bucket_Allow.
  destruct (Qle_bool _ _); simpl; apply refill_LastRefill.
Qed.

Lemma Allow_ok (p : Policy) (b : Bucket) (cost now : Z) :
  valid_policy p -> 0 <= cost -> bucket_ok p b ->
  bucket_ok p (snd (Bucket_Allow b cost now)).
Proof.
  intros Hp Hc Hb.
  destruct (refill_ok p b now Hp Hb) as (H0 & Hmax & HM & HR).
  unfold Bucket_Allow.
  qcases (Num.float64 cost) (Tokens (Bucket_refill b now)) H; simpl;
    [|repeat split; assumption].
  assert (Hc' : (0 <= Num.float64 cost)%Q)
    by (unfold Num.float64; rewrite Zle_Qle in Hc; exact Hc).
  repeat split; simpl; try assumption; lra.
Qed.

Lemma NewBucket_ok (p : Policy) (t : Z) :
  valid_policy p -> bucket_ok p (NewBucket p t).
Proof.
  intros Hp. pose proof (max_tokens_pos p Hp) as Hm.
  unfold bucket_ok, NewBucket, max_tokens, refill_rate, Num.float64 in *.
  simpl. repeat split; try reflexivity; try apply Qle_refl.
  rewrite Zlt_Qlt in Hm. apply Qlt_le_weak. exact Hm.
Qed.

Lemma step_ok (p : Policy) (b : Bucket) (op : BucketOp) :
  valid_policy p -> 0 <= op_cost op -> bucket_ok p b ->
  bucket_ok p (bucket_step b op).
Proof.
  intros Hp Hc Hb. destruct op as [now|cost now]; simpl.
  - now apply refill_ok.
  - now apply Allow_ok.
Qed.

Lemma step_LastRefill (b : Bucket) (op : BucketOp) :
  LastRefill b <= LastRefill (bucket_step b op).
Proof.
  destruct op as [now|cost now]; simpl.
  - apply refill_LastRefill.
  - apply Allow_LastRefill.
Qed.

Lemma run_ok (p : Policy) (ops : list BucketOp) (b : Bucket) :
  valid_policy p -> Forall (fun op => 0 <= op_cost op) ops ->
  bucket_ok p b -> bucket_ok p (bucket_run b ops).
Proof.
  intros Hp. revert b. induction ops as [|op ops IH]; intros b Hall Hb.
  - exact Hb.
  - inversion Hall; subst. simpl. apply IH; [assumption|].
    now apply step_ok.
Qed.

Lemma run_LastRefill (ops : list BucketOp) (b : Bucket) :
  LastRefill b <= LastRefill (bucket_run b ops).
Proof.
  revert b. induction ops as [|op ops IH]; intros b; simpl; [lia|].
  etransitivity; [apply (step_LastRefill b op)|apply IH].
Qed.

End bucket_facts.

(** C4.  A bucket made from a valid policy and driven through any run of
    refills and admissions of non-negative cost, at arbitrary instants:
    after the run its tokens lie in [[0, limit + burst]], and its last
    refill instant is no earlier than at any earlier point of the run. *)
Theorem bucket_tokens_bounded_refill_monotone
    (p : Policy) (t0 : Z) (ops1 ops2 : list BucketOp) :
  valid_policy p ->
  Forall (fun op => 0 <= op_cost op) (ops1 ++ ops2) ->
  let b1 := bucket_run (NewBucket p t0) ops1 in
  let b2 := bucket_run b1 ops2 in
  (0 <= Tokens b2)%Q /\ (Tokens b2 <= inject_Z (max_tokens p))%Q
  /\ (Tokens b2 <= MaxTokens b2)%Q
  /\ LastRefill b1 <= LastRefill b2.
Proof.
  intros Hp Hall b1 b2.
  assert (Hok : bucket_ok p b2).
  { unfold b2, b1, bucket_run. rewrite <- fold_left_app.
    apply run_ok; [assumption..|]. now apply NewBucket_ok. }
  destruct Hok as (H0 & Hmax & HM & _).
  repeat split; try assumption.
  - rewrite <- HM. exact Hmax.
  - apply run_LastRefill.
Qed.

(** A bucket of capacity 8 driven back and forth in time. *)
Lemma bucket_tokens_bounded_refill_monotone_witness :
  let p := {| Limit := 5; Window := 60 * Num.Second; Burst := 3;
              Scope := "test"; Enabled := true; Cost := 1;
              ConcurrencyLimit := 0 |} in
  let ops1 := [OpAllow 1 (7 * Num.Second); OpAllow 4 (3 * Num.Second)] in
  let ops2 := [OpRefill (90 * Num.Second); OpAllow 2 (20 * Num.Second)] in
  let b1 := bucket_run (NewBucket p 0) ops1 in
  let b2 := bucket_run b1 ops2 in
  (0 <= Tokens b2)%Q /\ (Tokens b2 <= inject_Z 8)%Q
  /\ (Tokens b2 <= MaxTokens b2)%Q
  /\ LastRefill b1 <= LastRefill b2.
Proof.
  intros p ops1 ops2.
  apply (bucket_tokens_bounded_refill_monotone p 0 ops1 ops2).
  - split; [reflexivity | reflexivity | discriminate].
  - repeat constructor; discriminate.
Defined.

(** ** Admissions at one instant *)

Section same_instant.

Lemma Allow_same_instant (b : Bucket) (cost now : Z) :
  now <= LastRefill b ->
  Bucket_Allow b cost now =
    if Qle_bool (Num.float64 cost) (Tokens b) then
      let b2 := {| Tokens := (Tokens b - Num.float64 cost)%Q;
                   MaxTokens := MaxTokens b;
                   RefillRate := RefillRate b;
                   LastRefill := LastRefill b |} in
      ((Num.int_of_float (Tokens b2), true), b2)
    else ((0, false), b).
Proof.
  intros H. unfold Bucket_Allow. now rewrite (refill_noop b now H).
Qed.

(** With [m] whole tokens and no refill, the next [n] unit-cost calls
    admit the first [m] and deny the rest. *)
Lemma allow_n_exact (n : nat) : forall (b : Bucket) (m : Z) (t : Z),
  t <= LastRefill b -> (Tokens b == inject_Z m)%Q -> 0 <= m ->
  allow_n b t n =
    repeat true (min n (Z.to_nat m)) ++ repeat false (n - Z.to_nat m).
Proof.
  induction n as [|n IH]; intros b m t Ht Hm Hpos; [reflexivity|].
  simpl allow_n. rewrite (Allow_same_instant b 1 t Ht).
  qcases (Num.float64 1) (Tokens b) H.
  - (* admitted: one token less *)
    assert (H1 : 1 <= m).
    { rewrite Hm in H. unfold Num.float64 in H.
      rewrite <- Zle_Qle in H. exact H. }
    cbv beta iota zeta.
    rewrite (IH _ (m - 1) t); simpl; [|exact Ht| |lia].
    + replace (Z.to_nat m) with (Datatypes.S (Z.to_nat (m - 1))) by lia.
      reflexivity.
    + rewrite Hm. unfold Num.float64, Qminus.
      rewrite <- inject_Z_opp, <- inject_Z_plus. reflexivity.
  - (* denied: the bucket is empty and stays so *)
    assert (H0 : m = 0).
    { rewrite Hm in H. unfold Num.float64 in H.
      rewrite <- Zlt_Qlt in H. lia. }
    subst m. cbv beta iota zeta. rewrite (IH b 0 t Ht Hm Hpos). simpl.
    rewrite Nat.min_0_r, Nat.sub_0_r. reflexivity.
Qed.

Lemma store_allow_n_known (n : nat) :
  forall (s : MemoryStore) (key : string) (p : Policy) (t : Z) (e : memEntry),
  s !! key = Some e ->
  map Allowed (store_allow_n s key p t n) = allow_n (bucket e) t n.
Proof.
  induction n as [|n IH]; intros s key p t e He; [reflexivity|].
  cbn [store_allow_n allow_n]. unfold MemoryStore_Allow.
  rewrite He. cbn [at_call frozen].
  destruct (Bucket_Allow (bucket e) 1 t) as [[rem al] b'] eqn:Hb.
  cbn [map Allowed]. f_equal.
  rewrite (IH _ key p t {| bucket := b'; expiresAt := t + Window p * 2 |});
    [reflexivity|]. apply lookup_insert_eq.
Qed.

Lemma store_allow_n_fresh (n : nat) (s : MemoryStore) (key : string)
    (p : Policy) (t : Z) :
  s !! key = None ->
  map Allowed (store_allow_n s key p t n) = allow_n (NewBucket p t) t n.
Proof.
  intros He. destruct n as [|n]; [reflexivity|].
  cbn [store_allow_n allow_n]. unfold MemoryStore_Allow.
  rewrite He. cbn [at_call at_new frozen bucket].
  destruct (Bucket_Allow (NewBucket p t) 1 t) as [[rem al] b'] eqn:Hb.
  cbn [map Allowed]. f_equal.
  rewrite (store_allow_n_known n _ key p t
             {| bucket := b'; expiresAt := t + Window p * 2 |});
    [reflexivity|]. apply lookup_insert_eq.
Qed.

End same_instant.

(** C1.  Under a policy with positive limit and non-negative burst, a new
    bucket answers [n] unit-cost admissions at the instant of its creation
    with allowed for the first [limit + burst] calls and denied for all
    later ones; so does the memory store for a key it has not seen. *)
Theorem fresh_bucket_admits_exactly_capacity
    (p : Policy) (t : Z) (n : nat) (s : MemoryStore) (key : string) :
  0 < Limit p -> 0 <= Burst p -> s !! key = None ->
  let cap := Z.to_nat (Limit p + Burst p) in
  allow_n (NewBucket p t) t n
    = repeat true (min n cap) ++ repeat false (n - cap)
  /\ map Allowed (store_allow_n s key p t n)
    = repeat true (min n cap) ++ repeat false (n - cap).
Proof.
  intros Hl Hb He cap.
  assert (H : allow_n (NewBucket p t) t n
              = repeat true (min n cap) ++ repeat false (n - cap)).
  { apply allow_n_exact; simpl; [lia|reflexivity|lia]. }
  split; [exact H|].
  rewrite store_allow_n_fresh by exact He. exact H.
Qed.

(** Scenario 2 of the specification: limit 5, burst 3; eight requests at
    one instant are admitted and the following ones are denied. *)
Lemma fresh_bucket_admits_exactly_capacity_witness :
  let p := {| Limit := 5; Window := 60 * Num.Second; Burst := 3;
              Scope := "test"; Enabled := true; Cost := 1;
              ConcurrencyLimit := 0 |} in
  allow_n (NewBucket p 0) 0 10
    = repeat true 8 ++ repeat false 2
  /\ map Allowed (store_allow_n ∅ "ip:1.2.3.4" p 0 10)
    = repeat true 8 ++ repeat false 2.
Proof.
  intros p.
  apply (fresh_bucket_admits_exactly_capacity p 0 10 ∅ "ip:1.2.3.4");
    [reflexivity | discriminate | reflexivity].
Defined.

(** ** The memory store *)

Section memory_store_facts.
Variable p : Policy.
Hypothesis Hp : valid_policy p.

(** The entry [MemoryStore.Allow] works on: the stored one, or a new one. *)
Lemma MemoryStore_Allow_unfold (s : MemoryStore) (key : string)
    (cost : Z) (clk : Clock) :
  exists b : Bucket,
    (match s !! key with
     | Some e => b = bucket e
     | None => b = NewBucket p (at_new clk)
     end)
    /\ let ba := Bucket_Allow b cost (at_call clk) in
       let r := fst (MemoryStore_Allow s key p cost clk) in
       Allowed r = snd (fst ba)
       /\ Remaining r = fst (fst ba)
       /\ RLimit r = Limit p + Burst p
       /\ RetryAfter r =
            (if snd (fst ba) then 0
             else
               let x := Num.int_of_float (Bucket_RetryAfter (snd ba) cost) in
               if x <? 1 then 1 else x)
       /\ snd (MemoryStore_Allow s key p cost clk)
          = <[key := {| bucket := snd ba;
                        expiresAt := at_call clk + Window p * 2 |}]> s.
Proof.
  unfold MemoryStore_Allow.
  destruct (s !! key) as [e|]; eexists; (split; [reflexivity|]);
    cbn [bucket];
    match goal with
    | |- context [Bucket_Allow ?b cost (at_call clk)] =>
        destruct (Bucket_Allow b cost (at_call clk)) as [[rem al] b']
    end; cbn; repeat split; reflexivity.
Qed.

Lemma store_ok_empty : store_ok p ∅.
Proof. intros key e H. rewrite lookup_empty in H. discriminate. Qed.

Lemma store_ok_Allow (s : MemoryStore) (key : string) (cost : Z)
    (clk : Clock) :
  0 <= cost -> store_ok p s ->
  store_ok p (snd (MemoryStore_Allow s key p cost clk)).
Proof.
  intros Hc Hs.
  destruct (MemoryStore_Allow_unfold s key cost clk)
    as (b & Hb & _ & _ & _ & _ & Hs').
  rewrite Hs'. intros k e. rewrite lookup_insert.
  destruct (decide (key = k)) as [->|Hne].
  - intros [= <-]. cbn [bucket]. apply Allow_ok; [exact Hp|exact Hc|].
    destruct (s !! k) as [e0|] eqn:E; subst b.
    + exact (Hs k e0 E).
    + apply NewBucket_ok, Hp.
  - apply Hs.
Qed.

Lemma store_ok_step (s : MemoryStore) (op : StoreOp) :
  (match op with SAllow _ cost _ => 0 <= cost | _ => True end) ->
  store_ok p s -> store_ok p (store_step p s op).
Proof.
  intros Hc Hs. destruct op as [key cost clk|key|now]; simpl.
  - now apply store_ok_Allow.
  - intros k e H. unfold MemoryStore_Reset in H.
    apply lookup_delete_Some in H. apply (Hs k e), H.
  - intros k e H. unfold MemoryStore_sweep in H.
    apply map_lookup_filter_Some in H. apply (Hs k e), H.
Qed.

Lemma store_ok_run (ops : list StoreOp) (s : MemoryStore) :
  Forall (fun op => match op with SAllow _ cost _ => 0 <= cost | _ => True end)
         ops ->
  store_ok p s -> store_ok p (store_run p s ops).
Proof.
  revert s. induction ops as [|op ops IH]; intros s Hall Hs; [exact Hs|].
  inversion Hall; subst. simpl. apply IH; [assumption|].
  now apply store_ok_step.
Qed.

Lemma int_of_float_inject (z : Z) : Num.int_of_float (inject_Z z) = z.
Proof.
  unfold Num.int_of_float.
  destruct (Qle_bool 0 (inject_Z z)); [apply Qfloor_Z|apply Qceiling_Z].
Qed.

Lemma Qceiling_pos (x : Q) : (0 < x)%Q -> 1 <= Qceiling x.
Proof.
  intros H. pose proof (Qle_ceiling x) as Hc.
  assert (H0 : (inject_Z 0 < inject_Z (Qceiling x))%Q)
    by (eapply Qlt_le_trans; [exact H|exact Hc]).
  rewrite <- Zlt_Qlt in H0. lia.
Qed.

(** A denial by a well-formed bucket: nothing remains to report, and the
    wait lies between one second and [ceil(cost / refill_rate)]. *)
Lemma denied_bucket_retry (b : Bucket) (cost now : Z) :
  bucket_ok p b ->
  snd (fst (Bucket_Allow b cost now)) = false ->
  fst (fst (Bucket_Allow b cost now)) = 0
  /\ let x := Num.int_of_float
                (Bucket_RetryAfter (snd (Bucket_Allow b cost now)) cost) in
     1 <= (if x <? 1 then 1 else x) <= retry_bound p cost.
Proof.
  intros Hb. pose proof (refill_ok p b now Hp Hb) as (H0 & Hmax & HM & HR).
  pose proof (refill_rate_pos p Hp) as Hr.
  unfold Bucket_Allow.
  qcases (Num.float64 cost) (Tokens (Bucket_refill b now)) H;
    cbn [fst snd]; [discriminate|]. intros _. split; [reflexivity|].
  set (b1 := Bucket_refill b now) in *.
  assert (Hcost : (0 < inject_Z cost)%Q) by (unfold Num.float64 in H; lra).
  assert (Hbound : 1 <= retry_bound p cost).
  { apply Qceiling_pos. apply Qlt_shift_div_l; [exact Hr|]. lra. }
  unfold Bucket_RetryAfter.
  qcases (Num.float64 cost - Tokens b1)%Q 0%Q Hd;
    [unfold Num.float64 in *; lra|].
  qcases (RefillRate b1) 0%Q Hz; [lra|].
  rewrite int_of_float_inject. cbv zeta.
  assert (Hle : Qceiling ((Num.float64 cost - Tokens b1) / RefillRate b1)
                <= retry_bound p cost).
  { unfold retry_bound. apply Qceiling_resp_le. rewrite HR.
    unfold Qdiv. apply Qmult_le_compat_r.
    - unfold Num.float64. lra.
    - apply Qinv_le_0_compat. lra. }
  destruct (Z.ltb_spec (Qceiling ((Num.float64 cost - Tokens b1)
                                  / RefillRate b1)) 1); lia.
Qed.

(** The memory store: on every denial [Remaining] is zero and
    [RetryAfter] lies between 1 and [ceil(cost / refill_rate)]. *)
Lemma memory_denial (ops : list StoreOp) (key : string) (cost : Z)
    (clk : Clock) :
  Forall (fun op => match op with SAllow _ cost _ => 0 <= cost | _ => True end)
         ops ->
  let r := fst (MemoryStore_Allow (store_run p ∅ ops) key p cost clk) in
  Allowed r = false ->
  Remaining r = 0 /\ 1 <= RetryAfter r <= retry_bound p cost.
Proof.
  intros Hall r Hden.
  pose proof (store_ok_run ops ∅ Hall store_ok_empty) as Hs.
  destruct (MemoryStore_Allow_unfold (store_run p ∅ ops) key cost clk)
    as (b & Hb & Hal & Hrem & _ & Hretry & _).
  fold r in Hal, Hrem, Hretry.
  assert (Hok : bucket_ok p b).
  { destruct (store_run p ∅ ops !! key) as [e|] eqn:E; subst b.
    - exact (Hs key e E).
    - apply NewBucket_ok, Hp. }
  rewrite Hal in Hden.
  destruct (denied_bucket_retry b cost (at_call clk) Hok Hden) as [H1 H2].
  rewrite Hrem, Hretry, Hden. split; [exact H1|exact H2].
Qed.

End memory_store_facts.

(** ** The Redis store *)

Section redis_store_facts.

(** Whatever the server holds, a denial by the Redis store reports a
    wait of at least one second. *)
Lemma redis_denial_retry_at_least_one (prefix : string) (srv : RedisServer)
    (key : string) (p : Policy) (cost now : Z) :
  let r := fst (RedisStore_Allow prefix srv key p cost now) in
  Allowed r = false -> 1 <= RetryAfter r.
Proof.
  unfold RedisStore_Allow.
  destruct (run_luaTokenBucket _ _ _ _ _ _ _) as [[err|[[[v0 v1] v2] v3]] srv'];
    cbn; [discriminate|].
  intros ->. cbn. destruct (Z.ltb_spec (Num.int_div v2 1000) 1); lia.
Qed.

(** The script leaves [remaining] at the floor of the tokens it found
    when it denies. *)
Lemma luaTokenBucket_denied_remaining (h : RedisHash) (max rate : Q)
    (cost now_ms ttl : Z) :
  h_last_ms h = now_ms -> (h_tokens h < inject_Z cost)%Q ->
  fst (luaTokenBucket (Some h) max rate cost now_ms ttl)
  = (0, Qfloor (h_tokens h),
     Qceiling ((inject_Z cost - h_tokens h) / rate * 1000),
     Qfloor (inject_Z now_ms / 1000)
     + Qceiling (if negb (Qle_bool (max - h_tokens h) 0)
                    && negb (Qle_bool rate 0)
                 then (max - h_tokens h) / rate else 0)%Q).
Proof.
  intros Hl Hlt. unfold luaTokenBucket. rewrite Hl, Z.sub_diag.
  change (Qle_bool (inject_Z 0 / 1000) 0) with true. cbv iota.
  apply Qle_bool_false in Hlt. rewrite Hlt. reflexivity.
Qed.

End redis_store_facts.

(** C2, where the Redis store departs from it.  Under the policy of ten
    requests a day the rate reaches the script as [0.0001] (four
    decimals of 0.000116): the eleventh request at one instant is denied
    with [RetryAfter = 10000], above [ceil(cost / refill_rate) = 8640];
    the memory store answers the same calls with 8640. *)
Theorem redis_retry_after_exceeds_bound :
  let rs := redis_allow_seq "gohst:rl:" redis_empty "ip:203.0.113.9"
              ten_a_day 1 (repeat some_instant 11) in
  let ms := store_allow_n ∅ "ip:203.0.113.9" ten_a_day some_instant 11 in
  map Allowed rs = repeat true 10 ++ [false]
  /\ RetryAfter (last_result rs) = 10000
  /\ retry_bound ten_a_day 1 = 8640
  /\ map Allowed ms = repeat true 10 ++ [false]
  /\ RetryAfter (last_result ms) = 8640.
Proof. vm_compute. repeat split; reflexivity. Qed.

(** C3, where the Redis store departs from it.  Under the policy of
    eight tokens a minute, a first request of cost 5 leaves three tokens;
    the second at the same instant is denied, and the Redis store reports
    [Remaining = 3] where the memory store reports [Remaining = 0]. *)
Theorem redis_denial_reports_leftover_tokens :
  let rs := redis_allow_seq "gohst:rl:" redis_empty "ip:203.0.113.9"
              eight_a_minute 5 [some_instant; some_instant] in
  let '(m1, s1) := MemoryStore_Allow ∅ "ip:203.0.113.9" eight_a_minute 5
                     (frozen some_instant) in
  let m2 := fst (MemoryStore_Allow s1 "ip:203.0.113.9" eight_a_minute 5
                   (frozen some_instant)) in
  map Allowed rs = [true; false]
  /\ Remaining (last_result rs) = 3
  /\ Allowed m1 = true /\ Allowed m2 = false /\ Remaining m2 = 0.
Proof. vm_compute. repeat split; reflexivity. Qed.

(** ** The middleware *)

Section middleware_facts.
Context {net : Net} {S CS : Type}.
Variable cfg : RateLimitConfig.
Implicit Types (l : Limiter (S := S) (CS := CS)) (r : Request).

(** The messages written before a denial do not change the response. *)
Lemma denyResponse_sent l r (res : Result) (key kt reason : string)
    (h : gmap string string) (lg : list string) :
  sent (denyResponse cfg l r res key kt reason h lg)
  = sent (denyResponse cfg l r res key kt reason ∅ []).
Proof.
  unfold denyResponse.
  destruct (logStore l) as [f|]; [destruct (f _)|];
    destruct (match onLimit l with Some f => f r res | None => false end);
    try reflexivity;
    destruct (String.eqb _ "json"); reflexivity.
Qed.

Lemma denyResponse_not_downstream l r (res : Result)
    (key kt reason : string) (h : gmap string string) (lg : list string) :
  sent (denyResponse cfg l r res key kt reason h lg) <> Downstream.
Proof.
  unfold denyResponse.
  destruct (logStore l) as [f|]; [destruct (f _)|];
    destruct (match onLimit l with Some f => f r res | None => false end);
    try discriminate;
    destruct (String.eqb _ "json"); discriminate.
Qed.

Lemma rate_check_sent l r (clk : Clock) (key kt : string) (cost : Z)
    (lg : list string) (s : S) :
  sent (fst (rate_check cfg l r clk key kt cost lg s))
  = sent (fst (rate_check cfg l r clk key kt cost [] s)).
Proof.
  unfold rate_check.
  destruct (Store_Allow (store l) s key (policy l) cost clk) as [res s'].
  destruct (Allowed res); cbn [negb fst sent]; [reflexivity|].
  rewrite (denyResponse_sent l r res key kt "rate"
             (setRateLimitHeaders ∅ res) lg).
  rewrite (denyResponse_sent l r res key kt "rate"
             (setRateLimitHeaders ∅ res) []). reflexivity.
Qed.

Lemma rate_check_allowed l r (clk : Clock) (key kt : string) (cost : Z)
    (lg : list string) (s : S) :
  Allowed (fst (Store_Allow (store l) s key (policy l) cost clk)) = true ->
  fst (rate_check cfg l r clk key kt cost lg s)
  = {| sent := Downstream;
       headers := setRateLimitHeaders ∅
                    (fst (Store_Allow (store l) s key (policy l) cost clk));
       logged := lg; entries := [] |}.
Proof.
  unfold rate_check.
  destruct (Store_Allow (store l) s key (policy l) cost clk) as [res s'].
  cbn [fst]. intros ->. reflexivity.
Qed.

Lemma limited_true l r :
  limited cfg l r = true ->
  negb (CfgEnabled cfg) || negb (Enabled (policy l)) = false
  /\ existsb (fun rule => Matches (Some cfg) rule r) (allowlist l) = false.
Proof.
  unfold limited. destruct (CfgEnabled cfg), (Enabled (policy l)),
    (existsb _ (allowlist l)); cbn; intros H; try discriminate; now split.
Qed.

(** Outside the limiter's reach the request goes downstream untouched. *)
Lemma Middleware_not_limited l r (clk : Clock) (st : S * CS) :
  limited cfg l r = false ->
  Middleware cfg l r clk st
  = ({| sent := Downstream; headers := ∅; logged := []; entries := [] |}, st).
Proof.
  unfold limited, Middleware. destruct st as [s cs].
  destruct (CfgEnabled cfg), (Enabled (policy l)); cbn; try reflexivity.
  destruct (existsb _ (allowlist l)); cbn; [reflexivity|discriminate].
Qed.

(** Without a concurrency stage the response is the rate check's. *)
Lemma Middleware_no_concurrency l r (clk : Clock) (s : S) (cs : CS) :
  limited cfg l r = true ->
  concurrencyStore l = None \/ ConcurrencyLimit (policy l) <= 0 ->
  fst (Middleware cfg l r clk (s, cs))
  = fst (rate_check cfg l r clk (fst (keyFunc l r)) (snd (keyFunc l r))
           (charged (policy l)) [] s).
Proof.
  intros [H1 H2]%limited_true Hc. unfold Middleware, charged.
  rewrite H1, H2. destruct (keyFunc l r) as [key kt]. cbn [fst snd].
  destruct (concurrencyStore l) as [c|].
  - destruct Hc as [Hc|Hc]; [discriminate|].
    destruct (Z.ltb_spec 0 (ConcurrencyLimit (policy l))); [lia|].
    destruct (rate_check _ _ _ _ _ _ _ _ _); reflexivity.
  - destruct (rate_check _ _ _ _ _ _ _ _ _); reflexivity.
Qed.

(** A slot granted, with or without an error: the response is the rate
    check's. *)
Lemma Middleware_acquired l r (clk : Clock) (s : S) (cs cs1 : CS)
    (c : ConcurrencyStore CS) (e : option string) :
  limited cfg l r = true ->
  concurrencyStore l = Some c -> 0 < ConcurrencyLimit (policy l) ->
  Acquire c cs (fst (keyFunc l r)) (ConcurrencyLimit (policy l))
    = ((true, e), cs1) ->
  sent (fst (Middleware cfg l r clk (s, cs)))
  = sent (fst (rate_check cfg l r clk (fst (keyFunc l r))
                 (snd (keyFunc l r)) (charged (policy l)) [] s)).
Proof.
  intros [H1 H2]%limited_true Hc Hlim Hacq. unfold Middleware, charged.
  rewrite H1, H2. destruct (keyFunc l r) as [key kt]. cbn [fst snd] in *.
  rewrite Hc. destruct (Z.ltb_spec 0 (ConcurrencyLimit (policy l))); [|lia].
  rewrite Hacq. cbn [negb].
  rewrite <- (rate_check_sent l r clk key kt _
                (match e with
                 | Some e0 =>
                     ["[ratelimit] concurrency store error key="
                      ++ truncateKey key ++ ": " ++ e0]%string
                 | None => []
                 end) s).
  destruct (rate_check _ _ _ _ _ _ _ _ _) as [out s'].
  destruct (Release c cs1 key) as [[re|] cs2]; reflexivity.
Qed.

End middleware_facts.

(** C5.  When the script invocation of the Redis store returns an error,
    [RedisStore.Allow] returns the fail-open result: [Allowed = true],
    [Limit = limit + burst], [Remaining = limit + burst].  The rate check
    of the middleware then sends the request downstream with these values
    in the rate-limit headers: a limiter without concurrency store, and
    one whose concurrency store grants the slot, admit the request. *)
Theorem redis_error_fails_open {net : Net} {CS : Type}
    (cfg : RateLimitConfig) (prefix : string) (srv : RedisServer)
    (err : string) (l : Limiter (S := RedisServer) (CS := CS))
    (r : Request) (clk : Clock) (cs : CS) (key : string) (cost : Z) :
  fault srv = Some err ->
  store l = RedisStore prefix ->
  let p := policy l in
  let res := fst (RedisStore_Allow prefix srv key p cost (at_call clk)) in
  let out := fst (Middleware cfg l r clk (srv, cs)) in
  (Allowed res = true
   /\ RLimit res = Limit p + Burst p
   /\ Remaining res = Limit p + Burst p)
  /\ (forall (kt : string) (lg : list string),
        fst (rate_check cfg l r clk key kt cost lg srv)
        = {| sent := Downstream;
             headers := setRateLimitHeaders ∅ (fail_open p);
             logged := lg; entries := [] |})
  /\ (concurrencyStore l = None ->
        sent out = Downstream
        /\ (limited cfg l r = true ->
              headers out !! "X-RateLimit-Remaining"%string
              = Some (Itoa (Limit p + Burst p))))
  /\ (forall (c : ConcurrencyStore CS) (cs1 : CS) (e : option string),
        limited cfg l r = true ->
        concurrencyStore l = Some c ->
        0 < ConcurrencyLimit p ->
        Acquire c cs (fst (keyFunc l r)) (ConcurrencyLimit p)
          = ((true, e), cs1) ->
        sent out = Downstream).
Proof.
  intros Hf Hs p res out.
  assert (Hallow : forall k c,
            Store_Allow (store l) srv k p c clk = (fail_open p, srv)).
  { intros k c. rewrite Hs. cbn [Store_Allow RedisStore].
    unfold RedisStore_Allow, run_luaTokenBucket. rewrite Hf. reflexivity. }
  assert (Hrc : forall k kt c lg,
            fst (rate_check cfg l r clk k kt c lg srv)
            = {| sent := Downstream;
                 headers := setRateLimitHeaders ∅ (fail_open p);
                 logged := lg; entries := [] |}).
  { intros k kt c lg. rewrite rate_check_allowed; fold p; rewrite Hallow;
      reflexivity. }
  split; [|split; [|split]].
  - unfold res, RedisStore_Allow, run_luaTokenBucket. rewrite Hf.
    repeat split; reflexivity.
  - intros kt lg. apply Hrc.
  - intros Hc. destruct (limited cfg l r) eqn:Hlim.
    + unfold out. rewrite Middleware_no_concurrency by auto.
      rewrite Hrc. split; [reflexivity|]. intros _.
      cbn [headers]. unfold setRateLimitHeaders, fail_open.
      cbn [ResetAt Remaining RLimit].
      rewrite lookup_insert_ne by discriminate.
      apply lookup_insert_eq.
    + unfold out. rewrite Middleware_not_limited by exact Hlim.
      split; [reflexivity|discriminate].
  - intros c cs1 e Hlim Hc Hn Hacq. unfold out.
    rewrite (Middleware_acquired cfg l r clk srv cs cs1 c e Hlim Hc Hn Hacq).
    now rewrite Hrc.
Qed.

(** Scenario 8 of the specification: the server is unreachable and the
    request is admitted with the capacity as remaining count. *)
Lemma redis_error_fails_open_witness :
  let cfg := config_with [] in
  let l := limiter_by_ip (CS := unit) (RedisStore "gohst:rl:") None
             AuthSensitivePolicy cfg in
  let r := request "POST" "203.0.113.9:4711" [] [] in
  let res := fst (RedisStore_Allow "gohst:rl:" redis_down "ip:203.0.113.9"
                    AuthSensitivePolicy 1 some_instant) in
  let out := fst (Middleware (net := IPv4.net) cfg l r (frozen some_instant)
                    (redis_down, tt)) in
  (Allowed res = true /\ RLimit res = 10 /\ Remaining res = 10)
  /\ sent out = Downstream
  /\ headers out !! "X-RateLimit-Remaining"%string = Some "10"%string.
Proof.
  intros cfg l r res out.
  destruct (redis_error_fails_open (net := IPv4.net) cfg "gohst:rl:"
              redis_down "dial tcp 127.0.0.1:6379: connection refused"
              l r (frozen some_instant) tt "ip:203.0.113.9" 1
              eq_refl eq_refl) as (H1 & _ & H3 & _).
  destruct (H3 eq_refl) as (H4 & H5).
  split; [exact H1|]. split; [exact H4|]. exact (H5 eq_refl).
Defined.

Section concurrency_facts.
Context {net : Net} {S CS : Type}.
Variable cfg : RateLimitConfig.
Implicit Types (l : Limiter (S := S) (CS := CS)) (r : Request).

(** Without a custom handler the denial is the default 429. *)
Lemma denyResponse_default l r (res : Result) (key kt reason : string)
    (h : gmap string string) (lg : list string) :
  onLimit l = None ->
  sent (denyResponse cfg l r res key kt reason h lg)
  = default_429 cfg r (RetryAfter res).
Proof.
  intros Hon. unfold denyResponse, default_429. rewrite Hon.
  destruct (logStore l) as [f|]; [destruct (f _)|];
    destruct (containsJSON _); cbn [orb String.eqb Ascii.eqb Bool.eqb];
    try reflexivity;
    destruct (String.eqb (DefaultResponseFormat cfg) "json"); reflexivity.
Qed.

(** The messages written before are kept, and the denial is logged
    after them. *)
Lemma denyResponse_logged l r (res : Result) (key kt reason : string)
    (h : gmap string string) (lg : list string) :
  logged (denyResponse cfg l r res key kt reason h lg)
  = lg ++ logged (denyResponse cfg l r res key kt reason h [])
  /\ In (denied_line (Method r) (URL_Path r) kt (Scope (policy l))
           (truncateKey key) (RetryAfter res) reason)
        (logged (denyResponse cfg l r res key kt reason h [])).
Proof.
  unfold denyResponse.
  destruct (logStore l) as [f|]; [destruct (f _)|];
    destruct (match onLimit l with Some f => f r res | None => false end);
    try destruct (String.eqb _ "json"); cbn [logged app];
    rewrite <- ?app_assoc; cbn [app]; split; try reflexivity;
    now left.
Qed.

Lemma denyResponse_rest l r (res : Result) (key kt reason : string)
    (h : gmap string string) (lg : list string) :
  headers (denyResponse cfg l r res key kt reason h lg)
  = headers (denyResponse cfg l r res key kt reason h [])
  /\ entries (denyResponse cfg l r res key kt reason h lg)
     = entries (denyResponse cfg l r res key kt reason h []).
Proof.
  unfold denyResponse.
  destruct (logStore l) as [f|]; [destruct (f _)|];
    destruct (match onLimit l with Some f => f r res | None => false end);
    try destruct (String.eqb _ "json"); split; reflexivity.
Qed.

(** The messages written before the rate check are kept in front; all
    else is as without them. *)
Lemma rate_check_after l r (clk : Clock) (key kt : string) (cost : Z)
    (lg : list string) (s : S) :
  let a := rate_check cfg l r clk key kt cost lg s in
  let b := rate_check cfg l r clk key kt cost [] s in
  sent (fst a) = sent (fst b) /\ headers (fst a) = headers (fst b)
  /\ entries (fst a) = entries (fst b)
  /\ logged (fst a) = lg ++ logged (fst b)
  /\ snd a = snd b.
Proof.
  cbv zeta. unfold rate_check.
  destruct (Store_Allow (store l) s key (policy l) cost clk) as [res s'].
  destruct (Allowed res); cbn [negb fst snd sent headers entries logged].
  - rewrite app_nil_r. repeat split; reflexivity.
  - rewrite (denyResponse_sent cfg l r res key kt "rate"
               (setRateLimitHeaders ∅ res) lg).
    rewrite (denyResponse_sent cfg l r res key kt "rate"
               (setRateLimitHeaders ∅ res) []).
    destruct (denyResponse_rest l r res key kt "rate"
                (setRateLimitHeaders ∅ res) lg) as [-> ->].
    destruct (denyResponse_logged l r res key kt "rate"
                (setRateLimitHeaders ∅ res) lg) as [-> _].
    repeat split; reflexivity.
Qed.

(** A slot granted: the response is the rate check's, after the message
    of an [Acquire] error and before the one of a [Release] error. *)
Lemma Middleware_slot_granted l r (clk : Clock) (s : S) (cs cs1 cs2 : CS)
    (c : ConcurrencyStore CS) (e re : option string) :
  limited cfg l r = true ->
  concurrencyStore l = Some c -> 0 < ConcurrencyLimit (policy l) ->
  Acquire c cs (fst (keyFunc l r)) (ConcurrencyLimit (policy l))
    = ((true, e), cs1) ->
  Release c cs1 (fst (keyFunc l r)) = (re, cs2) ->
  let m := Middleware cfg l r clk (s, cs) in
  let rc := rate_check cfg l r clk (fst (keyFunc l r)) (snd (keyFunc l r))
              (charged (policy l)) [] s in
  sent (fst m) = sent (fst rc) /\ headers (fst m) = headers (fst rc)
  /\ entries (fst m) = entries (fst rc)
  /\ logged (fst m)
     = match e with
       | Some e0 =>
           ["[ratelimit] concurrency store error key="
            ++ truncateKey (fst (keyFunc l r)) ++ ": " ++ e0]%string
       | None => []
       end
       ++ logged (fst rc)
       ++ match re with
          | Some e0 => [release_error_line (fst (keyFunc l r)) e0]
          | None => []
          end
  /\ snd m = (snd rc, cs2).
Proof.
  intros [H1 H2]%limited_true Hc Hlim Hacq Hrel. cbv zeta.
  unfold Middleware, charged.
  rewrite H1, H2. destruct (keyFunc l r) as [key kt]. cbn [fst snd] in *.
  rewrite Hc. destruct (Z.ltb_spec 0 (ConcurrencyLimit (policy l))); [|lia].
  rewrite Hacq. cbn [negb].
  set (lg := match e with Some e0 => _ | None => [] end).
  destruct (rate_check_after l r clk key kt
              (if Cost (policy l) <? 1 then 1 else Cost (policy l)) lg s)
    as (Hs & Hh & He & Hl & Hsnd).
  destruct (rate_check cfg l r clk key kt _ lg s) as [out s'].
  cbn [fst snd] in *. rewrite Hrel.
  destruct re as [e0|]; cbn [fst snd sent headers entries logged];
    rewrite Hl, <- Hsnd, ?app_nil_r, <- ?app_assoc;
    repeat split; assumption || reflexivity.
Qed.

End concurrency_facts.




(** ** Strings *)

Section strings_facts.

Section trim_facts.
Variable p1 : ascii -> bool.
Variable p2 : ascii -> ascii -> bool.
Variable p3 : ascii -> ascii -> ascii -> bool.

Lemma trim_with_no_lead (l : list ascii) :
  no_lead p1 p2 p3 (strings.trim_with p1 p2 p3 l).
Proof.
  unfold no_lead.
  assert (H : forall n l, (length l <= n)%nat ->
            strings.leads p1 p2 p3 (strings.trim_with p1 p2 p3 l) = false).
  { clear l. induction n as [|n IH]; intros l Hl.
    - destruct l; [reflexivity|cbn in Hl; lia].
    - destruct l as [|c1 l1]; [reflexivity|]. cbn [length] in Hl.
      cbn [strings.trim_with].
      destruct (p1 c1) eqn:E1; [apply IH; lia|].
      destruct l1 as [|c2 l2].
      { cbn [strings.leads]. now rewrite E1. }
      cbn [length] in Hl.
      destruct (p2 c1 c2) eqn:E2; [apply IH; lia|].
      destruct l2 as [|c3 l3].
      { cbn [strings.leads]. now rewrite E1, E2. }
      cbn [length] in Hl.
      destruct (p3 c1 c2 c3) eqn:E3; [apply IH; lia|].
      cbn [strings.leads]. now rewrite E1, E2, E3. }
  apply (H (length l)). lia.
Qed.

Lemma trim_with_fixed (l : list ascii) :
  no_lead p1 p2 p3 l -> strings.trim_with p1 p2 p3 l = l.
Proof.
  unfold no_lead. destruct l as [|c1 l1]; [reflexivity|].
  cbn [strings.leads strings.trim_with].
  destruct (p1 c1); [discriminate|]. cbn [orb].
  destruct l1 as [|c2 l2]; [reflexivity|].
  destruct (p2 c1 c2); [discriminate|]. cbn [orb].
  destruct l2 as [|c3 l3]; [reflexivity|].
  now intros ->.
Qed.

Lemma trim_with_suffix (l : list ascii) :
  exists pre, l = pre ++ strings.trim_with p1 p2 p3 l.
Proof.
  assert (H : forall n l, (length l <= n)%nat ->
            exists pre, l = pre ++ strings.trim_with p1 p2 p3 l).
  { clear l. induction n as [|n IH]; intros l Hl.
    - destruct l; [now exists []|cbn in Hl; lia].
    - destruct l as [|c1 l1]; [now exists []|]. cbn [length] in Hl.
      cbn [strings.trim_with].
      destruct (p1 c1).
      { destruct (IH l1) as [pre Hp]; [lia|].
        exists (c1 :: pre). cbn [app]. now f_equal. }
      destruct l1 as [|c2 l2]; [now exists []|]. cbn [length] in Hl.
      destruct (p2 c1 c2).
      { destruct (IH l2) as [pre Hp]; [lia|].
        exists (c1 :: c2 :: pre). cbn [app]. now do 2 f_equal. }
      destruct l2 as [|c3 l3]; [now exists []|]. cbn [length] in Hl.
      destruct (p3 c1 c2 c3); [|now exists []].
      destruct (IH l3) as [pre Hp]; [lia|].
      exists (c1 :: c2 :: c3 :: pre). cbn [app]. now do 3 f_equal. }
  apply (H (length l)). lia.
Qed.

(** White space at the head of a prefix is at the head of the whole. *)
Lemma no_lead_prefix (a b c : list ascii) :
  no_lead p1 p2 p3 a -> a = b ++ c -> no_lead p1 p2 p3 b.
Proof.
  unfold no_lead. intros Ha ->.
  destruct b as [|c1 [|c2 [|c3 b]]]; cbn [strings.leads app] in *;
    try reflexivity.
  - destruct (p1 c1); [discriminate|reflexivity].
  - destruct (p1 c1); [discriminate|]. cbn [orb] in *.
    destruct (p2 c1 c2); [discriminate|]. reflexivity.
  - exact Ha.
Qed.

End trim_facts.

Lemma leads_rev (l : list ascii) :
  no_lead strings.is_space strings.space2 strings.space3 l ->
  forall t, strings.trim_right l = t ->
  no_lead strings.is_space strings.space2 strings.space3 t.
Proof.
  intros Hl t <-. unfold strings.trim_right.
  destruct (trim_with_suffix strings.is_space (fun a b => strings.space2 b a)
              (fun a b c => strings.space3 c b a) (rev l)) as [pre Hpre].
  apply (no_lead_prefix _ _ _ l _ (rev pre) Hl).
  rewrite <- rev_app_distr, <- Hpre. symmetry. apply rev_involutive.
Qed.

Lemma trim_idempotent (l : list ascii) :
  strings.trim (strings.trim l) = strings.trim l.
Proof.
  unfold strings.trim.
  set (a := strings.trim_left l).
  assert (Ha : no_lead strings.is_space strings.space2 strings.space3 a)
    by apply trim_with_no_lead.
  pose proof (leads_rev a Ha _ eq_refl) as Hb.
  unfold strings.trim_left at 1. rewrite (trim_with_fixed _ _ _ _ Hb).
  unfold strings.trim_right at 1 2. rewrite rev_involutive.
  rewrite (trim_with_fixed _ _ _
             (strings.trim_with _ _ _ (rev a))); [reflexivity|].
  apply trim_with_no_lead.
Qed.

Lemma TrimSpace_idempotent (s : string) :
  strings.TrimSpace (strings.TrimSpace s) = strings.TrimSpace s.
Proof.
  unfold strings.TrimSpace.
  now rewrite list_ascii_of_string_of_list_ascii, trim_idempotent.
Qed.

Lemma Split_no_separator (s : string) (sep : ascii) :
  strings.ContainsByte s sep = false -> strings.Split s sep = [s].
Proof.
  unfold strings.ContainsByte.
  induction s as [|c s IH]; simpl; [reflexivity|].
  intros H. apply orb_false_iff in H as [Hc Hs].
  rewrite Ascii.eqb_sym, Hc. now rewrite (IH Hs).
Qed.

End strings_facts.

(** ** The client IP *)

Section clientip_facts.
Context {net : Net}.

Lemma normalizeIP_unparsed (raw : string) :
  ParseIP (strings.TrimSpace raw) = None ->
  normalizeIP raw = strings.TrimSpace raw.
Proof. intros H. unfold normalizeIP. now rewrite H. Qed.

Lemma isTrusted_unparsed (ip : string) (trusted : list string) :
  ParseIP ip = None -> isTrusted ip trusted = false.
Proof. intros H. unfold isTrusted. now rewrite H. Qed.

Lemma isTrusted_nil (ip : string) : isTrusted ip [] = false.
Proof. unfold isTrusted. now destruct (ParseIP ip). Qed.

(** The peer is not trusted: its address is the client's. *)
Lemma ClientIP_untrusted_peer (cfg : option RateLimitConfig) (r : Request) :
  isTrusted (extractIP (RemoteAddr r))
    (match cfg with Some c => TrustedProxies c | None => [] end) = false ->
  ClientIP cfg r = normalizeIP (extractIP (RemoteAddr r)).
Proof.
  intros H. unfold ClientIP. rewrite H. cbn [negb].
  now rewrite orb_true_r.
Qed.

End clientip_facts.

(** C6.  With an empty trusted-proxy list, [ClientIP] returns the
    normalized peer address, the remote address without its port; two
    requests with the same remote address resolve to the same client IP
    whatever their headers. *)
Theorem no_trusted_proxies_peer_ip {net : Net}
    (cfg : option RateLimitConfig) (r1 r2 : Request) :
  (forall c, cfg = Some c -> TrustedProxies c = []) ->
  ClientIP cfg r1 = normalizeIP (extractIP (RemoteAddr r1))
  /\ (RemoteAddr r1 = RemoteAddr r2 -> ClientIP cfg r1 = ClientIP cfg r2).
Proof.
  intros Hcfg.
  assert (H : forall r, ClientIP cfg r = normalizeIP (extractIP (RemoteAddr r))).
  { intros r. apply ClientIP_untrusted_peer.
    destruct cfg as [c|]; [rewrite (Hcfg c eq_refl)|]; apply isTrusted_nil. }
  split; [apply H|]. intros Heq. now rewrite !H, Heq.
Qed.

(** Two requests from peer 10.0.0.7 that disagree on the forwarded
    headers, and no trusted proxy. *)
Lemma no_trusted_proxies_peer_ip_witness :
  let r1 := request "GET" "10.0.0.7:4711"
              [("X-Forwarded-For", "203.0.113.9, 10.0.0.2");
               ("X-Real-Ip", "198.51.100.1")]%string [] in
  let r2 := request "GET" "10.0.0.7:4711"
              [("X-Forwarded-For", "192.0.2.33");
               ("X-Real-Ip", "192.0.2.34")]%string [] in
  let cfg := Some (config_with []) in
  ClientIP (net := IPv4.net) cfg r1 = "10.0.0.7"%string
  /\ ClientIP (net := IPv4.net) cfg r1 = ClientIP (net := IPv4.net) cfg r2.
Proof.
  intros r1 r2 cfg.
  assert (Hcfg : forall c, cfg = Some c -> TrustedProxies c = [])
    by (intros c [= <-]; reflexivity).
  destruct (no_trusted_proxies_peer_ip (net := IPv4.net) cfg r1 r2 Hcfg)
    as [H1 H2].
  split; [exact H1|exact (H2 eq_refl)].
Defined.

(** C10, as the code has it.  When the input, trimmed of white space,
    does not parse as an IP address, [normalizeIP] returns the trimmed
    input as it is.  So [ClientIP] returns a string that is no IP
    address: behind a trusted proxy, the trimmed [X-Forwarded-For] entry
    that does not parse; and, when the remote address does not parse,
    the trimmed remote address.  When the trimmed input parses,
    [normalizeIP] returns the address as [String] prints it, whether or
    not the input itself parses. *)
Theorem unparsed_address_returned_verbatim {net : Net} :
  (forall raw : string,
     ParseIP (strings.TrimSpace raw) = None ->
     normalizeIP raw = strings.TrimSpace raw)
  /\ (forall (c : RateLimitConfig) (r : Request) (e : string),
        isTrusted (extractIP (RemoteAddr r)) (TrustedProxies c) = true ->
        Header_Get r "X-Real-IP" = EmptyString ->
        Header_Get r "X-Forwarded-For" = e ->
        strings.ContainsByte e "," = false ->
        strings.TrimSpace e <> EmptyString ->
        ParseIP (strings.TrimSpace e) = None ->
        ClientIP (Some c) r = strings.TrimSpace e)
  /\ (forall (cfg : option RateLimitConfig) (r : Request),
        ParseIP (extractIP (RemoteAddr r)) = None ->
        ParseIP (strings.TrimSpace (extractIP (RemoteAddr r))) = None ->
        ClientIP cfg r = strings.TrimSpace (extractIP (RemoteAddr r)))
  /\ (forall (raw : string) (ip : IP),
        ParseIP (strings.TrimSpace raw) = Some ip ->
        normalizeIP raw = IP_String ip).
Proof.
  split; [exact normalizeIP_unparsed|].
  cut ((forall (c : RateLimitConfig) (r : Request) (e : string),
        isTrusted (extractIP (RemoteAddr r)) (TrustedProxies c) = true ->
        Header_Get r "X-Real-IP" = EmptyString ->
        Header_Get r "X-Forwarded-For" = e ->
        strings.ContainsByte e "," = false ->
        strings.TrimSpace e <> EmptyString ->
        ParseIP (strings.TrimSpace e) = None ->
        ClientIP (Some c) r = strings.TrimSpace e)
  /\ (forall (cfg : option RateLimitConfig) (r : Request),
        ParseIP (extractIP (RemoteAddr r)) = None ->
        ParseIP (strings.TrimSpace (extractIP (RemoteAddr r))) = None ->
        ClientIP cfg r = strings.TrimSpace (extractIP (RemoteAddr r)))).
  { intros [H1 H2]. split; [exact H1|]. split; [exact H2|].
    intros raw ip H. unfold normalizeIP. now rewrite H. }
  split.
  - intros c r e Htr Hreal Hxff Hsep Hne Hparse.
    assert (Htl : (length (TrustedProxies c) =? 0)%nat = false).
    { destruct (TrustedProxies c); [|reflexivity].
      now rewrite isTrusted_nil in Htr. }
    assert (He : String.eqb e EmptyString = false).
    { apply String.eqb_neq. intros ->. now apply Hne. }
    unfold ClientIP. rewrite Htl, Htr, Hreal, Hxff, He.
    cbn [negb orb String.eqb].
    rewrite (Split_no_separator e "," Hsep). cbn [rev app rightmost_untrusted].
    apply String.eqb_neq in Hne. rewrite Hne.
    rewrite (isTrusted_unparsed _ _ Hparse). cbn [negb].
    rewrite normalizeIP_unparsed; rewrite TrimSpace_idempotent;
      [reflexivity|exact Hparse].
  - intros cfg r Hp Hpt.
    rewrite ClientIP_untrusted_peer by (now apply isTrusted_unparsed).
    now apply normalizeIP_unparsed.
Qed.

(** A proxy that forwards [unknown] as the client address, and a request
    that arrives over a local socket. *)
Lemma unparsed_address_returned_verbatim_witness :
  normalizeIP (net := IPv4.net) "  not-an-ip " = "not-an-ip"%string
  /\ ClientIP (net := IPv4.net) (Some (config_with ["10.0.0.0/8"%string]))
       (request "GET" "10.0.0.7:4711"
          [("X-Forwarded-For", " unknown")%string] [])
     = "unknown"%string
  /\ ClientIP (net := IPv4.net) None (request "GET" "@" [] []) = "@"%string.
Proof.
  destruct (unparsed_address_returned_verbatim (net := IPv4.net))
    as (Ha & Hb & Hc & _).
  split; [|split].
  - apply (Ha "  not-an-ip "%string). reflexivity.
  - apply (Hb (config_with ["10.0.0.0/8"%string])
              (request "GET" "10.0.0.7:4711"
                 [("X-Forwarded-For", " unknown")%string] [])
              " unknown"%string);
      [reflexivity | reflexivity | reflexivity | reflexivity
      | discriminate | reflexivity].
  - apply (Hc None (request "GET" "@" [] [])); reflexivity.
Defined.

(** White space outside ASCII is trimmed as well: [unknown] followed by
    a no-break space. *)
Example normalizeIP_trims_no_break_space :
  normalizeIP (net := IPv4.net)
    ("unknown" ++ String (ascii_of_nat 194)
                    (String (ascii_of_nat 160) EmptyString))
  = "unknown"%string.
Proof. vm_compute. reflexivity. Qed.

(** C10 as stated fails: [ ::ffff:192.168.1.1], with its leading space,
    does not parse as an IP address, and [normalizeIP] does not return
    the trimmed input [::ffff:192.168.1.1] but the address read from it,
    in dotted form. *)
Lemma untrimmed_address_is_reserialised :
  let raw := " ::ffff:192.168.1.1"%string in
  @ParseIP Mapped.net raw = None
  /\ strings.TrimSpace raw = "::ffff:192.168.1.1"%string
  /\ normalizeIP (net := Mapped.net) raw = "192.168.1.1"%string
  /\ normalizeIP (net := Mapped.net) raw <> strings.TrimSpace raw.
Proof. vm_compute. repeat split; try reflexivity. discriminate. Qed.

(** ** The key in the denial log *)

Section truncate_facts.

Lemma length_append (s1 s2 : string) :
  String.length (s1 ++ s2) = (String.length s1 + String.length s2)%nat.
Proof. induction s1 as [|c s1 IH]; simpl; [reflexivity|now rewrite IH]. Qed.

Lemma length_substring_0 (n : nat) : forall s : string,
  (n <= String.length s)%nat -> String.length (substring 0 n s) = n.
Proof.
  induction n as [|n IH]; intros [|c s] H; simpl in *;
    try reflexivity; try lia.
  rewrite IH; [reflexivity|lia].
Qed.

Lemma truncateKey_short (key : string) :
  (String.length key <= 40)%nat -> truncateKey key = key.
Proof.
  intros H. unfold truncateKey.
  destruct (Nat.ltb_spec 40 (String.length key)); [lia|reflexivity].
Qed.

Lemma truncateKey_long (key : string) :
  (40 < String.length key)%nat ->
  truncateKey key = (substring 0 40 key ++ "...")%string.
Proof.
  intros H. unfold truncateKey.
  destruct (Nat.ltb_spec 40 (String.length key)); [reflexivity|lia].
Qed.

End truncate_facts.

(** C7, as the code has it.  The key written to the denial log line and
    to the [KeyHash] field of the log entry is [truncateKey key]: the
    whole key when it has at most 40 bytes, and otherwise its first 40
    bytes followed by the marker [...], 43 bytes in all. *)
Theorem denial_log_key_truncated_with_marker {net : Net} {S CS : Type}
    (cfg : RateLimitConfig) (l : Limiter (S := S) (CS := CS))
    (r : Request) (result : Result) (key kt reason : string)
    (h : gmap string string) (lg : list string)
    (f : LogEntry.t -> option string) :
  logStore l = Some f ->
  let out := denyResponse cfg l r result key kt reason h lg in
  let k := truncateKey key in
  ((String.length key <= 40)%nat -> k = key)
  /\ ((40 < String.length key)%nat ->
        k = (substring 0 40 key ++ "...")%string
        /\ String.length k = 43%nat)
  /\ In (denied_line (Method r) (URL_Path r) kt (Scope (policy l)) k
           (RetryAfter result) reason) (logged out)
  /\ map LogEntry.KeyHash (entries out) = [k].
Proof.
  intros Hf out k. split; [apply truncateKey_short|]. split; [|split].
  - intros H. unfold k. rewrite (truncateKey_long key H).
    split; [reflexivity|].
    rewrite length_append, length_substring_0 by lia. reflexivity.
  - unfold out, denyResponse. rewrite Hf.
    destruct (f _);
      destruct (match onLimit l with Some g => g r result | None => false end);
      try destruct (String.eqb _ "json"); cbn [logged];
      rewrite ?in_app_iff; cbn [In]; auto.
  - unfold out, denyResponse. rewrite Hf.
    destruct (f _);
      destruct (match onLimit l with Some g => g r result | None => false end);
      try destruct (String.eqb _ "json"); reflexivity.
Qed.

(** A denial under the key [long_key], logged to a store. *)
Lemma denial_log_key_truncated_with_marker_witness :
  let cfg := config_with [] in
  let l := limiter_by_ip (CS := unit) MemoryStore_Store None
             AuthSensitivePolicy cfg in
  let r := request "GET" "203.0.113.9:4711" [] [] in
  let out := denyResponse (net := IPv4.net) cfg l r
               (concurrency_denial AuthSensitivePolicy)
               long_key KeyTypeIPRoute "rate" ∅ [] in
  truncateKey long_key = "iproute:203.0.113.9:/api/v1/reports/expo..."%string
  /\ map LogEntry.KeyHash (entries out)
     = ["iproute:203.0.113.9:/api/v1/reports/expo..."%string].
Proof.
  intros cfg l r out.
  destruct (denial_log_key_truncated_with_marker (net := IPv4.net) cfg l r
              (concurrency_denial AuthSensitivePolicy) long_key
              KeyTypeIPRoute "rate" ∅ [] (fun _ => None) eq_refl)
    as (_ & H2 & _ & H4).
  destruct H2 as [H2 _]; [vm_compute; lia|].
  split; [exact H2|exact H4].
Defined.

(** C7 as stated fails: for a key of 42 bytes the logged key and the
    [KeyHash] field are not the first 40 bytes of the key. *)
Lemma logged_key_is_not_the_40_byte_prefix :
  let cfg := config_with [] in
  let l := limiter_by_ip (CS := unit) MemoryStore_Store None
             AuthSensitivePolicy cfg in
  let r := request "GET" "203.0.113.9:4711" [] [] in
  let out := denyResponse (net := IPv4.net) cfg l r
               (concurrency_denial AuthSensitivePolicy)
               long_key KeyTypeIPRoute "rate" ∅ [] in
  String.length long_key = 42%nat
  /\ map LogEntry.KeyHash (entries out) <> [substring 0 40 long_key]
  /\ logged out
     <> [denied_line "GET" "/login" KeyTypeIPRoute "auth_sensitive"
           (substring 0 40 long_key) 1 "rate"]
  /\ logged out
     = [denied_line "GET" "/login" KeyTypeIPRoute "auth_sensitive"
          (substring 0 40 long_key ++ "...") 1 "rate"].
Proof. vm_compute. repeat split; try reflexivity; discriminate. Qed.

(** ** The identifier key *)

Section keys_facts.








Lemma length_letters (n : nat) : String.length (letters n) = n.
Proof. induction n as [|n IH]; simpl; [reflexivity|now rewrite IH]. Qed.

Lemma letters_inj (i j : nat) : letters i = letters j -> i = j.
Proof. intros H. apply (f_equal String.length) in H.
  now rewrite !length_letters in H. Qed.

(** The first two words of the hash state are 32-bit words. *)
Lemma add32_word (x y : Z) : word32 (sha256.add32 x y).
Proof. unfold word32, sha256.add32. apply Z.mod_pos_bound. reflexivity. Qed.

Lemma blocks_words (n : nat) : forall (st : sha256.digest) (bs : list Z),
  word32 (sha256.h0 st) /\ word32 (sha256.h1 st) ->
  word32 (sha256.h0 (sha256.blocks n st bs))
  /\ word32 (sha256.h1 (sha256.blocks n st bs)).
Proof.
  induction n as [|n IH]; intros st bs H; [exact H|].
  destruct bs as [|b bs]; [exact H|].
  cbn [sha256.blocks]. apply IH.
  unfold sha256.block. cbn [sha256.h0 sha256.h1].
  split; apply add32_word.
Qed.

Lemma state_words (msg : list Z) :
  word32 (sha256.h0 (sha256.state msg))
  /\ word32 (sha256.h1 (sha256.state msg)).
Proof.
  unfold sha256.state. apply blocks_words.
  unfold word32. cbn. lia.
Qed.

(** The fingerprint is written from the first two words of the state. *)
Lemma hashValue_fingerprint (v : string) :
  hashValue v
  = fingerprint (sha256.h0 (sha256.state (bytes_of_string v)))
                (sha256.h1 (sha256.state (bytes_of_string v))).
Proof. reflexivity. Qed.

(** Among the strings [a], [aa], [aaa], ... two have one fingerprint:
    there are more such strings than fingerprints. *)
Lemma fingerprint_collision :
  exists i j : nat, i <> j
    /\ hashValue (letters (Datatypes.S i)) = hashValue (letters (Datatypes.S j)).
Proof.
  pose (st := fun i => sha256.state (bytes_of_string (letters (Datatypes.S i)))).
  pose (f := fun i =>
               Z.to_nat (sha256.h0 (st i) * 2^32 + sha256.h1 (st i))).
  assert (HN : exists N : nat, Z.of_nat N = 2^64).
  { exists (Z.to_nat (2^64)). apply Z2Nat.id. apply Z.pow_nonneg. lia. }
  destruct HN as [N HN].
  assert (Hb : forall i, (i < Datatypes.S N)%nat -> (f i < N)%nat).
  { intros i _. unfold f.
    destruct (state_words (bytes_of_string (letters (Datatypes.S i))))
      as [H0 H1]. fold (st i) in H0, H1. unfold word32 in *.
    change (2^32) with 4294967296 in *.
    change (2^64) with 18446744073709551616 in HN. lia. }
  destruct (nat_pigeonhole f (Datatypes.S N) N (Nat.lt_succ_diag_r N) Hb)
    as (i & j & Hij & Hf).
  exists i, j. split; [lia|].
  rewrite !hashValue_fingerprint. fold (st i) (st j).
  unfold f in Hf.
  destruct (state_words (bytes_of_string (letters (Datatypes.S i))))
    as [Hi0 Hi1].
  destruct (state_words (bytes_of_string (letters (Datatypes.S j))))
    as [Hj0 Hj1].
  fold (st i) in Hi0, Hi1. fold (st j) in Hj0, Hj1. unfold word32 in *.
  change (2^32) with 4294967296 in *.
  assert (sha256.h0 (st i) = sha256.h0 (st j)
          /\ sha256.h1 (st i) = sha256.h1 (st j)) as [-> ->] by lia.
  reflexivity.
Qed.

(** So [hashValue] is not injective. *)
Lemma hashValue_not_injective :
  exists v1 v2 : string, v1 <> v2 /\ hashValue v1 = hashValue v2.
Proof.
  destruct fingerprint_collision as (i & j & Hij & Hh).
  exists (letters (Datatypes.S i)), (letters (Datatypes.S j)).
  split; [|exact Hh]. intros H. apply letters_inj in H. lia.
Qed.

End keys_facts.



Example identifier_key_alice :
  KeyByIPAndIdentifier (net := IPv4.net) (uni := Latin1.unicode) None "email"
    (login_post "Alice@example.com")
  = ("ipident:10.0.0.5:ff8d9819fc0e12bf"%string, KeyTypeIPIdent).
Proof. vm_compute. reflexivity. Qed.

Example identifier_key_bob :
  KeyByIPAndIdentifier (net := IPv4.net) (uni := Latin1.unicode) None "email"
    (login_post "bob@example.com")
  = ("ipident:10.0.0.5:5ff860bf1190596c"%string, KeyTypeIPIdent).
Proof. vm_compute. reflexivity. Qed.

(** Letters outside ASCII are lower-cased through their code points, and
    white space outside ASCII is trimmed: [École@example.com] followed
    by a no-break space has the key of [école@example.com]. *)
Example identifier_key_ecole :
  let upper := String (ascii_of_nat 195) (String (ascii_of_nat 137)
                 "cole@example.com") in
  let lower := String (ascii_of_nat 195) (String (ascii_of_nat 169)
                 "cole@example.com") in
  let nbsp := String (ascii_of_nat 194) (String (ascii_of_nat 160)
                EmptyString) in
  KeyByIPAndIdentifier (net := IPv4.net) (uni := Latin1.unicode) None "email"
    (login_post (upper ++ nbsp))
  = KeyByIPAndIdentifier (net := IPv4.net) (uni := Latin1.unicode) None
      "email" (login_post lower).
Proof. vm_compute. reflexivity. Qed.


(** * Further properties of the package *)

(** ** bucket.go: refill and the admission budget *)

Section bucket_budget.












End bucket_budget.

(** X1.  [refill] is idempotent, as its comment says: a second refill at
    the same instant changes nothing, and an admission decides the same
    whether or not a refill at its instant came first. *)
Theorem refill_idempotent (b : Bucket) (cost now : Z) :
  Bucket_refill (Bucket_refill b now) now = Bucket_refill b now
  /\ Bucket_Allow (Bucket_refill b now) cost now = Bucket_Allow b cost now.
Proof.
  assert (H : Bucket_refill (Bucket_refill b now) now = Bucket_refill b now).
  { apply refill_noop. unfold Bucket_refill.
    qcases (Num.Seconds (now - LastRefill b)) 0%Q H; simpl; [|lia].
    destruct (Z_lt_le_dec (LastRefill b) now) as [Hlt|Hle]; [|exact Hle].
    exfalso. assert (0 < Num.Seconds (now - LastRefill b))%Q
      by (apply Seconds_pos; lia). lra. }
  split; [exact H|]. unfold Bucket_Allow. now rewrite H.
Qed.



(** ** store_memory.go: keys, reset, expiry, results *)

Section memory_store_more.

(** [MemoryStore.Allow] in one equation: [b] is the bucket it works on. *)
Lemma MemoryStore_Allow_eq (s : MemoryStore) (key : string) (p : Policy)
    (cost : Z) (clk : Clock) :
  let b := match s !! key with
           | Some e => bucket e
           | None => NewBucket p (at_new clk)
           end in
  let ba := Bucket_Allow b cost (at_call clk) in
  MemoryStore_Allow s key p cost clk
  = ({| Allowed := snd (fst ba);
        RLimit := Limit p + Burst p;
        Remaining := fst (fst ba);
        RetryAfter :=
          (if snd (fst ba) then 0
           else
             let x := Num.int_of_float (Bucket_RetryAfter (snd ba) cost) in
             if x <? 1 then 1 else x);
        ResetAt := Bucket_ResetUnix (snd ba) (at_reset clk) |},
     <[key := {| bucket := snd ba;
                 expiresAt := at_call clk + Window p * 2 |}]> s).
Proof.
  unfold MemoryStore_Allow.
  destruct (s !! key) as [e|]; cbn [bucket];
    match goal with
    | |- context [Bucket_Allow ?b cost (at_call clk)] =>
        destruct (Bucket_Allow b cost (at_call clk)) as [[rem al] b']
    end; reflexivity.
Qed.

(** The result for a key depends on the store through that key only. *)
Lemma Allow_result_lookup (s1 s2 : MemoryStore) (key : string) (p : Policy)
    (cost : Z) (clk : Clock) :
  s1 !! key = s2 !! key ->
  fst (MemoryStore_Allow s1 key p cost clk)
  = fst (MemoryStore_Allow s2 key p cost clk).
Proof. intros H. rewrite !MemoryStore_Allow_eq. cbv zeta. now rewrite H. Qed.

Lemma int_of_float_eq (x : Q) (z : Z) :
  (x == inject_Z z)%Q -> Num.int_of_float x = z.
Proof.
  intros H. unfold Num.int_of_float.
  destruct (Qle_bool 0 x); rewrite H; [apply Qfloor_Z|apply Qceiling_Z].
Qed.

(** A full bucket stays full under refill. *)
Lemma refill_full (p : Policy) (b : Bucket) (now : Z) :
  valid_policy p -> bucket_ok p b -> (Tokens b == MaxTokens b)%Q ->
  (Tokens (Bucket_refill b now) == MaxTokens b)%Q.
Proof.
  intros Hp (H0 & Hmax & HM & HR) Hfull.
  pose proof (refill_rate_pos p Hp) as Hr. rewrite <- HR in Hr.
  unfold Bucket_refill.
  qcases (Num.Seconds (now - LastRefill b)) 0%Q H; cbn [Tokens];
    [exact Hfull|].
  apply Q.min_l. nra.
Qed.

(** The first admission on a new bucket. *)
Lemma Allow_new_bucket (p : Policy) (cost t now : Z) :
  valid_policy p -> cost <= Limit p + Burst p ->
  fst (Bucket_Allow (NewBucket p t) cost now)
  = (Limit p + Burst p - cost, true).
Proof.
  intros Hp Hc.
  pose proof (refill_full p (NewBucket p t) now Hp (NewBucket_ok p t Hp)
                (Qeq_refl _)) as Hfull.
  cbn [NewBucket MaxTokens] in Hfull. unfold Bucket_Allow.
  set (b1 := Bucket_refill (NewBucket p t) now) in *.
  assert (Hle : (Num.float64 cost <= Tokens b1)%Q).
  { rewrite Hfull. unfold Num.float64. rewrite <- Zle_Qle. exact Hc. }
  apply Qle_bool_iff in Hle. rewrite Hle. cbn [fst Tokens]. f_equal.
  apply int_of_float_eq. rewrite Hfull. unfold Num.float64, Qminus.
  rewrite <- inject_Z_opp, <- inject_Z_plus. reflexivity.
Qed.

End memory_store_more.

(** X4.  Keys have independent buckets: an admission check or a reset of
    one key leaves the entry of every other key as it was, and does not
    change the result of a later check of another key. *)
Theorem memory_store_keys_independent (s : MemoryStore)
    (key key' : string) (p p' : Policy) (cost cost' : Z)
    (clk clk' : Clock) :
  key <> key' ->
  let s1 := snd (MemoryStore_Allow s key p cost clk) in
  let s2 := MemoryStore_Reset s key in
  s1 !! key' = s !! key'
  /\ s2 !! key' = s !! key'
  /\ fst (MemoryStore_Allow s1 key' p' cost' clk')
     = fst (MemoryStore_Allow s key' p' cost' clk')
  /\ fst (MemoryStore_Allow s2 key' p' cost' clk')
     = fst (MemoryStore_Allow s key' p' cost' clk').
Proof.
  intros Hne s1 s2.
  assert (H1 : s1 !! key' = s !! key').
  { unfold s1. rewrite MemoryStore_Allow_eq. cbn [snd].
    now apply lookup_insert_ne. }
  assert (H2 : s2 !! key' = s !! key')
    by (unfold s2, MemoryStore_Reset; now apply lookup_delete_ne).
  repeat split; try assumption; now apply Allow_result_lookup.
Qed.

(** [TestMemoryStore_DifferentKeysIndependent]. *)
Lemma memory_store_keys_independent_witness :
  let p := per_minute 1 in
  let s1 := snd (MemoryStore_Allow ∅ "key-a" p 1 (frozen 0)) in
  let s2 := snd (MemoryStore_Allow s1 "key-a" p 1 (frozen 0)) in
  fst (MemoryStore_Allow s2 "key-b" p 1 (frozen 0))
  = fst (MemoryStore_Allow s1 "key-b" p 1 (frozen 0)).
Proof.
  intros p s1 s2.
  destruct (memory_store_keys_independent s1 "key-a" "key-b" p p 1 1
              (frozen 0) (frozen 0)) as (_ & _ & H & _); [discriminate|].
  exact H.
Defined.

(** X5.  After [Reset(key)] the key has a full bucket again: the next
    request of cost at most [limit + burst] is admitted, with
    [Remaining = limit + burst - cost] and no wait, whatever the store
    held and whatever the clock shows.  [Reset] is idempotent. *)
Theorem reset_gives_full_bucket (p : Policy) (s : MemoryStore)
    (key : string) (cost : Z) (clk : Clock) :
  valid_policy p -> cost <= Limit p + Burst p ->
  let s' := MemoryStore_Reset s key in
  let r := fst (MemoryStore_Allow s' key p cost clk) in
  Allowed r = true
  /\ Remaining r = Limit p + Burst p - cost
  /\ RLimit r = Limit p + Burst p
  /\ RetryAfter r = 0
  /\ MemoryStore_Reset s' key = s'.
Proof.
  intros Hp Hc s' r.
  assert (Hnone : s' !! key = None) by apply lookup_delete_eq.
  unfold r. rewrite MemoryStore_Allow_eq, Hnone.
  cbn [fst Allowed Remaining RLimit RetryAfter].
  rewrite (Allow_new_bucket p cost (at_new clk) (at_call clk) Hp Hc).
  cbn [fst snd]. repeat split.
  unfold MemoryStore_Reset. apply delete_id. exact Hnone.
Qed.

(** [TestMemoryStore_Reset]: denied, reset, allowed. *)
Lemma reset_gives_full_bucket_witness :
  let p := per_minute 1 in
  let s := store_run p ∅ (repeat (SAllow "reset-key" 1 (frozen 0)) 2) in
  let r := fst (MemoryStore_Allow (MemoryStore_Reset s "reset-key")
                  "reset-key" p 1 (frozen 0)) in
  Allowed r = true /\ Remaining r = 0.
Proof.
  intros p s r.
  destruct (reset_gives_full_bucket p s "reset-key" 1 (frozen 0))
    as (H1 & H2 & _).
  - split; [reflexivity | reflexivity | discriminate].
  - discriminate.
  - split; [exact H1|exact H2].
Defined.

(** X6.  Expiry.  An entry touched at instant [now] under a policy with
    window [w] survives every sweep up to [now + 2w] and is removed by
    any later sweep; a sweep neither adds nor alters entries. *)
Theorem sweep_keeps_entries_for_two_windows (s : MemoryStore)
    (key : string) (p : Policy) (cost : Z) (clk : Clock) (t : Z) :
  let s1 := snd (MemoryStore_Allow s key p cost clk) in
  let deadline := at_call clk + Window p * 2 in
  (t <= deadline -> MemoryStore_sweep s1 t !! key = s1 !! key)
  /\ is_Some (s1 !! key)
  /\ (deadline < t -> MemoryStore_sweep s1 t !! key = None)
  /\ (forall k e, MemoryStore_sweep s1 t !! k = Some e -> s1 !! k = Some e).
Proof.
  intros s1 deadline.
  assert (Hk : s1 !! key
               = Some {| bucket := snd (Bucket_Allow
                           (match s !! key with
                            | Some e => bucket e
                            | None => NewBucket p (at_new clk)
                            end) cost (at_call clk));
                         expiresAt := deadline |}).
  { unfold s1. rewrite MemoryStore_Allow_eq. cbn [snd].
    apply lookup_insert_eq. }
  repeat split.
  - intros Ht. rewrite Hk. unfold MemoryStore_sweep.
    apply map_lookup_filter_Some. split; [exact Hk|].
    cbn [snd expiresAt]. destruct (Z.ltb_spec deadline t); [lia|reflexivity].
  - rewrite Hk. eauto.
  - intros Ht. unfold MemoryStore_sweep. apply map_lookup_filter_None.
    right. intros e He. rewrite Hk in He. injection He as <-.
    cbn [snd expiresAt]. destruct (Z.ltb_spec deadline t); [discriminate|lia].
  - intros k e He. unfold MemoryStore_sweep in He.
    apply map_lookup_filter_Some in He. apply He.
Qed.

Lemma sweep_keeps_entries_for_two_windows_witness :
  let p := per_minute 5 in
  let s1 := snd (MemoryStore_Allow ∅ "ip:1.2.3.4" p 1 (frozen 0)) in
  MemoryStore_sweep s1 (120 * Num.Second) !! "ip:1.2.3.4"%string
    = s1 !! "ip:1.2.3.4"%string
  /\ MemoryStore_sweep s1 (120 * Num.Second + 1) !! "ip:1.2.3.4"%string
     = None.
Proof.
  intros p s1.
  destruct (sweep_keeps_entries_for_two_windows ∅ "ip:1.2.3.4" p 1 (frozen 0)
              (120 * Num.Second)) as (H1 & _).
  destruct (sweep_keeps_entries_for_two_windows ∅ "ip:1.2.3.4" p 1 (frozen 0)
              (120 * Num.Second + 1)) as (_ & _ & H3 & _).
  split; [apply H1; discriminate|apply H3; reflexivity].
Defined.

(** X7.  The results of the memory store are well formed.  For a store
    all of whose buckets are governed by a valid policy and a request of
    non-negative cost: [Limit] is [limit + burst]; an admission reports
    [0 <= Remaining <= limit + burst - cost] and [RetryAfter = 0]; a
    denial reports [Remaining = 0] and [RetryAfter >= 1]; and [ResetAt]
    is not before the current second. *)
Theorem memory_result_well_formed (p : Policy) (s : MemoryStore)
    (key : string) (cost : Z) (clk : Clock) :
  valid_policy p -> store_ok p s -> 0 <= cost ->
  let r := fst (MemoryStore_Allow s key p cost clk) in
  RLimit r = Limit p + Burst p
  /\ (Allowed r = true ->
      0 <= Remaining r <= Limit p + Burst p - cost /\ RetryAfter r = 0)
  /\ (Allowed r = false -> Remaining r = 0 /\ 1 <= RetryAfter r)
  /\ Num.Unix (at_reset clk) <= ResetAt r.
Proof.
  intros Hp Hs Hc r. unfold r. rewrite MemoryStore_Allow_eq.
  cbn [fst Allowed RLimit Remaining RetryAfter ResetAt].
  set (b := match s !! key with
            | Some e => bucket e
            | None => NewBucket p (at_new clk)
            end).
  assert (Hb : bucket_ok p b).
  { unfold b. destruct (s !! key) as [e|] eqn:E;
      [exact (Hs key e E)|apply NewBucket_ok, Hp]. }
  pose proof (refill_ok p b (at_call clk) Hp Hb) as (H0 & Hmax & HM & HR).
  pose proof (Allow_ok p b cost (at_call clk) Hp Hc Hb) as (A0 & Amax & AM & AR).
  pose proof (refill_rate_pos p Hp) as Hr.
  split; [reflexivity|]. split; [|split].
  - unfold Bucket_Allow.
    qcases (Num.float64 cost) (Tokens (Bucket_refill b (at_call clk))) H;
      cbn [fst snd Tokens]; [|discriminate]. intros _.
    split; [|reflexivity]. unfold Num.float64 in *.
    rewrite int_of_float_nonneg by lra. split.
    + change 0 with (Qfloor 0). apply Qfloor_resp_le. lra.
    + rewrite <- (Qfloor_Z (Limit p + Burst p - cost)).
      apply Qfloor_resp_le. unfold Z.sub.
      rewrite inject_Z_plus, inject_Z_opp. unfold max_tokens in HM. lra.
  - intros Hden.
    destruct (denied_bucket_retry p Hp b cost (at_call clk) Hb Hden)
      as [H1 H2].
    rewrite Hden. split; [exact H1|]. apply H2.
  - unfold Bucket_ResetUnix.
    set (b' := snd (Bucket_Allow b cost (at_call clk))) in *.
    qcases (MaxTokens b' - Tokens b')%Q 0%Q Hd; [lia|].
    unfold Num.Unix. apply Z.div_le_mono; [reflexivity|].
    assert (Hsec : (0 <= (MaxTokens b' - Tokens b') / RefillRate b'
                         * Num.float64 Num.Second)%Q).
    { apply Qmult_le_0_compat; [|discriminate].
      apply Qle_shift_div_l; lra. }
    rewrite (int_of_float_nonneg _ Hsec).
    assert (0 <= Qfloor ((MaxTokens b' - Tokens b') / RefillRate b'
                         * Num.float64 Num.Second)).
    { change 0 with (Qfloor 0). now apply Qfloor_resp_le. }
    lia.
Qed.

(** [TestMemoryStore_Headers]: limit 10, burst 5, first request. *)
Lemma memory_result_well_formed_witness :
  let p := {| Limit := 10; Window := 60 * Num.Second; Burst := 5;
              Scope := "test"; Enabled := true; Cost := 1;
              ConcurrencyLimit := 0 |} in
  let r := fst (MemoryStore_Allow ∅ "header-key" p 1 (frozen some_instant)) in
  RLimit r = 15
  /\ (Allowed r = true -> 0 <= Remaining r <= 14 /\ RetryAfter r = 0)
  /\ (Allowed r = false -> Remaining r = 0 /\ 1 <= RetryAfter r)
  /\ Num.Unix some_instant <= ResetAt r.
Proof.
  intros p r.
  apply (memory_result_well_formed p ∅ "header-key" 1 (frozen some_instant)).
  - split; [reflexivity | reflexivity | discriminate].
  - apply store_ok_empty.
  - discriminate.
Defined.

(** ** bucket.go and store_redis.go: the concurrency stores *)

Section concurrency_facts.

Lemma inflight_get_spec (m : gmap string Z) (key : string) :
  inflight_get m key = match m !! key with Some n => n | None => 0 end.
Proof. unfold inflight_get. destruct (m !! key); reflexivity. Qed.

Lemma inflight_get_nonneg (m : gmap string Z) (key : string) :
  counts_positive m -> 0 <= inflight_get m key.
Proof.
  intros Hm. rewrite inflight_get_spec.
  destruct (m !! key) as [n|] eqn:E; [|lia].
  pose proof (Hm key n E). lia.
Qed.

Lemma Acquire_refused (m m1 : gmap string Z) (key : string) (limit : Z)
    (e : option string) :
  MemoryConcurrencyStore_Acquire m key limit = ((false, e), m1) -> m1 = m.
Proof.
  unfold MemoryConcurrencyStore_Acquire.
  destruct (limit <=? inflight_get m key); intros [= <- <-]; reflexivity.
Qed.

Lemma Acquire_Release (m m1 : gmap string Z) (key : string) (limit : Z)
    (e : option string) :
  counts_positive m ->
  MemoryConcurrencyStore_Acquire m key limit = ((true, e), m1) ->
  MemoryConcurrencyStore_Release m1 key = (None, m).
Proof.
  intros Hm. pose proof (inflight_get_nonneg m key Hm) as Hg.
  unfold MemoryConcurrencyStore_Acquire.
  destruct (limit <=? inflight_get m key); intros [= <- <-].
  unfold MemoryConcurrencyStore_Release.
  assert (Hg1 : inflight_get (<[key := inflight_get m key + 1]> m) key
                = inflight_get m key + 1)
    by (unfold inflight_get at 1; now rewrite lookup_insert_eq).
  rewrite Hg1. destruct (Z.ltb_spec 0 (inflight_get m key + 1)); [|lia].
  rewrite insert_insert_eq.
  replace (inflight_get m key + 1 - 1) with (inflight_get m key) by lia.
  assert (Hg2 : inflight_get (<[key := inflight_get m key]> m) key
                = inflight_get m key)
    by (unfold inflight_get at 1; now rewrite lookup_insert_eq).
  rewrite Hg2. f_equal.
  rewrite inflight_get_spec. clear Hg Hg1 Hg2 H.
  destruct (m !! key) as [n|] eqn:E.
  - pose proof (Hm key n E).
    destruct (Z.eqb_spec n 0); [lia|]. now apply insert_id.
  - cbn. rewrite delete_insert_eq. now apply delete_id.
Qed.

Lemma conc_step_within (limit : Z) (m : gmap string Z) (op : ConcOp) :
  counts_within limit m -> counts_within limit (conc_step limit m op).
Proof.
  intros Hm.
  assert (Hpos : counts_positive m)
    by (intros k n E; pose proof (Hm k n E); lia).
  destruct op as [key|key]; cbn [conc_step].
  - unfold MemoryConcurrencyStore_Acquire.
    pose proof (inflight_get_nonneg m key Hpos).
    destruct (Z.leb_spec limit (inflight_get m key)); cbn [snd]; [exact Hm|].
    intros k n. rewrite lookup_insert.
    destruct (decide (key = k)); [intros [= <-]; lia|apply Hm].
  - unfold MemoryConcurrencyStore_Release. cbn [snd].
    set (m1 := if 0 <? inflight_get m key
               then <[key := inflight_get m key - 1]> m else m).
    assert (H1 : forall k n, m1 !! k = Some n ->
                   (k = key /\ 0 <= n <= limit) \/ (k <> key /\ 1 <= n <= limit)
                   \/ 1 <= n <= limit).
    { unfold m1. intros k n.
      destruct (Z.ltb_spec 0 (inflight_get m key)).
      - rewrite lookup_insert. destruct (decide (key = k)) as [<-|Hne].
        + intros [= <-]. left. split; [reflexivity|].
          rewrite inflight_get_spec in *. destruct (m !! key) as [x|] eqn:E;
            [pose proof (Hm key x E)|]; lia.
        + intros E. right. left. split; [congruence|exact (Hm k n E)].
      - intros E. right. right. exact (Hm k n E). }
    intros k n.
    destruct (Z.eqb_spec (inflight_get m1 key) 0) as [Hz|Hz].
    + rewrite lookup_delete. destruct (decide (key = k)); [discriminate|].
      intros E. destruct (H1 k n E) as [[-> _]|[[_ ?]|?]];
        [congruence|assumption|assumption].
    + intros E. destruct (H1 k n E) as [[-> ?]|[[_ ?]|?]]; try assumption.
      rewrite inflight_get_spec, E in Hz. lia.
Qed.

End concurrency_facts.

(** X8.  The in-memory concurrency store never counts more than [limit]
    requests in flight for a key: after any sequence of [Acquire(key,
    limit)] and [Release(key)] calls on a new store, every stored count
    lies between 1 and [limit] (a count of zero is removed), so the
    count read for any key lies between 0 and [limit]. *)
Theorem memory_concurrency_within_limit (limit : Z) (ops : list ConcOp)
    (key : string) :
  let m := conc_run limit ∅ ops in
  counts_within limit m
  /\ 0 <= inflight_get m key <= Z.max 0 limit.
Proof.
  intros m.
  assert (H : counts_within limit m).
  { unfold m, conc_run.
    assert (H0 : counts_within limit (∅ : gmap string Z))
      by (intros k n E; rewrite lookup_empty in E; discriminate).
    revert H0. generalize (∅ : gmap string Z).
    induction ops as [|op ops IH]; intros m0 H0; [exact H0|].
    cbn [fold_left]. apply IH. now apply conc_step_within. }
  split; [exact H|]. rewrite inflight_get_spec.
  destruct (m !! key) as [n|] eqn:E; [pose proof (H key n E)|]; lia.
Qed.

(** X9.  A slot taken and given back leaves the in-memory concurrency
    store as it was; releasing a key that holds no slot changes nothing;
    neither call returns an error. *)
Theorem memory_acquire_release_round_trip (m : gmap string Z)
    (key : string) (limit : Z) :
  counts_positive m ->
  (fst (fst (MemoryConcurrencyStore_Acquire m key limit)) = true ->
   snd (MemoryConcurrencyStore_Release
          (snd (MemoryConcurrencyStore_Acquire m key limit)) key) = m)
  /\ (fst (fst (MemoryConcurrencyStore_Acquire m key limit)) = false ->
      snd (MemoryConcurrencyStore_Acquire m key limit) = m
      /\ limit <= inflight_get m key)
  /\ (m !! key = None -> snd (MemoryConcurrencyStore_Release m key) = m)
  /\ snd (fst (MemoryConcurrencyStore_Acquire m key limit)) = None
  /\ fst (MemoryConcurrencyStore_Release m key) = None.
Proof.
  intros Hm. split; [|split; [|split; [|split]]].
  - destruct (MemoryConcurrencyStore_Acquire m key limit) as [[ok e] m1] eqn:E.
    cbn [fst snd]. intros ->.
    now rewrite (Acquire_Release m m1 key limit e Hm E).
  - unfold MemoryConcurrencyStore_Acquire.
    destruct (Z.leb_spec limit (inflight_get m key)); cbn [fst snd];
      [auto|discriminate].
  - intros Hn. unfold MemoryConcurrencyStore_Release, inflight_get.
    rewrite Hn. cbn. rewrite Hn. cbn. now apply delete_id.
  - unfold MemoryConcurrencyStore_Acquire.
    now destruct (limit <=? inflight_get m key).
  - reflexivity.
Qed.

(** [TestMemoryConcurrencyStore]: one slot of two taken under [k1]. *)
Lemma memory_acquire_release_round_trip_witness :
  let m : gmap string Z := {[ "k1"%string := 1 ]} in
  snd (MemoryConcurrencyStore_Release
         (snd (MemoryConcurrencyStore_Acquire m "k1" 2)) "k1") = m
  /\ snd (MemoryConcurrencyStore_Release m "k2") = m.
Proof.
  intros m.
  assert (Hm : counts_positive m).
  { intros k n E. apply lookup_singleton_Some in E as [_ <-]. reflexivity. }
  destruct (memory_acquire_release_round_trip m "k1" 2 Hm) as (H1 & _).
  destruct (memory_acquire_release_round_trip m "k2" 2 Hm) as (_ & _ & H3 & _).
  split; [apply H1; reflexivity|apply H3; reflexivity].
Defined.

(** X10.  The Redis concurrency store never stores a count above
    [limit]: after any sequence of [Acquire(key, limit)] and
    [Release(key)] calls on an empty server, with the server going down
    and coming back in between, every stored counter lies between 1 and
    [limit]; while the server is down no call changes a counter. *)
Theorem redis_concurrency_within_limit (prefix : string) (ttl limit : Z)
    (ops : list RedisConcOp) :
  let srv := fold_left (redis_conc_step prefix ttl limit) ops
               {| counters := ∅; cfault := None |} in
  redis_counts_within limit srv
  /\ (forall (s : RedisCounters) (key : string),
        cfault s <> None ->
        counters (snd (RedisConcurrencyStore_Acquire prefix ttl s key limit))
        = counters s
        /\ counters (snd (RedisConcurrencyStore_Release prefix s key))
           = counters s).
Proof.
  intros srv. split.
  - unfold srv.
    assert (H0 : redis_counts_within limit {| counters := ∅; cfault := None |})
      by (intros k n t E; cbn in E; rewrite lookup_empty in E; discriminate).
    revert H0. generalize {| counters := ∅; cfault := None |}.
    induction ops as [|op ops IH]; intros s0 H0; [exact H0|].
    cbn [fold_left]. apply IH. clear IH.
    destruct op as [key|key|err]; cbn [redis_conc_step].
    + unfold RedisConcurrencyStore_Acquire.
      destruct (cfault s0); cbn [snd]; [exact H0|].
      unfold luaConcAcquire.
      destruct (counters s0 !! (prefix ++ key)%string) as [[cur t0]|] eqn:E.
      * destruct (Z.leb_spec limit cur); cbn [snd]; intros k n t;
          cbn [counters]; rewrite lookup_insert;
          destruct (decide ((prefix ++ key)%string = k)) as [<-|Hne];
          try (intros [= <- <-]); try apply H0;
          pose proof (H0 _ _ _ E); lia.
      * destruct (Z.leb_spec limit 0); cbn [snd]; [exact H0|].
        intros k n t; cbn [counters]; rewrite lookup_insert.
        destruct (decide ((prefix ++ key)%string = k)) as [<-|Hne];
          [intros [= <- <-]; lia|apply H0].
    + unfold RedisConcurrencyStore_Release.
      destruct (cfault s0); cbn [snd]; [exact H0|].
      destruct (counters s0 !! (prefix ++ key)%string) as [[cur t0]|] eqn:E;
        cbn [from_option id].
      * destruct (Z.leb_spec (cur - 1) 0); cbn [snd]; intros k n t;
          cbn [counters].
        -- rewrite lookup_delete.
           destruct (decide ((prefix ++ key)%string = k)); [discriminate|].
           apply H0.
        -- rewrite lookup_insert.
           destruct (decide ((prefix ++ key)%string = k)) as [<-|Hne];
             [intros [= <- <-]; pose proof (H0 _ _ _ E); lia|apply H0].
      * change (0 - 1 <=? 0) with true. cbn [snd].
        intros k n t; cbn [counters]. rewrite lookup_delete.
        destruct (decide ((prefix ++ key)%string = k)); [discriminate|].
        apply H0.
    + exact H0.
  - intros s key Hf.
    unfold RedisConcurrencyStore_Acquire, RedisConcurrencyStore_Release.
    destruct (cfault s); [split; reflexivity|congruence].
Qed.

(** ** store_redis.go: the bucket script *)

Section redis_bucket_facts.

Lemma round_half_even_nonneg (x : Q) : (0 <= x)%Q -> 0 <= round_half_even x.
Proof.
  intros H. unfold round_half_even.
  assert (Hf : 0 <= Qfloor x)
    by (change 0 with (Qfloor 0); now apply Qfloor_resp_le).
  destruct (_ ?= _)%Q; [destruct (Z.even _)|..]; lia.
Qed.

Lemma fmt4_nonneg (x : Q) : (0 <= x)%Q -> (0 <= fmt4 x)%Q.
Proof.
  intros H. unfold fmt4. apply Qle_shift_div_l; [reflexivity|].
  rewrite Qmult_0_l. change 0%Q with (inject_Z 0). rewrite <- Zle_Qle.
  apply round_half_even_nonneg. nra.
Qed.

(** Four decimals hold every whole number. *)
Lemma fmt4_inject (n : Z) : (fmt4 (inject_Z n) == inject_Z n)%Q.
Proof.
  unfold fmt4, round_half_even.
  assert (Hx : (inject_Z n * 10000 == inject_Z (n * 10000))%Q)
    by (rewrite inject_Z_mult; reflexivity).
  assert (Hf : Qfloor (inject_Z n * 10000) = n * 10000)
    by (rewrite Hx; apply Qfloor_Z).
  rewrite Hf.
  assert (Hc : ((inject_Z n * 10000 - inject_Z (n * 10000)) ?= 1 # 2)%Q = Lt).
  { apply Qlt_alt. rewrite Hx. unfold Qminus. rewrite Qplus_opp_r.
    reflexivity. }
  rewrite Hc, inject_Z_mult. field.
Qed.

(** The script keeps the tokens between zero and the capacity it is
    given. *)
Lemma luaTokenBucket_tokens (stored : option RedisHash) (max rate : Q)
    (cost now_ms ttl : Z) :
  (0 <= max)%Q -> (0 <= rate)%Q -> 0 <= cost ->
  (forall h, stored = Some h -> (0 <= h_tokens h)%Q /\ (h_tokens h <= max)%Q) ->
  let h' := snd (luaTokenBucket stored max rate cost now_ms ttl) in
  (0 <= h_tokens h')%Q /\ (h_tokens h' <= max)%Q.
Proof.
  intros Hmax Hrate Hcost Hst.
  assert (Hc : (0 <= inject_Z cost)%Q)
    by (change 0%Q with (inject_Z 0); now rewrite <- Zle_Qle).
  unfold luaTokenBucket.
  set (tl := match stored with
             | Some h => (h_tokens h, h_last_ms h)
             | None => (max, now_ms)
             end).
  assert (Ht : (0 <= fst tl)%Q /\ (fst tl <= max)%Q).
  { unfold tl. destruct stored as [h|]; cbn [fst];
      [now apply Hst|split; [exact Hmax|apply Qle_refl]]. }
  destruct tl as [tokens last_ms]. cbn [fst] in Ht. destruct Ht as [Ht0 Ht1].
  qcases (inject_Z (now_ms - last_ms) / 1000)%Q 0%Q He.
  - qcases (inject_Z cost) tokens Hadm; cbn [snd h_tokens]; split; lra.
  - assert (Hr0 : (0 <= Qmin max (tokens
                              + inject_Z (now_ms - last_ms) / 1000 * rate))%Q)
      by (apply Q.min_glb; [exact Hmax|nra]).
    pose proof (Q.le_min_l max
                  (tokens + inject_Z (now_ms - last_ms) / 1000 * rate)) as Hr1.
    qcases (inject_Z cost)
           (Qmin max (tokens + inject_Z (now_ms - last_ms) / 1000 * rate))
           Hadm; cbn [snd h_tokens]; split; lra.
Qed.

Lemma redis_ok_Allow (prefix : string) (p : Policy) (srv : RedisServer)
    (key : string) (cost now : Z) :
  valid_policy p -> 0 <= cost -> redis_ok p srv ->
  redis_ok p (snd (RedisStore_Allow prefix srv key p cost now)).
Proof.
  intros Hp Hc Hok. unfold RedisStore_Allow, run_luaTokenBucket.
  destruct (fault srv); cbn [snd]; [exact Hok|].
  pose proof (max_tokens_pos p Hp) as Hm.
  pose proof (refill_rate_pos p Hp) as Hr.
  pose proof (fmt4_inject (Limit p + Burst p)) as Hmax.
  match goal with
  | |- context [luaTokenBucket ?st ?mx ?rt cost ?nw ?tt] =>
      pose proof (luaTokenBucket_tokens st mx rt cost nw tt) as Hl;
      destruct (luaTokenBucket st mx rt cost nw tt) as [[[[v0 v1] v2] v3] h']
  end.
  cbn [snd] in *. unfold Num.float64 in Hl.
  assert (Hh : (0 <= h_tokens h')%Q
               /\ (h_tokens h' <= fmt4 (inject_Z (Limit p + Burst p)))%Q).
  { apply Hl; [| |exact Hc|].
    - rewrite Hmax. change 0%Q with (inject_Z 0). rewrite <- Zle_Qle.
      unfold max_tokens in Hm. lia.
    - apply fmt4_nonneg. apply Qlt_le_weak. exact Hr.
    - intros h Hs. destruct (Hok _ _ Hs) as [H0 H1]. split; [exact H0|].
      rewrite Hmax. exact H1. }
  intros k h. cbn [keyspace]. rewrite lookup_insert.
  destruct (decide ((prefix ++ key)%string = k)).
  - intros [= <-]. destruct Hh as [H0 H1]. split; [exact H0|].
    rewrite Hmax in H1. exact H1.
  - apply Hok.
Qed.

End redis_bucket_facts.

(** A server that is down refuses nothing and counts nothing. *)
Lemma redis_concurrency_within_limit_witness :
  counters (snd (RedisConcurrencyStore_Acquire "gohst:rl:" 60
                   {| counters := ∅; cfault := Some "connection refused"%string |}
                   "ip:203.0.113.9" 2))
  = ∅.
Proof.
  apply (proj2 (redis_concurrency_within_limit "gohst:rl:" 60 2
                  [RAcquire "ip:203.0.113.9"])
           {| counters := ∅; cfault := Some "connection refused"%string |}
           "ip:203.0.113.9").
  discriminate.
Defined.

(** X11.  The Redis store keeps every bucket within its capacity: on a
    server that starts empty, after any sequence of admission checks of
    non-negative cost under a valid policy, resets and outages, every
    stored hash holds between 0 and [limit + burst] tokens. *)
Theorem redis_tokens_bounded (prefix : string) (p : Policy)
    (ops : list RedisOp) :
  valid_policy p ->
  Forall (fun op => match op with RdAllow _ cost _ => 0 <= cost | _ => True end)
         ops ->
  redis_ok p (fold_left (redis_step prefix p) ops redis_empty).
Proof.
  intros Hp.
  assert (H0 : redis_ok p redis_empty)
    by (intros k h E; cbn in E; rewrite lookup_empty in E; discriminate).
  revert H0. generalize redis_empty.
  induction ops as [|op ops IH]; intros srv H0 Hall; [exact H0|].
  inversion Hall; subst. cbn [fold_left]. apply IH; [|assumption].
  destruct op as [key cost now|key|err]; cbn [redis_step].
  - now apply redis_ok_Allow.
  - unfold RedisStore_Reset. destruct (fault srv); [exact H0|].
    intros k h E. cbn [keyspace] in E.
    apply lookup_delete_Some in E. apply (H0 k h), E.
  - exact H0.
Qed.

Lemma redis_tokens_bounded_witness :
  redis_ok eight_a_minute
    (fold_left (redis_step "gohst:rl:" eight_a_minute)
       [RdAllow "ip:203.0.113.9" 5 some_instant;
        RdFault (Some "timeout"%string);
        RdAllow "ip:203.0.113.9" 5 some_instant;
        RdFault None;
        RdAllow "ip:203.0.113.9" 5 (some_instant + 30 * Num.Second);
        RdReset "ip:198.51.100.7"]
       redis_empty).
Proof.
  apply (redis_tokens_bounded "gohst:rl:" eight_a_minute).
  - split; [reflexivity | reflexivity | discriminate].
  - repeat constructor; discriminate.
Defined.

(** X12.  After [Reset(key)] on a server that answers, the Redis store
    starts the key from a full bucket: the next request of cost at most
    [limit + burst] is admitted with [Remaining = limit + burst - cost]
    and no wait.  While the server is down, [Reset] removes nothing. *)
Theorem redis_reset_gives_full_bucket (prefix : string) (p : Policy)
    (srv : RedisServer) (key : string) (cost now : Z) :
  fault srv = None -> cost <= Limit p + Burst p ->
  let srv' := RedisStore_Reset prefix srv key in
  let r := fst (RedisStore_Allow prefix srv' key p cost now) in
  Allowed r = true
  /\ Remaining r = Limit p + Burst p - cost
  /\ RLimit r = Limit p + Burst p
  /\ RetryAfter r = 0
  /\ (forall (down : RedisServer) (k : string),
        fault down <> None -> RedisStore_Reset prefix down k = down).
Proof.
  intros Hf Hc srv' r.
  assert (Hlast : forall down k,
            fault down <> None -> RedisStore_Reset prefix down k = down).
  { intros down k Hd. unfold RedisStore_Reset.
    destruct (fault down); [reflexivity|congruence]. }
  assert (Hnone : keyspace srv' !! (prefix ++ key)%string = None).
  { unfold srv', RedisStore_Reset. rewrite Hf. cbn [keyspace].
    apply lookup_delete_eq. }
  assert (Hf' : fault srv' = None)
    by (unfold srv', RedisStore_Reset; now rewrite Hf).
  pose proof (fmt4_inject (Limit p + Burst p)) as Hmax.
  unfold r, RedisStore_Allow, run_luaTokenBucket. rewrite Hf', Hnone.
  unfold luaTokenBucket. rewrite Z.sub_diag.
  change (Qle_bool (inject_Z 0 / 1000) 0) with true. cbv iota.
  assert (Hle : (inject_Z cost <= fmt4 (Num.float64 (Limit p + Burst p)))%Q).
  { unfold Num.float64. rewrite Hmax, <- Zle_Qle. exact Hc. }
  apply Qle_bool_iff in Hle. rewrite Hle.
  cbn [fst Allowed Remaining RLimit RetryAfter Z.eqb Pos.eqb negb andb].
  repeat split; try reflexivity; [|exact Hlast].
  rewrite <- (Qfloor_Z (Limit p + Burst p - cost)).
  apply Qfloor_comp. unfold Num.float64. rewrite Hmax. unfold Z.sub.
  rewrite !inject_Z_plus, inject_Z_opp. ring.
Qed.

Lemma redis_reset_gives_full_bucket_witness :
  let srv := snd (RedisStore_Allow "gohst:rl:" redis_empty "ip:203.0.113.9"
                    eight_a_minute 5 some_instant) in
  let r := fst (RedisStore_Allow "gohst:rl:"
                  (RedisStore_Reset "gohst:rl:" srv "ip:203.0.113.9")
                  "ip:203.0.113.9" eight_a_minute 5 some_instant) in
  Allowed r = true /\ Remaining r = 3.
Proof.
  intros srv r.
  destruct (redis_reset_gives_full_bucket "gohst:rl:" eight_a_minute srv
              "ip:203.0.113.9" 5 some_instant) as (H1 & H2 & _).
  - reflexivity.
  - discriminate.
  - split; [exact H1|exact H2].
Defined.

(** ** middleware.go: pass-through, headers, slots, the deny log *)

(** X13.  A limiter that is switched off, globally or in its policy, or
    whose allowlist has a rule matching the request, sends the request
    downstream without setting a header, writing a log message or
    touching the store and the concurrency store. *)
Theorem bypassed_request_untouched {net : Net} {S CS : Type}
    (cfg : RateLimitConfig) (l : Limiter (S := S) (CS := CS))
    (r : Request) (clk : Clock) (st : S * CS) :
  CfgEnabled cfg = false \/ Enabled (policy l) = false
  \/ (exists rule, In rule (allowlist l) /\ Matches (Some cfg) rule r = true) ->
  Middleware cfg l r clk st
  = ({| sent := Downstream; headers := ∅; logged := []; entries := [] |}, st).
Proof.
  intros H. apply Middleware_not_limited. unfold limited.
  destruct H as [->|[->|(rule & Hin & Hm)]].
  - reflexivity.
  - apply andb_false_iff. left. apply andb_false_r.
  - apply andb_false_iff. right. apply negb_false_iff.
    apply existsb_exists. eauto.
Qed.

(** Scenario 6 of the specification: [/healthz] is on the allowlist, and
    the bucket of the client, already empty, is left alone. *)
Lemma bypassed_request_untouched_witness :
  let cfg := config_with [] in
  let l := WithAllowlist [BypassPaths ["/healthz"%string]]
             (limiter_by_ip (CS := unit) MemoryStore_Store None
                (per_minute 1) cfg) in
  let r := {| Method := "GET"; URL_Path := "/healthz";
              RemoteAddr := "1.2.3.4:1234"; Header := [];
              URL_Query := []; PostForm := [] |} in
  let s := store_run (per_minute 1) ∅
             (repeat (SAllow "ip:1.2.3.4" 1 (frozen 0)) 2) in
  Middleware (net := IPv4.net) cfg l r (frozen 0) (s, tt)
  = ({| sent := Downstream; headers := ∅; logged := []; entries := [] |},
     (s, tt)).
Proof.
  intros cfg l r s.
  apply (bypassed_request_untouched (net := IPv4.net) cfg l r (frozen 0) (s, tt)).
  right. right. exists (BypassPaths ["/healthz"%string]).
  split; [left; reflexivity|reflexivity].
Defined.

Section header_facts.
Context {net : Net} {S CS : Type}.
Variable cfg : RateLimitConfig.
Implicit Types (l : Limiter (S := S) (CS := CS)) (r : Request).

(** What the rate check sends and the headers it sets, by the result of
    the store. *)
Lemma rate_check_headers l r (clk : Clock) (key kt : string) (cost : Z)
    (s : S) :
  let res := fst (Store_Allow (store l) s key (policy l) cost clk) in
  let out := fst (rate_check cfg l r clk key kt cost [] s) in
  (headers out !! "X-RateLimit-Limit"%string = Some (Itoa (RLimit res))
   /\ headers out !! "X-RateLimit-Remaining"%string
      = Some (Itoa (Remaining res))
   /\ headers out !! "X-RateLimit-Reset"%string = Some (Itoa (ResetAt res)))
  /\ (Allowed res = true ->
      sent out = Downstream
      /\ headers out !! "Retry-After"%string = None)
  /\ (Allowed res = false ->
      sent out <> Downstream
      /\ (onLimit l = None ->
          sent out = default_429 cfg r (RetryAfter res)
          /\ headers out !! "Retry-After"%string
             = Some (Itoa (RetryAfter res))
          /\ headers out !! "Content-Type"%string
             = Some (match sent out with
                     | TooManyRequests contentType _ => contentType
                     | _ => EmptyString
                     end))).
Proof.
  cbv zeta. unfold rate_check.
  destruct (Store_Allow (store l) s key (policy l) cost clk) as [res s'].
  cbn [fst].
  destruct (Allowed res) eqn:Ha; cbn [negb fst].
  - split; [|split]; [| |discriminate].
    + cbn [headers]. unfold setRateLimitHeaders.
      repeat split;
        repeat (rewrite lookup_insert_ne by discriminate);
        apply lookup_insert_eq.
    + intros _. split; [reflexivity|]. cbn [headers].
      unfold setRateLimitHeaders.
      repeat (rewrite lookup_insert_ne by discriminate).
      apply lookup_empty.
  - split; [|split]; [|discriminate|].
    + unfold denyResponse.
      destruct (logStore l) as [f|]; [destruct (f _)|];
        destruct (match onLimit l with Some f => f r res | None => false end);
        try destruct (String.eqb _ "json");
        cbn [headers]; unfold setRateLimitHeaders;
        repeat split;
        repeat (rewrite lookup_insert_ne by discriminate);
        apply lookup_insert_eq.
    + intros _. split; [apply denyResponse_not_downstream|].
      intros Hon. split; [now apply denyResponse_default|].
      unfold denyResponse. rewrite Hon.
      destruct (logStore l) as [f|]; [destruct (f _)|];
        destruct (String.eqb _ "json");
        cbn [headers sent]; unfold setRateLimitHeaders;
        split;
        repeat (rewrite lookup_insert_ne by discriminate);
        apply lookup_insert_eq.
Qed.

(** A request that reaches the rate check: what is sent and the headers
    are the rate check's. *)
Lemma Middleware_rate_checked l r (clk : Clock) (s : S) (cs : CS) :
  limited cfg l r = true ->
  (forall c, concurrencyStore l = Some c ->
     0 < ConcurrencyLimit (policy l) ->
     fst (fst (Acquire c cs (fst (keyFunc l r))
                 (ConcurrencyLimit (policy l)))) = true) ->
  let out := fst (Middleware cfg l r clk (s, cs)) in
  let rc := fst (rate_check cfg l r clk (fst (keyFunc l r))
                   (snd (keyFunc l r)) (charged (policy l)) [] s) in
  sent out = sent rc /\ headers out = headers rc.
Proof.
  intros Hlim Hacq. cbv zeta.
  destruct (concurrencyStore l) as [c|] eqn:Hc.
  - destruct (Z_lt_le_dec 0 (ConcurrencyLimit (policy l))) as [Hpos|Hle].
    + specialize (Hacq c eq_refl Hpos).
      destruct (Acquire c cs (fst (keyFunc l r))
                  (ConcurrencyLimit (policy l))) as [[ok e] cs1] eqn:Ea.
      cbn [fst] in Hacq. subst ok.
      destruct (Release c cs1 (fst (keyFunc l r))) as [re cs2] eqn:Er.
      destruct (Middleware_slot_granted cfg l r clk s cs cs1 cs2 c e re
                  Hlim Hc Hpos Ea Er) as (Hs & Hh & _).
      now split.
    + rewrite (Middleware_no_concurrency cfg l r clk s cs Hlim
                 (or_intror Hle)). now split.
  - rewrite (Middleware_no_concurrency cfg l r clk s cs Hlim
               (or_introl Hc)). now split.
Qed.

End header_facts.

(** X14.  Every request that reaches the rate check -- the limiter has
    no concurrency stage, or the slot was granted -- carries the
    rate-limit headers of the store's result, admitted or denied, with
    or without a custom handler.  An admitted request goes downstream
    without [Retry-After]; a denied one does not go downstream and,
    absent a custom handler, gets the limiter's 429 with [Retry-After]
    set to the result's wait and a [Content-Type] that is the one of the
    body: JSON when the [Accept] header mentions JSON or the configured
    default is [json], HTML otherwise. *)
Theorem rate_limit_headers_follow_result {net : Net} {S CS : Type}
    (cfg : RateLimitConfig) (l : Limiter (S := S) (CS := CS))
    (r : Request) (clk : Clock) (s : S) (cs : CS) :
  limited cfg l r = true ->
  (forall c, concurrencyStore l = Some c ->
     0 < ConcurrencyLimit (policy l) ->
     fst (fst (Acquire c cs (fst (keyFunc l r))
                 (ConcurrencyLimit (policy l)))) = true) ->
  let res := fst (Store_Allow (store l) s (fst (keyFunc l r)) (policy l)
                    (charged (policy l)) clk) in
  let out := fst (Middleware cfg l r clk (s, cs)) in
  let json := containsJSON (Header_Get r "Accept")
              || String.eqb (DefaultResponseFormat cfg) "json" in
  (headers out !! "X-RateLimit-Limit"%string = Some (Itoa (RLimit res))
   /\ headers out !! "X-RateLimit-Remaining"%string
      = Some (Itoa (Remaining res))
   /\ headers out !! "X-RateLimit-Reset"%string = Some (Itoa (ResetAt res)))
  /\ (Allowed res = true ->
      sent out = Downstream
      /\ headers out !! "Retry-After"%string = None)
  /\ (Allowed res = false ->
      sent out <> Downstream
      /\ (onLimit l = None ->
          headers out !! "Retry-After"%string
          = Some (Itoa (RetryAfter res))
          /\ (json = true ->
              sent out = TooManyRequests "application/json; charset=utf-8"
                           (json_body (RetryAfter res))
              /\ headers out !! "Content-Type"%string
                 = Some "application/json; charset=utf-8"%string)
          /\ (json = false ->
              sent out = TooManyRequests "text/html; charset=utf-8"
                           (html_body (RetryAfter res))
              /\ headers out !! "Content-Type"%string
                 = Some "text/html; charset=utf-8"%string))).
Proof.
  intros Hlim Hacq. cbv zeta.
  destruct (Middleware_rate_checked cfg l r clk s cs Hlim Hacq) as [-> ->].
  destruct (rate_check_headers cfg l r clk (fst (keyFunc l r))
              (snd (keyFunc l r)) (charged (policy l)) s)
    as (H1 & H2 & H3).
  split; [exact H1|]. split; [exact H2|].
  intros Hd. destruct (H3 Hd) as [Hnd Hdef]. split; [exact Hnd|].
  intros Hon. destruct (Hdef Hon) as (Hsent & Hretry & Hct).
  split; [exact Hretry|].
  rewrite Hct, Hsent. unfold default_429.
  split; intros ->; split; reflexivity.
Qed.

(** [TestMiddleware_JSONResponse]: the second request of a minute. *)
Lemma rate_limit_headers_follow_result_witness :
  let cfg := config_with [] in
  let l := limiter_by_ip (CS := unit) MemoryStore_Store None
             (per_minute 1) cfg in
  let r := request "GET" "5.6.7.8:1234" [] [] in
  let s := fst (snd (Middleware (net := IPv4.net) cfg l r (frozen 0)
                       (∅, tt))) in
  let out := fst (Middleware (net := IPv4.net) cfg l r (frozen 0) (s, tt)) in
  headers out !! "X-RateLimit-Limit"%string = Some "1"%string
  /\ headers out !! "Retry-After"%string = Some "60"%string
  /\ headers out !! "Content-Type"%string
     = Some "application/json; charset=utf-8"%string.
Proof.
  intros cfg l r s out.
  destruct (rate_limit_headers_follow_result (net := IPv4.net) cfg l r
              (frozen 0) s tt eq_refl
              ltac:(intros c Hc; discriminate Hc))
    as (H1 & _ & H3).
  destruct H1 as (Hlimit & _).
  destruct (H3 eq_refl) as (_ & H4).
  destruct (H4 eq_refl) as (Hretry & Hjson & _).
  destruct (Hjson eq_refl) as (_ & Hct).
  split; [exact Hlimit|]. split; [exact Hretry|exact Hct].
Defined.

(** X15.  The slot taken for a request is given back on every path: with
    the in-memory concurrency store, once the middleware returns --
    bypassed, refused a slot, denied by the rate check or served
    downstream -- the concurrency store is as it was before. *)
Theorem middleware_gives_slot_back {net : Net} {S : Type}
    (cfg : RateLimitConfig) (l : Limiter (S := S) (CS := gmap string Z))
    (r : Request) (clk : Clock) (s : S) (cs : gmap string Z) :
  concurrencyStore l = Some MemoryConcurrencyStore ->
  counts_positive cs ->
  snd (snd (Middleware cfg l r clk (s, cs))) = cs.
Proof.
  intros Hc Hpos. unfold Middleware.
  destruct (negb (CfgEnabled cfg) || negb (Enabled (policy l)));
    [reflexivity|].
  destruct (existsb _ (allowlist l)); [reflexivity|].
  destruct (keyFunc l r) as [key kt]. rewrite Hc.
  destruct (0 <? ConcurrencyLimit (policy l)).
  - cbn [Acquire Release MemoryConcurrencyStore].
    destruct (MemoryConcurrencyStore_Acquire cs key
                (ConcurrencyLimit (policy l))) as [[ok e] cs1] eqn:E.
    destruct ok; cbn [negb].
    + destruct (rate_check _ _ _ _ _ _ _ _ _) as [out s'].
      rewrite (Acquire_Release cs cs1 key _ e Hpos E). reflexivity.
    + cbn [snd]. apply (Acquire_refused cs cs1 key _ e E).
  - destruct (rate_check _ _ _ _ _ _ _ _ _); reflexivity.
Qed.

(** Scenario 7 of the specification: one slot, one request in flight
    under another key. *)
Lemma middleware_gives_slot_back_witness :
  let cfg := config_with [] in
  let l := limiter_by_ip MemoryStore_Store (Some MemoryConcurrencyStore)
             ExportsPolicy cfg in
  let r := request "GET" "203.0.113.9:4711" [] [] in
  let cs : gmap string Z := {[ "ip:198.51.100.7"%string := 1 ]} in
  snd (snd (Middleware (net := IPv4.net) cfg l r (frozen some_instant)
              (∅, cs))) = cs.
Proof.
  intros cfg l r cs.
  apply (middleware_gives_slot_back (net := IPv4.net) cfg l r
           (frozen some_instant) ∅ cs eq_refl).
  intros k n E. apply lookup_singleton_Some in E as [_ <-]. reflexivity.
Defined.

Section log_store_facts.
Context {net : Net} {S CS : Type}.
Variable cfg : RateLimitConfig.

Lemma denyResponse_WithLogStore (l : Limiter (S := S) (CS := CS))
    (ls : LogEntry.t -> option string) (r : Request) (res : Result)
    (key kt reason : string) (h : gmap string string) (lg : list string) :
  sent (denyResponse cfg (WithLogStore ls l) r res key kt reason h lg)
  = sent (denyResponse cfg l r res key kt reason h lg)
  /\ headers (denyResponse cfg (WithLogStore ls l) r res key kt reason h lg)
     = headers (denyResponse cfg l r res key kt reason h lg).
Proof.
  unfold denyResponse. cbn [logStore onLimit policy WithLogStore].
  destruct (ls _); (destruct (logStore l) as [f|]; [destruct (f _)|]);
    destruct (match onLimit l with Some g => g r res | None => false end);
    try (split; reflexivity);
    destruct (String.eqb _ "json"); split; reflexivity.
Qed.

Lemma rate_check_WithLogStore (l : Limiter (S := S) (CS := CS))
    (ls : LogEntry.t -> option string) (r : Request) (clk : Clock)
    (key kt : string) (cost : Z) (lg : list string) (s : S) :
  let a := rate_check cfg (WithLogStore ls l) r clk key kt cost lg s in
  let b := rate_check cfg l r clk key kt cost lg s in
  sent (fst a) = sent (fst b) /\ headers (fst a) = headers (fst b)
  /\ snd a = snd b.
Proof.
  unfold rate_check. cbn [store policy WithLogStore].
  destruct (Store_Allow (store l) s key (policy l) cost clk) as [res s'].
  destruct (Allowed res); cbn [negb fst snd]; [repeat split; reflexivity|].
  destruct (denyResponse_WithLogStore l ls r res key kt "rate"
              (setRateLimitHeaders ∅ res) lg) as [H1 H2].
  repeat split; assumption.
Qed.

End log_store_facts.

(** X16.  The deny log cannot change a response: attaching a log store
    to a limiter, whatever the store returns for an entry (an error
    included), leaves what is sent, the headers and the state of the
    stores as they are without it.  [DBLogStore] without a database
    returns an error for every entry. *)
Theorem log_store_does_not_affect_response {net : Net} {S CS : Type}
    (cfg : RateLimitConfig) (l : Limiter (S := S) (CS := CS))
    (ls : LogEntry.t -> option string) (r : Request) (clk : Clock)
    (st : S * CS) :
  let a := Middleware cfg (WithLogStore ls l) r clk st in
  let b := Middleware cfg l r clk st in
  sent (fst a) = sent (fst b)
  /\ headers (fst a) = headers (fst b)
  /\ snd a = snd b
  /\ (forall entry, DBLogStore_Log None entry <> None).
Proof.
  cbv zeta. split; [|split; [|split]]; [| | |discriminate];
    unfold Middleware; destruct st as [s cs];
    cbn [policy allowlist keyFunc concurrencyStore WithLogStore];
    (destruct (negb (CfgEnabled cfg) || negb (Enabled (policy l)));
       [reflexivity|]);
    (destruct (existsb _ (allowlist l)); [reflexivity|]);
    destruct (keyFunc l r) as [key kt];
    (destruct (concurrencyStore l) as [c|];
       [destruct (0 <? ConcurrencyLimit (policy l));
          [destruct (Acquire c cs key _) as [[ok e] cs1]; destruct ok;
             cbn [negb]|]|]);
    try (cbn [fst snd]; first
           [ apply denyResponse_WithLogStore | reflexivity ]);
    match goal with
    | |- context [rate_check cfg (WithLogStore ls l) r clk key kt ?c ?lg s] =>
        pose proof (rate_check_WithLogStore cfg l ls r clk key kt c lg s)
          as (H1 & H2 & H3);
        destruct (rate_check cfg (WithLogStore ls l) r clk key kt c lg s)
          as [o1 s1];
        destruct (rate_check cfg l r clk key kt c lg s) as [o2 s2];
        cbn [fst snd] in *; subst
    end;
    try (destruct (Release c cs1 key) as [[re|] cs2]; cbn [fst snd sent headers]);
    congruence.
Qed.

(** ** clientip.go: the walk over X-Forwarded-For *)

Section xff_facts.
Context {net : Net}.

Lemma walk_skips (trusted : list string) (l1 l2 : list string) :
  Forall (skipped trusted) l1 ->
  rightmost_untrusted (l1 ++ l2) trusted = rightmost_untrusted l2 trusted.
Proof.
  induction 1 as [|part l1 Hs _ IH]; [reflexivity|].
  cbn [app rightmost_untrusted].
  destruct (String.eqb_spec (strings.TrimSpace part) EmptyString);
    [exact IH|].
  destruct Hs as [Hs|Hs]; [contradiction|]. now rewrite Hs.
Qed.

Lemma walk_none (trusted : list string) (l : list string) :
  Forall (skipped trusted) l -> rightmost_untrusted l trusted = None.
Proof.
  intros H. rewrite <- (app_nil_r l). now rewrite walk_skips.
Qed.

End xff_facts.

(** X17.  Behind a trusted peer that sends no [X-Real-IP], the client IP
    is the rightmost entry of [X-Forwarded-For] that is neither empty
    nor trusted, normalized; the entries to its right, all empty or
    trusted, are passed over.  When every entry is empty or trusted, it
    is the leftmost entry if that is not empty, and else the peer. *)
Theorem forwarded_for_rightmost_untrusted {net : Net}
    (c : RateLimitConfig) (r : Request) (parts : list string) :
  isTrusted (extractIP (RemoteAddr r)) (TrustedProxies c) = true ->
  Header_Get r "X-Real-IP" = EmptyString ->
  Header_Get r "X-Forwarded-For" <> EmptyString ->
  strings.Split (Header_Get r "X-Forwarded-For") "," = parts ->
  (forall (pre post : list string) (e : string),
     parts = pre ++ e :: post ->
     Forall (skipped (TrustedProxies c)) post ->
     strings.TrimSpace e <> EmptyString ->
     isTrusted (strings.TrimSpace e) (TrustedProxies c) = false ->
     ClientIP (Some c) r = normalizeIP (strings.TrimSpace e))
  /\ (Forall (skipped (TrustedProxies c)) parts ->
      ClientIP (Some c) r
      = if String.eqb (strings.TrimSpace (hd EmptyString parts)) EmptyString
        then normalizeIP (extractIP (RemoteAddr r))
        else normalizeIP (strings.TrimSpace (hd EmptyString parts))).
Proof.
  intros Htr Hreal Hxff Hsplit.
  assert (Htl : (length (TrustedProxies c) =? 0)%nat = false).
  { destruct (TrustedProxies c); [|reflexivity].
    now rewrite isTrusted_nil in Htr. }
  apply String.eqb_neq in Hxff.
  assert (Hstart : ClientIP (Some c) r
            = match rightmost_untrusted (rev parts) (TrustedProxies c) with
              | Some ip => normalizeIP ip
              | None =>
                  if negb (String.eqb (strings.TrimSpace (hd EmptyString parts))
                                      EmptyString)
                  then normalizeIP (strings.TrimSpace (hd EmptyString parts))
                  else normalizeIP (extractIP (RemoteAddr r))
              end).
  { unfold ClientIP. rewrite Htl, Htr, Hreal, Hxff, Hsplit.
    cbn [negb orb String.eqb]. reflexivity. }
  split.
  - intros pre post e -> Hpost Hne Hun. rewrite Hstart.
    rewrite rev_app_distr. cbn [rev]. rewrite <- app_assoc.
    rewrite walk_skips by (now apply Forall_rev).
    cbn [app rightmost_untrusted].
    apply String.eqb_neq in Hne. rewrite Hne, Hun. reflexivity.
  - intros Hall. rewrite Hstart.
    rewrite walk_none by (now apply Forall_rev).
    destruct (String.eqb (strings.TrimSpace (hd EmptyString parts))
                         EmptyString); reflexivity.
Qed.

(** The proxy chain of scenario 5, with a blank last entry. *)
Lemma forwarded_for_rightmost_untrusted_witness :
  ClientIP (net := IPv4.net) (Some (config_with ["10.0.0.0/8"%string]))
    (request "GET" "10.0.0.7:4711"
       [("X-Forwarded-For", "198.51.100.4, 203.0.113.9, 10.0.0.2, ")%string]
       [])
  = "203.0.113.9"%string.
Proof.
  destruct (forwarded_for_rightmost_untrusted (net := IPv4.net)
              (config_with ["10.0.0.0/8"%string])
              (request "GET" "10.0.0.7:4711"
                 [("X-Forwarded-For",
                   "198.51.100.4, 203.0.113.9, 10.0.0.2, ")%string] [])
              ["198.51.100.4"; " 203.0.113.9"; " 10.0.0.2"; " "]%string
              eq_refl eq_refl) as [H _]; [discriminate|reflexivity|].
  apply (H ["198.51.100.4"%string] [" 10.0.0.2"; " "]%string
           " 203.0.113.9"%string eq_refl).
  - constructor; [right; reflexivity|].
    constructor; [left; reflexivity|]. constructor.
  - discriminate.
  - reflexivity.
Defined.

(** A trusted entry followed by a no-break space is trimmed and passed
    over like any trusted entry. *)
Example forwarded_for_no_break_space :
  ClientIP (net := IPv4.net) (Some (config_with ["10.0.0.0/8"%string]))
    (request "GET" "10.0.0.7:4711"
       [("X-Forwarded-For"%string,
         ("1.1.1.1, 10.0.0.2"
          ++ String (ascii_of_nat 194)
               (String (ascii_of_nat 160) EmptyString))%string)]
       [])
  = "1.1.1.1"%string.
Proof. vm_compute. reflexivity. Qed.

(** ** keys.go: fingerprints and key spaces *)

Section key_shape_facts.

Lemma digit_is_hex (n : Z) : is_hex (hex.digit n).
Proof.
  unfold is_hex, hex.digit. generalize (Z.to_nat n) as k. intros k.
  do 17 (destruct k as [|k]; [cbn; tauto|]).
  cbn. destruct k; tauto.
Qed.

End key_shape_facts.

(** X18.  [hashValue] always returns 16 lower-case hexadecimal
    characters, whatever its input. *)
Theorem hashValue_sixteen_hex_digits (v : string) :
  String.length (hashValue v) = 16%nat
  /\ Forall is_hex (list_ascii_of_string (hashValue v)).
Proof.
  rewrite hashValue_fingerprint. unfold fingerprint.
  generalize (sha256.h0 (sha256.state (bytes_of_string v))) as a.
  generalize (sha256.h1 (sha256.state (bytes_of_string v))) as b.
  intros b a.
  cbn [sha256.word_bytes app hex.Encode flat_map hex.byte_chars].
  split; [reflexivity|].
  rewrite list_ascii_of_string_of_list_ascii.
  repeat (apply List.Forall_cons; [apply digit_is_hex|]).
  apply List.Forall_nil.
Qed.

(** X19.  The key functions have separate key spaces: a key made by one
    of [KeyByIP], [KeyByIPAndIdentifier], [KeyByIPAndRoute] and
    [KeyByIPAndUA] is never a key made by another, for any two requests
    and configurations; so limiters with different key functions never
    share a bucket in a shared store. *)
Theorem key_spaces_disjoint {net : Net} {uni : Unicode}
    (cfg cfg' : option RateLimitConfig)
    (field : string) (r r' : Request) :
  fst (KeyByIP cfg r) <> fst (KeyByIPAndIdentifier cfg' field r')
  /\ fst (KeyByIP cfg r) <> fst (KeyByIPAndRoute cfg' r')
  /\ fst (KeyByIP cfg r) <> fst (KeyByIPAndUA cfg' r')
  /\ fst (KeyByIPAndIdentifier cfg field r) <> fst (KeyByIPAndRoute cfg' r')
  /\ fst (KeyByIPAndIdentifier cfg field r) <> fst (KeyByIPAndUA cfg' r')
  /\ fst (KeyByIPAndRoute cfg r) <> fst (KeyByIPAndUA cfg' r').
Proof.
  unfold KeyByIP, KeyByIPAndIdentifier, KeyByIPAndRoute, KeyByIPAndUA.
  cbn [fst String.append]. repeat split; discriminate.
Qed.

(** ** middleware.go: the substring search behind the JSON test *)

Section search_facts.

Lemma substring_0_prefix (t post : string) :
  substring 0 (String.length t) (t ++ post) = t.
Proof.
  induction t as [|c t IH].
  - now destruct post.
  - change (String c (substring 0 (String.length t) (t ++ post))
            = String c t).
    now rewrite IH.
Qed.

Lemma substring_past (pre : string) (n : nat) (s : string) :
  substring (String.length pre) n (pre ++ s) = substring 0 n s.
Proof.
  induction pre as [|c pre IH]; [reflexivity|].
  change (substring (String.length pre) n (pre ++ s) = substring 0 n s).
  exact IH.
Qed.

Lemma substring_0_occurs (n : nat) : forall s t : string,
  substring 0 n s = t -> String.length t = n ->
  exists post, s = (t ++ post)%string.
Proof.
  induction n as [|n IH]; intros s t Ht Hlen.
  - destruct t; [|discriminate]. now exists s.
  - destruct s as [|c s]; cbn [substring] in Ht.
    + subst t. discriminate.
    + subst t. cbn [String.length] in Hlen.
      destruct (IH s (substring 0 n s) eq_refl) as [post Hp]; [lia|].
      exists post.
      change (String c s = String c (substring 0 n s ++ post)%string).
      f_equal. exact Hp.
Qed.

Lemma substring_occurs (i n : nat) : forall s t : string,
  substring i n s = t -> String.length t = n -> occurs t s.
Proof.
  induction i as [|i IH]; intros s t Ht Hlen.
  - destruct (substring_0_occurs n s t Ht Hlen) as [post Hp].
    now exists EmptyString, post.
  - destruct s as [|c s].
    + assert (t = EmptyString) as -> by (now destruct n; cbn in Ht).
      now exists EmptyString, EmptyString.
    + cbn [substring] in Ht.
      destruct (IH s t Ht Hlen) as (pre & post & Hp).
      exists (String c pre), post.
      change (String c s = String c (pre ++ t ++ post)%string).
      f_equal. exact Hp.
Qed.

Lemma searchString_occurs (s sub : string) :
  searchString s sub = true <-> occurs sub s.
Proof.
  unfold searchString. split.
  - destruct (String.length s <? String.length sub)%nat; [discriminate|].
    intros H. apply existsb_exists in H. destruct H as (i & _ & Hi).
    apply String.eqb_eq in Hi. now apply (substring_occurs i (String.length sub) s sub).
  - intros (pre & post & ->).
    rewrite !length_append.
    destruct (Nat.ltb_spec (String.length pre + (String.length sub
                                                 + String.length post))
                           (String.length sub)) as [Hlt|_]; [lia|].
    apply existsb_exists. exists (String.length pre). split.
    + apply in_seq. lia.
    + rewrite substring_past, substring_0_prefix. apply String.eqb_refl.
Qed.

Lemma contains_occurs (s sub : string) :
  contains s sub = true <-> occurs sub s.
Proof.
  unfold contains. rewrite andb_true_iff, searchString_occurs. split.
  - now intros [_ H].
  - intros H. split; [|exact H]. destruct H as (pre & post & ->).
    rewrite !length_append. apply Nat.leb_le. lia.
Qed.

End search_facts.

(** X20.  The package's own substring search is correct: [contains s sub]
    holds exactly when [sub] occurs somewhere in [s]; so a denial is
    answered in JSON through the [Accept] header exactly when that
    header has [application/json] or [text/json] somewhere in it. *)
Theorem contains_finds_every_occurrence (s sub accept : string) :
  (contains s sub = true <-> occurs sub s)
  /\ (containsJSON accept = true
      <-> occurs "application/json" accept \/ occurs "text/json" accept).
Proof.
  split; [apply contains_occurs|].
  unfold containsJSON.
  rewrite andb_true_iff, orb_true_iff, !contains_occurs. split.
  - now intros [_ H].
  - intros H. split; [|exact H]. apply Nat.ltb_lt.
    destruct H as [(pre & post & ->)|(pre & post & ->)];
      rewrite !length_append; cbn [String.length]; lia.
Qed.

(** ** config/ratelimit.go: splitting and trimming the proxy list *)

Section config_facts.

Lemma append_cons (c : ascii) (a b : string) :
  (String c a ++ b)%string = String c (a ++ b)%string.
Proof. reflexivity. Qed.

Lemma append_empty_r (a : string) : (a ++ EmptyString)%string = a.
Proof.
  induction a as [|c a IH]; [reflexivity|]. now rewrite append_cons, IH.
Qed.

Lemma append_snoc (a : string) (c : ascii) (b : string) :
  ((a ++ String c EmptyString) ++ b)%string = (a ++ String c b)%string.
Proof.
  induction a as [|d a IH]; [reflexivity|].
  now rewrite !append_cons, IH.
Qed.

Lemma chars_snoc (a : string) (c : ascii) :
  list_ascii_of_string (a ++ String c EmptyString)
  = list_ascii_of_string a ++ [c].
Proof.
  induction a as [|d a IH]; [reflexivity|].
  rewrite append_cons. cbn [list_ascii_of_string app]. now rewrite IH.
Qed.

Lemma splitBy_from_nonempty (sep : ascii) (rest cur : string) :
  config.splitBy_from cur rest sep <> [].
Proof.
  revert cur. induction rest as [|c rest IH]; intros cur;
    cbn [config.splitBy_from]; [discriminate|].
  destruct (Ascii.eqb c sep); [discriminate|apply IH].
Qed.

Lemma splitBy_from_joins (sep : ascii) (rest : string) : forall cur : string,
  String.concat (String sep EmptyString) (config.splitBy_from cur rest sep)
  = (cur ++ rest)%string.
Proof.
  induction rest as [|c rest IH]; intros cur; cbn [config.splitBy_from].
  - cbn [String.concat]. now rewrite append_empty_r.
  - destruct (Ascii.eqb_spec c sep) as [->|Hne].
    + specialize (IH EmptyString).
      pose proof (splitBy_from_nonempty sep rest EmptyString) as Hn.
      destruct (config.splitBy_from EmptyString rest sep) as [|x xs];
        [contradiction|].
      change (String.concat (String sep EmptyString) (cur :: x :: xs))
        with (cur ++ String sep EmptyString
                  ++ String.concat (String sep EmptyString) (x :: xs))%string.
      now rewrite IH.
    + now rewrite IH, append_snoc.
Qed.

Lemma splitBy_from_free (sep : ascii) (rest : string) : forall cur : string,
  strings.ContainsByte cur sep = false ->
  sep_free sep (config.splitBy_from cur rest sep).
Proof.
  induction rest as [|c rest IH]; intros cur Hcur; cbn [config.splitBy_from].
  - now repeat constructor.
  - destruct (Ascii.eqb_spec c sep) as [->|Hne].
    + constructor; [exact Hcur|]. now apply IH.
    + apply IH. unfold strings.ContainsByte in *.
      rewrite chars_snoc, existsb_app, Hcur. cbn [existsb orb].
      rewrite orb_false_r. apply Ascii.eqb_neq. congruence.
Qed.

Lemma splitBy_from_length (sep : ascii) (rest : string) : forall cur : string,
  length (config.splitBy_from cur rest sep)
  = Datatypes.S (count_occ ascii_dec (list_ascii_of_string rest) sep).
Proof.
  induction rest as [|c rest IH]; intros cur;
    cbn [config.splitBy_from list_ascii_of_string count_occ];
    [reflexivity|].
  destruct (Ascii.eqb_spec c sep) as [->|Hne];
    destruct (ascii_dec _ sep) as [He|He]; try congruence;
    cbn [length]; now rewrite IH.
Qed.

Lemma drop_blank_head (l : list ascii) :
  match config.drop_blank l with
  | c :: _ => config.is_blank c = false
  | [] => True
  end.
Proof.
  induction l as [|c l IH]; cbn [config.drop_blank]; [exact I|].
  destruct (config.is_blank c) eqn:Hc; [exact IH|exact Hc].
Qed.

Lemma drop_blank_suffix (l : list ascii) :
  exists pre, l = pre ++ config.drop_blank l
              /\ forallb config.is_blank pre = true.
Proof.
  induction l as [|c l (pre & IH & Hpre)]; cbn [config.drop_blank].
  - now exists [].
  - destruct (config.is_blank c) eqn:Hc.
    + exists (c :: pre). cbn [app forallb]. rewrite Hc, Hpre.
      split; [now f_equal|reflexivity].
    + now exists [].
Qed.

Lemma drop_blank_fixed (l : list ascii) :
  match l with c :: _ => config.is_blank c = false | [] => True end ->
  config.drop_blank l = l.
Proof.
  destruct l as [|c l]; [reflexivity|]. cbn [config.drop_blank].
  now intros ->.
Qed.

Lemma drop_blank_all (l : list ascii) :
  forallb config.is_blank l = true -> config.drop_blank l = [].
Proof.
  induction l as [|c l IH]; [reflexivity|]. cbn [forallb config.drop_blank].
  intros H. apply andb_true_iff in H. destruct H as [-> H]. now apply IH.
Qed.

(** The characters [trimSpace] keeps, between the blanks it drops. *)
Lemma trimSpace_chars (s : string) :
  exists pre post,
    list_ascii_of_string s
    = pre ++ list_ascii_of_string (config.trimSpace s) ++ post
    /\ forallb config.is_blank pre = true
    /\ forallb config.is_blank post = true.
Proof.
  unfold config.trimSpace. rewrite list_ascii_of_string_of_list_ascii.
  destruct (drop_blank_suffix (list_ascii_of_string s)) as (p1 & H1 & Hp1).
  destruct (drop_blank_suffix
              (rev (config.drop_blank (list_ascii_of_string s))))
    as (p2 & H2 & Hp2).
  exists p1, (rev p2). split; [|split].
  - rewrite H1 at 1. f_equal.
    rewrite <- rev_app_distr, <- H2. now rewrite rev_involutive.
  - exact Hp1.
  - rewrite forallb_forall in *. intros x Hx. apply Hp2.
    now apply in_rev.
Qed.

Lemma trimSpace_trimmed (s : string) : blank_trimmed (config.trimSpace s).
Proof.
  unfold blank_trimmed, config.trimSpace.
  rewrite list_ascii_of_string_of_list_ascii, rev_involutive.
  set (a := config.drop_blank (list_ascii_of_string s)).
  split; [|apply drop_blank_head].
  destruct (drop_blank_suffix (rev a)) as (p & Hp & _).
  pose proof (drop_blank_head (list_ascii_of_string s)) as Ha.
  fold a in Ha.
  assert (Hrev : a = rev (config.drop_blank (rev a)) ++ rev p).
  { rewrite <- rev_app_distr, <- Hp. now rewrite rev_involutive. }
  destruct (rev (config.drop_blank (rev a))) as [|c l]; [exact I|].
  rewrite Hrev in Ha. exact Ha.
Qed.

Lemma trimSpace_fixed (s : string) :
  blank_trimmed s -> config.trimSpace s = s.
Proof.
  intros [Hl Hr]. unfold config.trimSpace.
  rewrite (drop_blank_fixed _ Hl), (drop_blank_fixed _ Hr), rev_involutive.
  apply string_of_list_ascii_of_string.
Qed.

Lemma existsb_false_in {A : Type} (f : A -> bool) (l : list A) :
  existsb f l = false <-> forall x, In x l -> f x = false.
Proof.
  induction l as [|a l IH]; cbn [existsb In]; [tauto|].
  rewrite orb_false_iff, IH. split.
  - intros [Ha H] x [<-|Hx]; auto.
  - intros H. split; auto.
Qed.

Lemma trimSpace_keeps_free (s : string) (sep : ascii) :
  strings.ContainsByte s sep = false ->
  strings.ContainsByte (config.trimSpace s) sep = false.
Proof.
  unfold strings.ContainsByte. rewrite !existsb_false_in.
  intros H x Hx. apply H.
  destruct (trimSpace_chars s) as (pre & post & -> & _).
  apply in_or_app. right. apply in_or_app. now left.
Qed.

Lemma keep_trimmed_entries (parts : list string) :
  sep_free "," parts ->
  Forall (fun e => e <> EmptyString
                   /\ strings.ContainsByte e "," = false
                   /\ blank_trimmed e)
         (config.keep_trimmed parts).
Proof.
  induction 1 as [|part parts Hp _ IH]; cbn [config.keep_trimmed];
    [constructor|].
  destruct (String.eqb_spec (config.trimSpace part) EmptyString) as [He|He];
    cbn [negb]; [exact IH|].
  constructor; [|exact IH].
  split; [exact He|]. split; [now apply trimSpace_keeps_free|].
  apply trimSpace_trimmed.
Qed.

Lemma splitBy_from_blank (rest : string) : forall cur : string,
  forallb config.is_blank (list_ascii_of_string cur) = true ->
  forallb (fun c => config.is_blank c || Ascii.eqb c ",")
          (list_ascii_of_string rest) = true ->
  config.keep_trimmed (config.splitBy_from cur rest ",") = [].
Proof.
  assert (Hblank : forall cur,
            forallb config.is_blank (list_ascii_of_string cur) = true ->
            config.trimSpace cur = EmptyString).
  { intros cur Hc. unfold config.trimSpace.
    now rewrite (drop_blank_all _ Hc). }
  induction rest as [|c rest IH]; intros cur Hcur Hrest;
    cbn [config.splitBy_from config.keep_trimmed].
  - now rewrite (Hblank cur Hcur).
  - cbn [list_ascii_of_string forallb] in Hrest.
    apply andb_true_iff in Hrest. destruct Hrest as [Hc Hrest].
    destruct (Ascii.eqb c ",") eqn:Hsep.
    + cbn [config.keep_trimmed]. rewrite (Hblank cur Hcur).
      cbn [String.eqb negb]. now apply IH.
    + apply IH; [|exact Hrest]. rewrite orb_false_r in Hc.
      rewrite chars_snoc, forallb_app, Hcur. cbn [forallb].
      now rewrite Hc.
Qed.

End config_facts.

(** X21.  [splitBy] loses nothing: joining its parts with the separator
    gives the string back; no part holds the separator, and there is one
    part more than there are separators in the string. *)
Theorem splitBy_round_trip (s : string) (sep : ascii) :
  String.concat (String sep EmptyString) (config.splitBy s sep) = s
  /\ sep_free sep (config.splitBy s sep)
  /\ length (config.splitBy s sep)
     = Datatypes.S (count_occ ascii_dec (list_ascii_of_string s) sep).
Proof.
  unfold config.splitBy. split; [|split].
  - apply splitBy_from_joins.
  - now apply splitBy_from_free.
  - apply splitBy_from_length.
Qed.

(** X22.  [trimSpace] removes spaces and tabs at both ends and nothing
    else: the string is its result between two runs of blanks, the
    result neither begins nor ends with a blank, and trimming twice is
    trimming once. *)
Theorem trimSpace_strips_both_ends (s : string) :
  (exists pre post,
     list_ascii_of_string s
     = pre ++ list_ascii_of_string (config.trimSpace s) ++ post
     /\ forallb config.is_blank pre = true
     /\ forallb config.is_blank post = true)
  /\ blank_trimmed (config.trimSpace s)
  /\ config.trimSpace (config.trimSpace s) = config.trimSpace s.
Proof.
  split; [apply trimSpace_chars|]. split; [apply trimSpace_trimmed|].
  apply trimSpace_fixed, trimSpace_trimmed.
Qed.

(** X23.  The trusted proxies that [initRateLimit] reads from
    [RATE_LIMIT_TRUSTED_PROXIES] are [splitCSV] of the value (the test
    for the empty value changes nothing), and each entry is non-empty,
    holds no comma and has no blank at either end. *)
Theorem trusted_proxies_entries_clean (enabled : bool)
    (format proxyStr : string) :
  TrustedProxies (config.initRateLimit enabled format proxyStr)
  = config.splitCSV proxyStr
  /\ Forall (fun e => e <> EmptyString
                      /\ strings.ContainsByte e "," = false
                      /\ blank_trimmed e)
            (config.splitCSV proxyStr).
Proof.
  split.
  - unfold config.initRateLimit. cbn [TrustedProxies].
    destruct (String.eqb_spec proxyStr EmptyString) as [->|_]; reflexivity.
  - unfold config.splitCSV, config.splitBy.
    now apply keep_trimmed_entries, splitBy_from_free.
Qed.

(** X24.  A value of [RATE_LIMIT_TRUSTED_PROXIES] made of blanks and
    commas only configures no trusted proxy: whatever headers a request
    carries, its client IP is the peer's. *)
Theorem blank_proxy_list_trusts_nobody {net : Net} (enabled : bool)
    (format proxyStr : string) (r : Request) :
  forallb (fun c => config.is_blank c || Ascii.eqb c ",")
          (list_ascii_of_string proxyStr) = true ->
  TrustedProxies (config.initRateLimit enabled format proxyStr) = []
  /\ ClientIP (Some (config.initRateLimit enabled format proxyStr)) r
     = normalizeIP (extractIP (RemoteAddr r)).
Proof.
  intros H.
  assert (He : TrustedProxies (config.initRateLimit enabled format proxyStr)
               = []).
  { unfold config.initRateLimit. cbn [TrustedProxies].
    destruct (String.eqb proxyStr EmptyString); [reflexivity|].
    cbn [negb]. unfold config.splitCSV, config.splitBy.
    now apply splitBy_from_blank. }
  split; [exact He|]. unfold ClientIP. now rewrite He.
Qed.

Lemma blank_proxy_list_trusts_nobody_witness :
  ClientIP (net := IPv4.net)
    (Some (config.initRateLimit true "json" " , ,, "))
    (request "GET" "10.0.0.7:4711"
       [("X-Forwarded-For", "198.51.100.4")%string] [])
  = "10.0.0.7"%string.
Proof.
  exact (proj2 (blank_proxy_list_trusts_nobody (net := IPv4.net)
                  true "json" " , ,, "
                  (request "GET" "10.0.0.7:4711"
                     [("X-Forwarded-For", "198.51.100.4")%string] [])
                  eq_refl)).
Defined.

(** ** middleware/notfound.go: taking over the 404 *)

Section notfound_facts.

Lemma rw_passes (calls : list WriterOp) : forall w : responseWriter404,
  status w <> 404 -> existsb sets_404 calls = false ->
  passed (fold_left rw_call calls w) = passed w ++ calls
  /\ status (fold_left rw_call calls w) <> 404.
Proof.
  induction calls as [|op calls IH]; intros w Hw Hc; cbn [fold_left].
  - now rewrite app_nil_r.
  - cbn [existsb] in Hc. apply orb_false_iff in Hc. destruct Hc as [Hop Hc].
    assert (Hstep : passed (rw_call w op) = passed w ++ [op]
                    /\ status (rw_call w op) <> 404).
    { destruct op as [n v|st|b|t]; cbn [rw_call sets_404] in *.
      - now split.
      - unfold rw_WriteHeader. rewrite Hop. cbn [negb passed status].
        split; [reflexivity|]. now apply Z.eqb_neq.
      - unfold rw_Write. apply Z.eqb_neq in Hw. rewrite Hw.
        apply Z.eqb_neq in Hw. now split.
      - now split. }
    destruct Hstep as [Hp Hs].
    destruct (IH (rw_call w op) Hs Hc) as [IHp IHs].
    split; [|exact IHs]. rewrite IHp, Hp, <- app_assoc. reflexivity.
Qed.

Lemma rw_suppresses (body : list WriterOp) : forall w : responseWriter404,
  status w = 404 -> forallb is_write body = true ->
  fold_left rw_call body w = w.
Proof.
  induction body as [|op body IH]; intros w Hw Hb; [reflexivity|].
  cbn [forallb] in Hb. apply andb_true_iff in Hb. destruct Hb as [Hop Hb].
  destruct op as [n v|st|b|t]; try discriminate.
  cbn [fold_left rw_call]. unfold rw_Write. rewrite Hw.
  cbn [Z.eqb Pos.eqb]. now apply IH.
Qed.

End notfound_facts.

(** X25.  [NotFound] is transparent for a handler that never sets the
    status 404: the writer receives the handler's calls, all of them and
    in their order, and nothing more. *)
Theorem NotFound_transparent_without_404 (templateName : string)
    (calls : list WriterOp) :
  existsb sets_404 calls = false ->
  NotFound templateName calls = calls.
Proof.
  intros H. unfold NotFound.
  destruct (rw_passes calls {| passed := []; status := 0 |}) as [Hp Hs];
    [discriminate|exact H|].
  apply Z.eqb_neq in Hs. rewrite Hs. exact Hp.
Qed.

Lemma NotFound_transparent_without_404_witness :
  NotFound "errors/404"
    [WSetHeader "Content-Type" "text/plain"; WWriteHeader 500;
     WWrite "internal error"]
  = [WSetHeader "Content-Type" "text/plain"; WWriteHeader 500;
     WWrite "internal error"].
Proof.
  apply (NotFound_transparent_without_404 "errors/404"
           [WSetHeader "Content-Type" "text/plain"; WWriteHeader 500;
            WWrite "internal error"]).
  reflexivity.
Defined.

(** X26.  When the handler sets the status 404 and then only writes, the
    writer never receives that status line nor any of the body: after
    the handler's earlier calls it gets the HTML content type, the
    status 404 and the rendering of the template. *)
Theorem NotFound_replaces_404_body (templateName : string)
    (before body : list WriterOp) :
  existsb sets_404 before = false ->
  forallb is_write body = true ->
  NotFound templateName (before ++ WWriteHeader 404 :: body)
  = before ++ [WSetHeader "Content-Type" "text/html; charset=utf-8";
               WWriteHeader 404; WRender templateName].
Proof.
  intros Hb Hw. unfold NotFound.
  rewrite fold_left_app. cbn [fold_left].
  destruct (rw_passes before {| passed := []; status := 0 |}) as [Hp _];
    [discriminate|exact Hb|].
  set (w := fold_left rw_call before _) in *.
  rewrite (rw_suppresses body (rw_call w (WWriteHeader 404)));
    [|reflexivity|exact Hw].
  cbn [rw_call rw_WriteHeader status passed Z.eqb Pos.eqb negb].
  now rewrite Hp.
Qed.

Lemma NotFound_replaces_404_body_witness :
  NotFound "errors/404"
    [WSetHeader "Content-Type" "text/plain"; WWriteHeader 404;
     WWrite "404 page not found"]
  = [WSetHeader "Content-Type" "text/plain";
     WSetHeader "Content-Type" "text/html; charset=utf-8";
     WWriteHeader 404; WRender "errors/404"].
Proof.
  apply (NotFound_replaces_404_body "errors/404"
           [WSetHeader "Content-Type" "text/plain"]
           [WWrite "404 page not found"]); reflexivity.
Defined.

(** ** keys.go: the bearer token *)

Section bearer_facts.

Lemma substring_0_all (s : string) : substring 0 (String.length s) s = s.
Proof.
  rewrite <- (append_empty_r s) at 2. apply substring_0_prefix.
Qed.

Lemma TrimSpace_empty : strings.TrimSpace EmptyString = EmptyString.
Proof. reflexivity. Qed.

End bearer_facts.

(** X27.  An [Authorization] header made of the seven characters
    [Bearer ] in any letter case and a rest that is not all white space
    gives the trimmed rest as token, and [KeyByTokenElseUserElseIP] then
    keys the request by the fingerprint of that token alone: neither the
    session nor the client IP enters the key. *)
Theorem bearer_token_keys_the_request {net : Net}
    (cfg : option RateLimitConfig) (user : option string) (r : Request)
    (scheme rest : string) :
  Header_Get r "Authorization" = (scheme ++ rest)%string ->
  String.length scheme = 7%nat ->
  EqualFold scheme "Bearer " = true ->
  strings.TrimSpace rest <> EmptyString ->
  extractBearerToken r = strings.TrimSpace rest
  /\ KeyByTokenElseUserElseIP cfg user r
     = (("token:" ++ hashValue (strings.TrimSpace rest))%string,
        KeyTypeToken).
Proof.
  intros Hh Hlen Hfold Hrest.
  assert (Hr : (1 <= String.length rest)%nat).
  { destruct rest; [now rewrite TrimSpace_empty in Hrest|cbn; lia]. }
  assert (Htok : extractBearerToken r = strings.TrimSpace rest).
  { unfold extractBearerToken. rewrite Hh.
    destruct (String.eqb_spec (scheme ++ rest) EmptyString) as [He|_].
    { apply (f_equal String.length) in He.
      rewrite length_append in He. cbn in He. lia. }
    rewrite length_append, Hlen.
    replace (7 <? 7 + String.length rest)%nat with true
      by (symmetry; apply Nat.ltb_lt; lia).
    rewrite <- Hlen at 1. rewrite substring_0_prefix, Hfold.
    cbn [andb].
    replace (7 + String.length rest - 7)%nat with (String.length rest)
      by lia.
    rewrite <- Hlen. now rewrite substring_past, substring_0_all. }
  split; [exact Htok|].
  unfold KeyByTokenElseUserElseIP. rewrite Htok.
  apply String.eqb_neq in Hrest. now rewrite Hrest.
Qed.

Lemma bearer_token_keys_the_request_witness :
  KeyByTokenElseUserElseIP (net := IPv4.net) None (Some "42"%string)
    (request "GET" "10.0.0.7:4711"
       [("Authorization", "bearer  s3cret ")%string] [])
  = (("token:" ++ hashValue "s3cret")%string, KeyTypeToken).
Proof.
  exact (proj2 (bearer_token_keys_the_request (net := IPv4.net) None
                  (Some "42"%string)
                  (request "GET" "10.0.0.7:4711"
                     [("Authorization", "bearer  s3cret ")%string] [])
                  "bearer "%string " s3cret "%string
                  eq_refl eq_refl eq_refl
                  ltac:(discriminate))).
Defined.

(** A bearer scheme followed by a no-break space alone carries no token:
    the request is keyed by its user. *)
Example bearer_no_break_space :
  KeyByTokenElseUserElseIP (net := IPv4.net) None (Some "42"%string)
    (request "GET" "10.0.0.7:4711"
       [("Authorization"%string,
         ("Bearer "
          ++ String (ascii_of_nat 194)
               (String (ascii_of_nat 160) EmptyString))%string)]
       [])
  = ("user:42"%string, KeyTypeUser).
Proof. vm_compute. reflexivity. Qed.

(** X28.  An [Authorization] header of at most seven bytes carries no
    bearer token -- the bare scheme [Bearer ] included -- and the request
    is keyed by [KeyByTokenElseUserElseIP] as [KeyByUserElseIP] keys
    it. *)
Theorem short_authorization_is_no_token {net : Net}
    (cfg : option RateLimitConfig) (user : option string) (r : Request) :
  (String.length (Header_Get r "Authorization") <= 7)%nat ->
  extractBearerToken r = EmptyString
  /\ KeyByTokenElseUserElseIP cfg user r = KeyByUserElseIP cfg user r.
Proof.
  intros Hlen.
  assert (Htok : extractBearerToken r = EmptyString).
  { unfold extractBearerToken.
    destruct (String.eqb _ EmptyString); [reflexivity|].
    replace (7 <? String.length (Header_Get r "Authorization"))%nat
      with false by (symmetry; apply Nat.ltb_ge; exact Hlen).
    reflexivity. }
  split; [exact Htok|].
  unfold KeyByTokenElseUserElseIP, KeyByUserElseIP. now rewrite Htok.
Qed.

Lemma short_authorization_is_no_token_witness :
  KeyByTokenElseUserElseIP (net := IPv4.net) None (Some "42"%string)
    (request "GET" "10.0.0.7:4711"
       [("Authorization", "Bearer ")%string] [])
  = ("user:42"%string, KeyTypeUser).
Proof.
  refine (eq_trans
            (proj2 (short_authorization_is_no_token (net := IPv4.net) None
                      (Some "42"%string)
                      (request "GET" "10.0.0.7:4711"
                         [("Authorization", "Bearer ")%string] [])
                      _))
            eq_refl).
  vm_compute. lia.
Defined.

(** ** middleware.go: building a limiter *)

Section option_facts.
Context {S CS : Type}.

Lemma options_keep_core (l : Limiter (S := S) (CS := CS))
    (opts : list (Limiter (S := S) (CS := CS) -> Limiter)) :
  Forall is_option opts ->
  store (fold_left (fun l o => o l) opts l) = store l
  /\ policy (fold_left (fun l o => o l) opts l) = policy l
  /\ keyFunc (fold_left (fun l o => o l) opts l) = keyFunc l.
Proof.
  intros H. revert l.
  induction H as [|o opts Ho _ IH]; intros l; [now repeat split|].
  cbn [fold_left]. destruct (IH (o l)) as (-> & -> & ->).
  now destruct Ho.
Qed.

End option_facts.

(** X29.  No option changes the store, the policy or the key function a
    limiter was made with; and [WithAllowlist] replaces the bypass rules
    rather than adding to them: after it the limiter has its rules only,
    whatever earlier options gave. *)
Theorem options_keep_store_policy_key {S CS : Type} (st : Store S)
    (p : Policy) (kf : Request -> string * string)
    (opts : list (Limiter (S := S) (CS := CS) -> Limiter))
    (rules : list AllowRule) :
  Forall is_option opts ->
  store (NewLimiter st p kf opts) = st
  /\ policy (NewLimiter st p kf opts) = p
  /\ keyFunc (NewLimiter st p kf opts) = kf
  /\ allowlist (NewLimiter st p kf (opts ++ [WithAllowlist rules])) = rules.
Proof.
  intros H. unfold NewLimiter.
  destruct (options_keep_core
              {| store := st; concurrencyStore := None; policy := p;
                 keyFunc := kf; onLimit := None; allowlist := [];
                 logStore := None |} opts H) as (H1 & H2 & H3).
  repeat split; [exact H1|exact H2|exact H3|].
  now rewrite fold_left_app.
Qed.

Lemma options_keep_store_policy_key_witness :
  allowlist
    (NewLimiter (S := MemoryStore) (CS := gmap string Z)
       MemoryStore_Store ten_a_day (KeyByIP (net := IPv4.net) None)
       [WithAllowlist [BypassLocalDev];
        WithAllowlist [BypassPaths ["/healthz"%string]]])
  = [BypassPaths ["/healthz"%string]].
Proof.
  apply (options_keep_store_policy_key (S := MemoryStore)
           (CS := gmap string Z) MemoryStore_Store ten_a_day
           (KeyByIP (net := IPv4.net) None)
           [WithAllowlist [BypassLocalDev]]
           [BypassPaths ["/healthz"%string]]).
  repeat constructor.
Defined.
